(** * gpipe: message pipes between gevent processes

    A shallow embedding of [gpipe.py]: the handle life cycle
    ([pipe], [close], [_validate_process], [start_process]), the framing
    ([struct.pack "!i"] / [struct.unpack "!i"]) and the cooperative
    I/O loops ([_recv_in_buffer], [_write]) below [get] and [put].

    Modelling choices.
    - One process is modelled: its handle objects (a heap, handles are
      compared by identity), the module-level list [_all_handles], its
      descriptor table and the kernel pipes the descriptors refer to.
    - The platform is POSIX ([WINDOWS = False]); the two
      [_*_createprocess_windows] hooks do nothing there. The two
      sides of [start_process] are modelled apart: the parent's side
      as [start_process], the child's as [_child], which is run on
      [forked_child], the parent's state at the fork under a pid of
      its own. The two processes share the kernel pipes and nothing
      else ([after_peer]). The event loop that [_child] re-initialises
      and the polling of [_GProcess.join] are left out.
    - A greenlet that has to wait (semaphore taken, pipe empty while a
      writer is still open) yields the result [Blocked]: the state it
      is suspended in is returned, so that what other greenlets see of
      an operation in flight can be stated.
    - How many bytes one [os.read] / [os.write] transfers is decided by
      the environment; the field [sched] of the state is that oracle.
      A pipe has the sizes the docstrings of [pipe] and [_write] name
      (Linux, [pipe(7)]): it holds 65536 bytes, and a write of at most
      4096 bytes is atomic. A write that finds no room waits, and as
      no other greenlet runs in this model it waits for good: what is
      proved of a [put] that returns is proved of frames that find
      room in the pipe. The field [io_calls] counts the calls of
      [_READ_NB] and [_WRITE_NB]; no operation reads it.
    - [pickle] is a parameter (class [Pickle]); logging and the
      diagnostic [_id] of a handle do not influence behaviour and are
      left out, and so is the [O_NONBLOCK] flag that
      [_make_nonblocking] sets: descriptors are only used through
      [_READ_NB] and [_WRITE_NB], which hide it. *)

From Stdlib Require Import ZArith Lia.
From Stdlib.Strings Require Import Byte.
From stdpp Require Import base gmap list strings.

Abbreviation bytes := (list byte).

(** ** [struct]: the length prefix *)

Module struct.

Definition Z_of_byte (b : byte) : Z := Z.of_N (Byte.to_N b).

Definition byte_of_Z (z : Z) : byte :=
  default x00 (Byte.of_N (Z.to_N (z mod 256))).

(** [struct.pack("!i", n)]: four bytes, most significant first, two's
    complement; [None] stands for [struct.error] (argument out of
    range for a signed 32-bit integer). *)
Definition pack_i (n : Z) : option bytes :=
  if ((- 2 ^ 31 <=? n) && (n <? 2 ^ 31))%Z then
    Some [ byte_of_Z (n / 2 ^ 24); byte_of_Z (n / 2 ^ 16);
           byte_of_Z (n / 2 ^ 8); byte_of_Z n ]
  else None.

(** The four bytes read as an unsigned big-endian number. *)
Definition be32 (b0 b1 b2 b3 : byte) : Z :=
  (Z_of_byte b0 * 2 ^ 24 + Z_of_byte b1 * 2 ^ 16
   + Z_of_byte b2 * 2 ^ 8 + Z_of_byte b3)%Z.

(** The 32-bit pattern [u] read in two's complement. *)
Definition signed32 (u : Z) : Z :=
  if (2 ^ 31 <=? u)%Z then (u - 2 ^ 32)%Z else u.

(** [struct.unpack("!i", s)]: [None] stands for [struct.error]
    (the string is not four bytes long). *)
Definition unpack_i (s : bytes) : option Z :=
  match s with
  | [b0; b1; b2; b3] => Some (signed32 (be32 b0 b1 b2 b3))
  | _ => None
  end.

End struct.

(** ** Exceptions and results *)

Inductive errno := EBADF | EPIPE.

Inductive exn :=
| GPipeError (msg : string)
| EOFError (msg : string)
| IOError (msg : string)
| OSError (e : errno)
| TypeError
| StructError
| AttributeError.

(** The three [GPipeError]s of the module and the two end-of-file
    errors of [_recv_in_buffer], under the names the design document
    gives them. *)
Definition HandleClosedError : exn :=
  GPipeError "GPipeHandle has been closed before.".
Definition CrossProcessUseError : exn :=
  GPipeError "GPipeHandle not registered for current process.".
Definition HandleLockedError : exn :=
  GPipeError "Can't close: handle locked for I/O operation.".
Definition PeerClosedError : exn :=
  EOFError "Most likely, the other pipe end is closed.".
Definition TruncatedMessageError : exn :=
  IOError "Message interrupted by EOF.".

Inductive result (A : Type) :=
| Ret (a : A)       (* the call returns [a] *)
| Raise (e : exn)   (* the call raises [e] *)
| Blocked           (* the greenlet waits; nothing wakes it up here *)
| Spin.             (* a loop used up its iteration budget *)
Arguments Ret {A} a.
Arguments Raise {A} e.
Arguments Blocked {A}.
Arguments Spin {A}.

(** ** The state of one process *)

Inductive fd_flag := O_RDONLY | O_WRONLY.

#[global] Instance fd_flag_eq_dec : EqDecision fd_flag.
Proof. solve_decision. Defined.

(** A handle object. [_lock] is the counter of the
    [gevent.lock.Semaphore(value=1)]: 1 when free, 0 when taken. *)
Record _GPipeHandle := mkHandle {
  _fd : option nat;
  _fd_flag : fd_flag;
  _legit_pid : Z;
  _lock : nat;
  _closed : bool }.

(** An open descriptor: the pipe it refers to and which end. *)
Record fdesc := mkFdesc { fd_pipe : nat; fd_end : fd_flag }.

(** A kernel pipe: the bytes in flight and the number of descriptors
    (of any process) open on each end. *)
Record kpipe := mkPipe { content : bytes; readers : nat; writers : nat }.

Record State := mkState {
  getpid : Z;
  heap : gmap nat _GPipeHandle;
  _all_handles : list nat;
  fdtab : gmap nat fdesc;
  kpipes : gmap nat kpipe;
  sched : list nat;
  io_calls : nat }.

Definition set_heap (f : gmap nat _GPipeHandle → gmap nat _GPipeHandle)
    (s : State) : State :=
  mkState (getpid s) (f (heap s)) (_all_handles s) (fdtab s) (kpipes s)
    (sched s) (io_calls s).
Definition set_all_handles (l : list nat) (s : State) : State :=
  mkState (getpid s) (heap s) l (fdtab s) (kpipes s) (sched s) (io_calls s).
Definition set_fdtab (f : gmap nat fdesc → gmap nat fdesc) (s : State) : State :=
  mkState (getpid s) (heap s) (_all_handles s) (f (fdtab s)) (kpipes s)
    (sched s) (io_calls s).
Definition set_kpipes (f : gmap nat kpipe → gmap nat kpipe) (s : State) : State :=
  mkState (getpid s) (heap s) (_all_handles s) (fdtab s) (f (kpipes s))
    (sched s) (io_calls s).

(** One call of [_READ_NB] or [_WRITE_NB] is made: it is counted and
    the oracle moves on. *)
Definition io_call (s : State) : State :=
  mkState (getpid s) (heap s) (_all_handles s) (fdtab s) (kpipes s)
    (tail (sched s)) (S (io_calls s)).

(** ** The monad of operations: state and exceptions *)

Definition M (A : Type) : Type := State → result A * State.

#[global] Instance M_ret : MRet M := λ A a s, (Ret a, s).

#[global] Instance M_bind : MBind M := λ A B f m s,
  match m s with
  | (Ret a, s') => f a s'
  | (Raise e, s') => (Raise e, s')
  | (Blocked, s') => (Blocked, s')
  | (Spin, s') => (Spin, s')
  end.

Definition raise {A} (e : exn) : M A := λ s, (Raise e, s).
Definition block {A} : M A := λ s, (Blocked, s).
Definition spin {A} : M A := λ s, (Spin, s).
Definition gets {A} (f : State → A) : M A := λ s, (Ret (f s), s).
Definition modify (f : State → State) : M unit := λ s, (Ret tt, f s).

(** [try: body finally: cleanup], as the [with] statement needs it. A
    body that never returns never reaches the cleanup. *)
Definition finally {A} (body : M A) (cleanup : M unit) : M A := λ s,
  match body s with
  | (Ret a, s') => (cleanup ;; mret a) s'
  | (Raise e, s') => (cleanup ;; raise e) s'
  | (Blocked, s') => (Blocked, s')
  | (Spin, s') => (Spin, s')
  end.

(** ** The operating system *)

Definition kp_append (data : bytes) (kp : kpipe) : kpipe :=
  mkPipe (content kp ++ data) (readers kp) (writers kp).
Definition kp_consume (k : nat) (kp : kpipe) : kpipe :=
  mkPipe (drop k (content kp)) (readers kp) (writers kp).
Definition kp_open (d : fd_flag) (kp : kpipe) : kpipe :=
  match d with
  | O_RDONLY => mkPipe (content kp) (S (readers kp)) (writers kp)
  | O_WRONLY => mkPipe (content kp) (readers kp) (S (writers kp))
  end.
Definition kp_close (d : fd_flag) (kp : kpipe) : kpipe :=
  match d with
  | O_RDONLY => mkPipe (content kp) (pred (readers kp)) (writers kp)
  | O_WRONLY => mkPipe (content kp) (readers kp) (pred (writers kp))
  end.

(** The number of bytes the next transfer moves, out of [limit]
    possible ones: at least one when one is possible, and as the
    oracle says otherwise; everything when the oracle is silent. *)
Definition chunk_len (sc : list nat) (limit : nat) : nat :=
  match sc with
  | [] => limit
  | c :: _ => Nat.min limit (Nat.max 1 c)
  end.

(** [gevent.os.nb_read(fd, n)]: [os.read] retried while the pipe is not
    readable. On an empty pipe it returns the empty string once no
    writer is left, and waits as long as there is one. *)
Definition nb_read (fd : option nat) (n : Z) : M bytes := λ s,
  match fd with
  | None => (Raise TypeError, io_call s)
  | Some fd =>
      match fdtab s !! fd with
      | Some (mkFdesc p O_RDONLY) =>
          match kpipes s !! p with
          | Some kp =>
              match content kp with
              | [] => if Nat.eqb (writers kp) 0 then (Ret [], io_call s)
                      else (Blocked, io_call s)
              | _ =>
                  let k := chunk_len (sched s)
                             (Nat.min (Z.to_nat n) (length (content kp))) in
                  (Ret (take k (content kp)),
                   io_call (set_kpipes (insert p (kp_consume k kp)) s))
              end
          | None => (Raise (OSError EBADF), io_call s)
          end
      | _ => (Raise (OSError EBADF), io_call s)
      end
  end.

(** The sizes of a pipe on Linux, as the docstrings of [pipe] and
    [_write] give them: a write of at most [PIPE_BUF] bytes is atomic,
    and a pipe holds at most [PIPE_CAPACITY] bytes. *)
Definition PIPE_BUF : Z := 4096.
Definition PIPE_CAPACITY : Z := 65536.

(** The room left in a pipe. *)
Definition room (kp : kpipe) : Z :=
  (PIPE_CAPACITY - Z.of_nat (length (content kp)))%Z.

(** How many bytes of a non-empty [buf] one [os.write] on the
    non-blocking descriptor takes ([pipe(7)], O_NONBLOCK enabled);
    [None] when it fails with EAGAIN. Up to [PIPE_BUF] bytes are
    written all at once, or not at all when there is no room for all
    of them; of more than [PIPE_BUF] bytes, from one byte to as many
    as there is room for are written, unless the pipe is full. *)
Definition write_size (sc : list nat) (buf : bytes) (kp : kpipe) : option nat :=
  if (Z.of_nat (length buf) <=? PIPE_BUF)%Z then
    if (Z.of_nat (length buf) <=? room kp)%Z then Some (length buf) else None
  else
    if (room kp <=? 0)%Z then None
    else Some (chunk_len sc (Nat.min (length buf) (Z.to_nat (room kp)))).

(** [gevent.os.nb_write(fd, buf)]: [os.write], retried after waiting
    for the pipe to become writable when it fails with EAGAIN;
    returns the number of bytes written. A write of no bytes returns
    0 whatever the state of the pipe; a write to a pipe without
    reader fails with EPIPE. *)
Definition nb_write (fd : option nat) (buf : bytes) : M Z := λ s,
  match fd with
  | None => (Raise TypeError, io_call s)
  | Some fd =>
      match fdtab s !! fd with
      | Some (mkFdesc p O_WRONLY) =>
          match kpipes s !! p with
          | Some kp =>
              match buf with
              | [] => (Ret 0%Z, io_call s)
              | _ =>
                  if Nat.eqb (readers kp) 0
                  then (Raise (OSError EPIPE), io_call s)
                  else
                    match write_size (sched s) buf kp with
                    | Some k =>
                        (Ret (Z.of_nat k),
                         io_call (set_kpipes
                                    (insert p (kp_append (take k buf) kp)) s))
                    | None => (Blocked, io_call s)
                    end
              end
          | None => (Raise (OSError EBADF), io_call s)
          end
      | _ => (Raise (OSError EBADF), io_call s)
      end
  end.

Definition _READ_NB := nb_read.
Definition _WRITE_NB := nb_write.

(** [os.close(fd)] *)
Definition os_close (fd : nat) : M unit := λ s,
  match fdtab s !! fd with
  | Some d =>
      (Ret tt,
       set_kpipes (alter (kp_close (fd_end d)) (fd_pipe d))
         (set_fdtab (delete fd) s))
  | None => (Raise (OSError EBADF), s)
  end.

(** [os.pipe()]: a new pipe and two unused descriptors, read end
    first. *)
Definition os_pipe : M (nat * nat) := λ s,
  let r := fresh (dom (fdtab s)) in
  let w := fresh ({[r]} ∪ dom (fdtab s)) in
  let p := fresh (dom (kpipes s)) in
  (Ret (r, w),
   set_kpipes (insert p (mkPipe [] 1 1))
     (set_fdtab (λ t, <[w := mkFdesc p O_WRONLY]> (<[r := mkFdesc p O_RDONLY]> t)) s)).

(** What [multiprocessing.Process.start()] leaves behind in the parent:
    the child holds a copy of every open descriptor. *)
Definition os_fork : M unit :=
  modify (λ s,
    set_kpipes (λ kps,
      map_fold (λ _ d acc, alter (kp_open (fd_end d)) (fd_pipe d) acc)
        kps (fdtab s)) s).

(** ** [pickle] *)

(** The serialisation used by [put] and [get]: [loads] may raise, and
    gives back what [dumps] was applied to. *)
Class Pickle (Obj : Type) := {
  dumps : Obj → bytes;
  loads : bytes → exn + Obj;
  loads_dumps : ∀ o, loads (dumps o) = inr o }.

(** What [pickle.loads] raises when its input ends before the pickle
    does, on the empty string in particular. *)
Definition PickleEOFError : exn := EOFError EmptyString.

(** A pickle for byte strings, for the examples. Like the pickles of
    Python it ends with the opcode STOP (a full stop), so that no
    object is pickled to the empty string, and [loads] raises
    EOFError on a string that does not end with it. *)
#[global] Program Instance bytes_pickle : Pickle bytes :=
  {| dumps := λ b, b ++ [x2e];
     loads := λ p, match last p with
                   | Some b => if Byte.eqb b x2e then inr (removelast p)
                               else inl PickleEOFError
                   | None => inl PickleEOFError
                   end |}.
Next Obligation.
  intros o. cbn. rewrite last_snoc. cbn. by rewrite removelast_last.
Qed.

Definition sum_result {A} (r : exn + A) : result A :=
  match r with inl e => Raise e | inr a => Ret a end.

Definition of_sum {A} (r : exn + A) : M A := λ s, (sum_result r, s).

Definition of_option {A} (e : exn) (o : option A) : M A :=
  match o with Some a => mret a | None => raise e end.

(** ** Handles *)

Definition get_handle (h : nat) : M _GPipeHandle := λ s,
  match heap s !! h with
  | Some hd => (Ret hd, s)
  | None => (Raise AttributeError, s)
  end.

Definition set__fd (fd : option nat) (hd : _GPipeHandle) : _GPipeHandle :=
  mkHandle fd (_fd_flag hd) (_legit_pid hd) (_lock hd) (_closed hd).
Definition set__lock (n : nat) (hd : _GPipeHandle) : _GPipeHandle :=
  mkHandle (_fd hd) (_fd_flag hd) (_legit_pid hd) n (_closed hd).
Definition set__closed (b : bool) (hd : _GPipeHandle) : _GPipeHandle :=
  mkHandle (_fd hd) (_fd_flag hd) (_legit_pid hd) (_lock hd) b.

Definition modify_handle (h : nat) (f : _GPipeHandle → _GPipeHandle) : M unit :=
  hd ← get_handle h;
  modify (set_heap (insert h (f hd))).

(** [self._lock.acquire(blocking=False)] *)
Definition try_acquire (h : nat) : M bool :=
  hd ← get_handle h;
  match _lock hd with
  | O => mret false
  | S n => modify_handle h (set__lock n) ;; mret true
  end.

(** [self._lock.acquire()] *)
Definition acquire (h : nat) : M unit :=
  ok ← try_acquire h;
  if ok : bool then mret tt else block.

(** [self._lock.release()] *)
Definition release (h : nat) : M unit :=
  modify_handle h (λ hd, set__lock (S (_lock hd)) hd).

(** [with self._lock: body] *)
Definition with_lock {A} (h : nat) (body : M A) : M A :=
  acquire h ;; finally body (release h).

(** [_GPipeReader(fd)] / [_GPipeWriter(fd)]: a new object. *)
Definition new_handle (fd : nat) (flag : fd_flag) : M nat := λ s,
  let h := fresh (dom (heap s)) in
  (Ret h, set_heap (insert h (mkHandle (Some fd) flag (getpid s) 1 false)) s).

Definition pipe : M (nat * nat) :=
  '(r, w) ← os_pipe;
  reader ← new_handle r O_RDONLY;
  writer ← new_handle w O_WRONLY;
  modify (λ s, set_all_handles (_all_handles s ++ [reader]) s) ;;
  modify (λ s, set_all_handles (_all_handles s ++ [writer]) s) ;;
  mret (reader, writer).

Definition _validate_process (h : nat) : M unit :=
  hd ← get_handle h;
  if _closed hd then raise HandleClosedError
  else
    pid ← gets getpid;
    if bool_decide (pid ≠ _legit_pid hd) then raise CrossProcessUseError
    else mret tt.

(** [list.remove]: the first occurrence goes. *)
Fixpoint remove_first (x : nat) (l : list nat) : list nat :=
  match l with
  | [] => []
  | y :: l' => if decide (x = y) then l' else y :: remove_first x l'
  end.

Definition close (h : nat) : M unit :=
  _validate_process h ;;
  ok ← try_acquire h;
  if negb ok then raise HandleLockedError
  else
    modify_handle h (set__closed true) ;;
    hd ← get_handle h;
    match _fd hd with
    | Some fd => os_close fd ;; modify_handle h (set__fd None)
    | None => mret tt
    end ;;
    regs ← gets _all_handles;
    (if bool_decide (h ∈ regs)
     then modify (set_all_handles (remove_first h regs))
     else mret tt) ;;
    release h.

(** ** Reading *)

(** The loop of [_recv_in_buffer]. [remaining] drops by at least one
    per iteration, so [Z.to_nat size] iterations are a budget that is
    never used up (lemma [recv_loop_no_spin]). *)
Fixpoint recv_loop (fuel : nat) (h : nat) (size remaining : Z)
    (readbuf : bytes) : M bytes :=
  if (0 <? remaining)%Z then
    match fuel with
    | O => spin
    | S fuel' =>
        hd ← get_handle h;
        chunk ← _READ_NB (_fd hd) remaining;
        let n := Z.of_nat (length chunk) in
        if (n =? 0)%Z then
          if (remaining =? size)%Z then raise PeerClosedError
          else raise TruncatedMessageError
        else recv_loop fuel' h size (remaining - n) (readbuf ++ chunk)
    end
  else mret readbuf.

Definition _recv_in_buffer (h : nat) (size : Z) : M bytes :=
  recv_loop (Z.to_nat size) h size size [].

(** ** Writing *)

(** The slice [b[i:]]. *)
Definition slice_from (i : Z) (b : bytes) : bytes :=
  if (i <? 0)%Z then drop (Z.to_nat (Z.of_nat (length b) + i)) b
  else drop (Z.to_nat i) b.

(** The loop of [_write]; a write of a non-empty string moves at least
    one byte, so one iteration per byte and one more are enough. *)
Fixpoint write_loop (fuel : nat) (h : nat) (bindata : bytes) : M unit :=
  match fuel with
  | O => spin
  | S fuel' =>
      hd ← get_handle h;
      n ← _WRITE_NB (_fd hd) bindata;
      let diff := (Z.of_nat (length bindata) - n)%Z in
      if (diff =? 0)%Z then mret tt
      else write_loop fuel' h (slice_from (- diff) bindata)
  end.

Definition _write (h : nat) (bindata : bytes) : M unit :=
  write_loop (S (length bindata)) h bindata.

(** ** [get], [put], [start_process] *)

Section GPipe.

Context {Obj : Type} `{Pickle Obj}.

Definition get (h : nat) : M Obj :=
  _validate_process h ;;
  with_lock h (
    hdr ← _recv_in_buffer h 4;
    msize ← of_option StructError (struct.unpack_i hdr);
    bindata ← _recv_in_buffer h msize;
    of_sum (loads bindata)).

Definition put (h : nat) (o : Obj) : M unit :=
  _validate_process h ;;
  with_lock h (
    let bindata := dumps o in
    hdr ← of_option StructError
            (struct.pack_i (Z.of_nat (length bindata)));
    _write h hdr ;;
    _write h bindata).

End GPipe.

(** The first argument of [start_process]: one handle, or a list or
    tuple of handles. *)
Inductive childhandles_arg :=
| Single (h : nat)
| Several (hs : list nat).

Definition as_tuple (a : childhandles_arg) : list nat :=
  match a with
  | Single h => [h]
  | Several hs => hs
  end.

Fixpoint for_each (l : list nat) (body : nat → M unit) : M unit :=
  match l with
  | [] => mret tt
  | x :: l' => body x ;; for_each l' body
  end.

(** [sys.platform == "win32"] *)
Definition WINDOWS : bool := false.

(** The two hooks around the creation of a process: all they do is
    under [if WINDOWS:]. *)
Definition _pre_createprocess_windows (h : nat) : M unit := mret tt.
Definition _post_createprocess_windows (h : nat) : M unit := mret tt.

(** The parent's side of [start_process]: the child is created, then
    every handle given to it is closed here. What the call returns,
    the process object, plays no role below. *)
Definition start_process (childhandles : childhandles_arg) : M unit :=
  let childhandles := as_tuple childhandles in
  (if WINDOWS
   then regs ← gets _all_handles; for_each regs _pre_createprocess_windows
   else mret tt) ;;
  os_fork ;;
  (if WINDOWS
   then regs ← gets _all_handles; for_each regs _post_createprocess_windows
   else mret tt) ;;
  for_each childhandles close.

(** ** The child's side of [start_process] *)

Definition set__legit_pid (pid : Z) (hd : _GPipeHandle) : _GPipeHandle :=
  mkHandle (_fd hd) (_fd_flag hd) pid (_lock hd) (_closed hd).

Definition _set_legit_process (h : nat) : M unit :=
  pid ← gets getpid;
  modify_handle h (set__legit_pid pid).

(** The body of the loop of [_child]. *)
Definition child_loop_body (childhandles : list nat) (h : nat) : M unit :=
  _set_legit_process h ;;
  (if WINDOWS then _post_createprocess_windows h else mret tt) ;;
  if bool_decide (h ∈ childhandles) then mret tt else close h.

(** [_child(target, childhandles, all_handles, kwargs)] on POSIX.
    [_all_handles = all_handles] binds a name local to the function, so
    the loop runs over a copy of the list that was passed;
    re-initialising gevent touches nothing of the state modelled here.
    [target] stands for the user's function together with its keyword
    arguments. *)
Definition _child (target : list nat → M unit)
    (childhandles all_handles : list nat) : M unit :=
  for_each all_handles (child_loop_body childhandles) ;;
  target childhandles.

(** The state the child process starts in: the parent's memory and
    descriptors as they were at the fork, and a pid of its own. *)
Definition forked_child (cpid : Z) (s : State) : State :=
  mkState cpid (heap s) (_all_handles s) (fdtab s) (kpipes (os_fork s).2)
    (sched s) (io_calls s).

(** * The vocabulary of the properties *)

(** ** Frames of the operations *)

(** What an I/O call may change: the kernel pipes, the oracle and the
    call counter. *)
Definition io_only (s s' : State) : Prop :=
  getpid s' = getpid s ∧ heap s' = heap s ∧
  _all_handles s' = _all_handles s ∧ fdtab s' = fdtab s.

(** A step of the module leaves a relation [R] between the state
    before and after, whatever its outcome. *)
Definition preserves {A} (R : State → State → Prop) (m : M A) : Prop :=
  ∀ s, R s (m s).2.

(** What [get] and [put] may change besides what I/O changes: the
    counters of the semaphores. *)
Definition locks_only (s s' : State) : Prop :=
  getpid s' = getpid s ∧ _all_handles s' = _all_handles s
  ∧ fdtab s' = fdtab s
  ∧ ∀ h, set__lock 0 <$> heap s' !! h = set__lock 0 <$> heap s !! h.

(** ** [readExact]: the reading loop as the design document words it *)

(** [readExact h n collected s r s']: with [collected] already read
    for this call, reading on until [n] bytes are there ends in state
    [s'] with result [r]. *)
Inductive readExact (h : nat) (n : Z) :
    bytes → State → result bytes → State → Prop :=
| readExact_done collected s :
    (* [n] bytes are collected: they are returned *)
    Z.of_nat (length collected) = n →
    readExact h n collected s (Ret collected) s
| readExact_eof s hd s1 :
    (* zero bytes on the very first read: the peer has closed *)
    heap s !! h = Some hd →
    _READ_NB (_fd hd) n s = (Ret [], s1) →
    readExact h n [] s (Raise PeerClosedError) s1
| readExact_truncated collected s hd s1 :
    (* zero bytes after some, but fewer than [n], were collected *)
    (0 < Z.of_nat (length collected) < n)%Z →
    heap s !! h = Some hd →
    _READ_NB (_fd hd) (n - Z.of_nat (length collected)) s = (Ret [], s1) →
    readExact h n collected s (Raise TruncatedMessageError) s1
| readExact_more collected s hd chunk s1 r s' :
    (* a read for the remaining count brought some bytes: go on *)
    (Z.of_nat (length collected) < n)%Z →
    heap s !! h = Some hd →
    _READ_NB (_fd hd) (n - Z.of_nat (length collected)) s = (Ret chunk, s1) →
    chunk ≠ [] →
    readExact h n (collected ++ chunk) s1 r s' →
    readExact h n collected s r s'
| readExact_wait collected s hd s1 :
    (* the read itself does not return *)
    (Z.of_nat (length collected) < n)%Z →
    heap s !! h = Some hd →
    _READ_NB (_fd hd) (n - Z.of_nat (length collected)) s = (Blocked, s1) →
    readExact h n collected s Blocked s1
| readExact_error collected s hd e s1 :
    (* the read itself raises *)
    (Z.of_nat (length collected) < n)%Z →
    heap s !! h = Some hd →
    _READ_NB (_fd hd) (n - Z.of_nat (length collected)) s = (Raise e, s1) →
    readExact h n collected s (Raise e) s1
| readExact_no_handle collected s :
    (Z.of_nat (length collected) < n)%Z →
    heap s !! h = None →
    readExact h n collected s (Raise AttributeError) s.

(** ** A pipe and its two handles *)

(** [h] is an open handle of this process, its semaphore free, on the
    [flag] end of pipe [p]. *)
Definition endpoint (h : nat) (flag : fd_flag) (p : nat) (s : State) : Prop :=
  ∃ hd fd, heap s !! h = Some hd ∧ _closed hd = false
         ∧ getpid s = _legit_pid hd ∧ _lock hd = 1
         ∧ _fd hd = Some fd ∧ fdtab s !! fd = Some (mkFdesc p flag).

(** [r] and [w] are the reading and the writing handle of one pipe,
    in which the bytes [pending] wait to be read. *)
Definition pipe_pair (r w : nat) (pending : bytes) (s : State) : Prop :=
  ∃ p kp, endpoint r O_RDONLY p s ∧ endpoint w O_WRONLY p s
        ∧ kpipes s !! p = Some kp ∧ readers kp ≠ 0 ∧ content kp = pending.

(** ** The life cycle of handles *)

(** The state of a handle during the critical section of a [get] or
    [put]: the operation has validated the handle (open, registered
    for this process) and holds its semaphore. *)
Definition io_in_flight (h : nat) (s : State) : Prop :=
  ∃ hd, heap s !! h = Some hd ∧ _closed hd = false
      ∧ getpid s = _legit_pid hd ∧ _lock hd = 0.

(** What holds of the handles of a process that only uses the module's
    operations. *)
Record wf (s : State) : Prop := {
  wf_closed : ∀ h hd, heap s !! h = Some hd → _closed hd = true →
              _fd hd = None ∧ h ∉ _all_handles s;
  wf_open : ∀ h hd, heap s !! h = Some hd → _closed hd = false →
            ∃ fd, _fd hd = Some fd ∧ is_Some (fdtab s !! fd);
  wf_fd_inj : ∀ h1 h2 hd1 hd2 fd,
              heap s !! h1 = Some hd1 → heap s !! h2 = Some hd2 →
              _fd hd1 = Some fd → _fd hd2 = Some fd → h1 = h2;
  wf_nodup : NoDup (_all_handles s);
  wf_registered : ∀ h, h ∈ _all_handles s → is_Some (heap s !! h);
  wf_pid : ∀ h hd, heap s !! h = Some hd → _legit_pid hd = getpid s }.

Definition closed_in (h : nat) (s : State) : Prop :=
  ∃ hd, heap s !! h = Some hd ∧ _closed hd = true.

(** The state a successful [close] of [h] leaves: the handle is marked
    closed and has lost its descriptor, the descriptor [fd] is gone
    from the table and from the pipe's count, the handle is gone from
    [_all_handles]; the semaphore is free again. *)
Definition closed_state (h : nat) (hd : _GPipeHandle) (fd : nat) (d : fdesc)
    (s : State) : State :=
  mkState (getpid s)
    (<[h := mkHandle None (_fd_flag hd) (_legit_pid hd) (_lock hd) true]>
       (heap s))
    (remove_first h (_all_handles s))
    (delete fd (fdtab s))
    (alter (kp_close (fd_end d)) (fd_pipe d) (kpipes s))
    (sched s) (io_calls s).

(** ** The states a process can be in *)

Section Operations.

Context {Obj : Type} `{Pickle Obj}.

(** The operations the module offers. *)
Inductive op :=
| Pipe
| Get (h : nat)
| Put (h : nat) (o : Obj)
| Close (h : nat)
| StartProcess (childhandles : childhandles_arg).

(** The state an operation leaves, whether it returns, raises or
    waits. *)
Definition exec (c : op) (s : State) : State :=
  match c with
  | Pipe => (pipe s).2
  | Get h => (get (Obj := Obj) h s).2
  | Put h o => (put h o s).2
  | Close h => (close h s).2
  | StartProcess a => (start_process a s).2
  end.

(** A process starts without handles; its descriptors and the pipes
    behind them are arbitrary. *)
Inductive reachable : State → Prop :=
| reachable_start s :
    heap s = ∅ → _all_handles s = [] → reachable s
| reachable_step c s :
    reachable s → reachable (exec c s).

End Operations.

Arguments op : clear implicits.

(** ** Ends of operations *)

(** An operation has come to an end: it has returned or raised. *)
Definition exited {A} (r : result A) : Prop :=
  match r with
  | Ret _ | Raise _ => True
  | Blocked | Spin => False
  end.

(** ** What a child inherits *)

(** The handles [l] as a child process [cpid] finds them when it
    starts: open, their semaphores free, their descriptors open, no
    descriptor shared between two handles. *)
Definition inherited (cpid : Z) (l : list nat) (s : State) : Prop :=
  getpid s = cpid ∧ NoDup l ∧ NoDup (_all_handles s)
  ∧ (∀ h, h ∈ l →
       ∃ hd fd d, heap s !! h = Some hd ∧ _closed hd = false
                ∧ _lock hd ≠ 0 ∧ _fd hd = Some fd ∧ fdtab s !! fd = Some d)
  ∧ (∀ h1 h2 hd1 hd2 fd,
       heap s !! h1 = Some hd1 → heap s !! h2 = Some hd2 →
       _fd hd1 = Some fd → _fd hd2 = Some fd → h1 = h2).

(** ** Messages in a pipe *)

Section Wire.

Context {Obj : Type} `{Pickle Obj}.






(** The handle an operation is applied to, or hands over. *)
Definition concerns (c : op Obj) (h : nat) : Prop :=
  match c with
  | Pipe => False
  | Get h' | Put h' _ | Close h' => h' = h
  | StartProcess a => h ∈ as_tuple a
  end.

End Wire.

(** ** The registry and the semaphores *)

(** [_all_handles] lists every open handle, and no semaphore counts
    more than one. *)
Definition tidy (s : State) : Prop :=
  ∀ h hd, heap s !! h = Some hd →
    _lock hd ≤ 1 ∧ (_closed hd = false → h ∈ _all_handles s).

(** ** Two processes *)

(** The kernel pipes belong to no process: a process that runs after
    its peer has run finds them as the peer left them, and everything
    else as it was itself. *)
Definition after_peer (peer s : State) : State :=
  set_kpipes (λ _, kpipes peer) s.

(** ** Concrete states *)

Module Examples.

(** A process that has not created a pipe yet. The oracle cuts the
    next transfers into pieces of 1, 2, 1, 3, ... bytes. *)
Definition s_init : State := mkState 100 ∅ [] ∅ ∅ [1; 2; 1; 3; 1; 1; 2] 0.

(** After one [pipe()]: reader 0, writer 1. *)
Definition s_pair : State := (pipe s_init).2.

(** After a second [pipe()]: reader 2, writer 3. *)
Definition s_two_pipes : State := (pipe s_pair).2.

(** [s_pair] with a [get] on the reader suspended: the pipe is empty
    and its writer is open. *)
Definition s_get_suspended : State := (get (Obj := bytes) 0 s_pair).2.

(** [s_pair] after [close()] on the writer. *)
Definition s_writer_closed : State := (close 1 s_pair).2.

(** [s_two_pipes] after [start_process((reader 0, writer 3), ...)]. *)
Definition s_handed_off : State :=
  (start_process (Several [0; 3]) s_two_pipes).2.

Definition hello : bytes := [x68; x65; x6c; x6c; x6f].

(** What [put] writes for [hello]: the length of the pickle, then the
    pickle. *)
Definition frame_hello : bytes := [x00; x00; x00; x06] ++ hello ++ [x2e].


(** A payload of 5000 bytes: more than is written atomically. *)
Definition long_payload : bytes := replicate (Z.to_nat 5000) x00.

(** A payload of 70000 bytes: more than a pipe holds. *)
Definition bulky_payload : bytes := replicate (Z.to_nat 70000) x00.

(** The pipe of [s_pair] holding the bytes [c], with [wr] descriptors
    open on its writing end. *)
Definition s_holding (c : bytes) (wr : nat) : State :=
  set_kpipes (λ _, {[0 := mkPipe c 1 wr]}) s_pair.

(** Reader 0 took its semaphore in the parent (a [get] in flight) and
    the process was then forked behind the module's back: in the
    child, pid 200, the handle is still registered for pid 100 and its
    semaphore is still taken. *)
Definition s_forked : State :=
  mkState 200
    {[0 := mkHandle (Some 0) O_RDONLY 100 0 false;
      1 := mkHandle (Some 1) O_WRONLY 100 1 false]}
    [0; 1]
    {[0 := mkFdesc 0 O_RDONLY; 1 := mkFdesc 0 O_WRONLY]}
    {[0 := mkPipe [] 2 2]} [] 0.

(** Writer 1 has been closed and a test then changed the pid the
    handle is registered for. *)
Definition s_closed_foreign : State :=
  mkState 100
    {[0 := mkHandle (Some 0) O_RDONLY 100 1 false;
      1 := mkHandle None O_WRONLY 300 1 true]}
    [0]
    {[0 := mkFdesc 0 O_RDONLY]}
    {[0 := mkPipe [] 1 0]} [] 0.

(** [s_pair] after the descriptor of writer 1 was closed with
    [os.close] directly, behind the handle's back. *)
Definition s_fd_lost : State := set_fdtab (delete 1) s_pair.

(** A [target] that returns at once. *)
Definition idle : list nat → M unit := λ _, mret tt.

End Examples.

(** * Properties *)

(** ** The length prefix *)

Module struct_facts.

Import struct.
Local Open Scope Z_scope.


Lemma Z_of_byte_of_Z z : Z_of_byte (byte_of_Z z) = z mod 256.
Proof.
  unfold Z_of_byte, byte_of_Z.
  assert (Hr : 0 ≤ z mod 256 < 256) by (apply Z.mod_pos_bound; lia).
  destruct (Byte.of_N (Z.to_N (z mod 256))) as [b|] eqn:E.
  - apply Byte.to_of_N in E. simpl. rewrite E. lia.
  - apply Byte.of_N_None_iff in E. lia.
Qed.


Lemma be32_pack n :
  be32 (byte_of_Z (n / 2 ^ 24)) (byte_of_Z (n / 2 ^ 16))
       (byte_of_Z (n / 2 ^ 8)) (byte_of_Z n) = n mod 2 ^ 32.
Proof.
  unfold be32. rewrite !Z_of_byte_of_Z.
  change (2 ^ 24) with 16777216. change (2 ^ 16) with 65536.
  change (2 ^ 8) with 256. change (2 ^ 32) with 4294967296.
  Z.to_euclidean_division_equations. lia.
Qed.

Lemma unpack_pack n bs : pack_i n = Some bs → unpack_i bs = Some n ∧ length bs = 4%nat.
Proof.
  unfold pack_i. case_match eqn:E; [|done]. intros [= <-].
  apply andb_true_iff in E as [E1 E2]. apply Z.leb_le in E1. apply Z.ltb_lt in E2.
  split; [|done]. unfold unpack_i, signed32. rewrite be32_pack. f_equal.
  change (2 ^ 31) with 2147483648 in *. change (2 ^ 32) with 4294967296.
  case_match eqn:E3.
  - apply Z.leb_le in E3. Z.to_euclidean_division_equations. lia.
  - apply Z.leb_gt in E3. Z.to_euclidean_division_equations. lia.
Qed.

Lemma pack_i_is_Some n : - 2 ^ 31 ≤ n < 2 ^ 31 → is_Some (pack_i n).
Proof.
  intros [H1 H2]. unfold pack_i.
  rewrite (proj2 (Z.leb_le _ _) H1), (proj2 (Z.ltb_lt _ _) H2). by eexists.
Qed.

End struct_facts.

(** ** Running the monad *)

Lemma bind_run {A B} (m : M A) (f : A → M B) (s : State) :
  (m ≫= f) s =
  match m s with
  | (Ret a, s') => f a s'
  | (Raise e, s') => (Raise e, s')
  | (Blocked, s') => (Blocked, s')
  | (Spin, s') => (Spin, s')
  end.
Proof. reflexivity. Qed.

Lemma bind_ret {A B} (m : M A) (f : A → M B) s a s' :
  m s = (Ret a, s') → (m ≫= f) s = f a s'.
Proof. intros E. rewrite bind_run, E. reflexivity. Qed.

Lemma bind_raise {A B} (m : M A) (f : A → M B) s e s' :
  m s = (Raise e, s') → (m ≫= f) s = (Raise e, s').
Proof. intros E. rewrite bind_run, E. reflexivity. Qed.

Lemma bind_blocked {A B} (m : M A) (f : A → M B) s s' :
  m s = (Blocked, s') → (m ≫= f) s = (Blocked, s').
Proof. intros E. rewrite bind_run, E. reflexivity. Qed.

Lemma get_handle_run h s hd :
  heap s !! h = Some hd → get_handle h s = (Ret hd, s).
Proof. intros E. unfold get_handle. rewrite E. reflexivity. Qed.

(** ** [_validate_process] *)

Lemma validate_closed h s hd :
  heap s !! h = Some hd → _closed hd = true →
  _validate_process h s = (Raise HandleClosedError, s).
Proof.
  intros Hh Hc. unfold _validate_process.
  rewrite (bind_ret _ _ _ _ _ (get_handle_run _ _ _ Hh)), Hc. reflexivity.
Qed.

Lemma validate_foreign h s hd :
  heap s !! h = Some hd → _closed hd = false → getpid s ≠ _legit_pid hd →
  _validate_process h s = (Raise CrossProcessUseError, s).
Proof.
  intros Hh Hc Hp. unfold _validate_process.
  rewrite (bind_ret _ _ _ _ _ (get_handle_run _ _ _ Hh)), Hc.
  rewrite bind_run. cbn. rewrite bool_decide_eq_true_2 by done. reflexivity.
Qed.

Lemma validate_ok h s hd :
  heap s !! h = Some hd → _closed hd = false → getpid s = _legit_pid hd →
  _validate_process h s = (Ret tt, s).
Proof.
  intros Hh Hc Hp. unfold _validate_process.
  rewrite (bind_ret _ _ _ _ _ (get_handle_run _ _ _ Hh)), Hc.
  rewrite bind_run. cbn. rewrite bool_decide_eq_false_2 by (intros ?; done).
  reflexivity.
Qed.

(** Whatever the outcome, validation leaves the state alone. *)
Lemma validate_state h s : (_validate_process h s).2 = s.
Proof.
  unfold _validate_process. rewrite bind_run. unfold get_handle.
  destruct (heap s !! h) as [hd|]; [|done].
  destruct (_closed hd); [done|]. rewrite bind_run. cbn.
  case_bool_decide; done.
Qed.

(** The three operations on a handle start with the validation: when
    it raises, so does the operation, in the same state. *)
Section Validation_first.

Context {Obj : Type} `{Pickle Obj}.

Lemma get_invalid h s e :
  _validate_process h s = (Raise e, s) → get h s = (Raise e, s).
Proof. intros E. unfold get. by rewrite (bind_raise _ _ _ _ _ E). Qed.

Lemma put_invalid h o s e :
  _validate_process h s = (Raise e, s) → put h o s = (Raise e, s).
Proof. intros E. unfold put. by rewrite (bind_raise _ _ _ _ _ E). Qed.

Lemma close_invalid h s e :
  _validate_process h s = (Raise e, s) → close h s = (Raise e, s).
Proof. intros E. unfold close. by rewrite (bind_raise _ _ _ _ _ E). Qed.

End Validation_first.

(** ** The I/O primitives *)

Lemma io_only_refl s : io_only s s.
Proof. done. Qed.

Lemma io_only_trans s1 s2 s3 : io_only s1 s2 → io_only s2 s3 → io_only s1 s3.
Proof. unfold io_only. intros (?&?&?&?) (?&?&?&?). repeat split; congruence. Qed.

Lemma nb_read_io_only fd n s : io_only s (nb_read fd n s).2.
Proof. unfold nb_read. repeat case_match; done. Qed.

Lemma nb_write_io_only fd b s : io_only s (nb_write fd b s).2.
Proof. unfold nb_write. repeat case_match; done. Qed.

Lemma chunk_len_le sc limit : chunk_len sc limit ≤ limit.
Proof. unfold chunk_len. destruct sc; lia. Qed.

Lemma chunk_len_pos sc limit : 0 < limit → 0 < chunk_len sc limit.
Proof. unfold chunk_len. destruct sc; lia. Qed.

(** [os.read(fd, n)] returns at most [n] bytes. *)
Lemma nb_read_length fd n s chunk s' :
  nb_read fd n s = (Ret chunk, s') → length chunk ≤ Z.to_nat n.
Proof.
  unfold nb_read. intros E. repeat case_match; simplify_eq; simpl; try lia.
  match goal with |- context [chunk_len ?sc ?l] =>
    pose proof (chunk_len_le sc l) end.
  rewrite length_take. simpl in *. lia.
Qed.

Lemma nb_read_data fd p kp n s :
  fdtab s !! fd = Some (mkFdesc p O_RDONLY) → kpipes s !! p = Some kp →
  content kp ≠ [] →
  nb_read (Some fd) n s =
    let k := chunk_len (sched s) (Nat.min (Z.to_nat n) (length (content kp))) in
    (Ret (take k (content kp)),
     io_call (set_kpipes (insert p (kp_consume k kp)) s)).
Proof.
  intros Hfd Hp Hc. unfold nb_read. rewrite Hfd, Hp.
  destruct (content kp); done.
Qed.

Lemma nb_read_eof fd p kp n s :
  fdtab s !! fd = Some (mkFdesc p O_RDONLY) → kpipes s !! p = Some kp →
  content kp = [] → writers kp = 0 →
  nb_read (Some fd) n s = (Ret [], io_call s).
Proof.
  intros Hfd Hp Hc Hw. unfold nb_read. by rewrite Hfd, Hp, Hc, Hw.
Qed.

Lemma nb_read_wait fd p kp n s :
  fdtab s !! fd = Some (mkFdesc p O_RDONLY) → kpipes s !! p = Some kp →
  content kp = [] → writers kp ≠ 0 →
  nb_read (Some fd) n s = (Blocked, io_call s).
Proof.
  intros Hfd Hp Hc Hw. unfold nb_read. rewrite Hfd, Hp, Hc.
  by destruct (writers kp).
Qed.

Lemma write_size_Some sc buf kp k :
  write_size sc buf kp = Some k → buf ≠ [] →
  0 < k ≤ length buf ∧ (Z.of_nat k ≤ room kp)%Z.
Proof.
  intros E Hne.
  assert (0 < length buf) by (destruct buf; [done|simpl; lia]).
  unfold write_size in E. case_match eqn:E1.
  - case_match eqn:E2; [|done]. injection E as <-.
    apply Z.leb_le in E2. lia.
  - case_match eqn:E2; [done|]. injection E as <-. apply Z.leb_gt in E2.
    pose proof (chunk_len_le sc (length buf `min` Z.to_nat (room kp))).
    pose proof (chunk_len_pos sc (length buf `min` Z.to_nat (room kp))).
    lia.
Qed.

Lemma write_size_None sc buf kp :
  write_size sc buf kp = None → buf ≠ [] →
  (room kp < Z.of_nat (length buf))%Z.
Proof.
  intros E Hne.
  assert (0 < length buf) by (destruct buf; [done|simpl; lia]).
  unfold write_size in E. case_match eqn:E1.
  - case_match eqn:E2; [done|]. by apply Z.leb_gt in E2.
  - case_match eqn:E2; [|done]. apply Z.leb_le in E2. lia.
Qed.

Lemma write_size_room sc buf kp :
  buf ≠ [] → (Z.of_nat (length buf) ≤ room kp)%Z →
  is_Some (write_size sc buf kp).
Proof.
  intros Hne Hroom. destruct (write_size sc buf kp) eqn:E; [by eexists|].
  pose proof (write_size_None _ _ _ E Hne). lia.
Qed.

Lemma nb_write_nil fd p kp s :
  fdtab s !! fd = Some (mkFdesc p O_WRONLY) → kpipes s !! p = Some kp →
  nb_write (Some fd) [] s = (Ret 0%Z, io_call s).
Proof. intros Hfd Hp. unfold nb_write. by rewrite Hfd, Hp. Qed.

Lemma nb_write_data fd p kp buf s k :
  fdtab s !! fd = Some (mkFdesc p O_WRONLY) → kpipes s !! p = Some kp →
  readers kp ≠ 0 → buf ≠ [] → write_size (sched s) buf kp = Some k →
  nb_write (Some fd) buf s =
    (Ret (Z.of_nat k),
     io_call (set_kpipes (insert p (kp_append (take k buf) kp)) s)).
Proof.
  intros Hfd Hp Hr Hne Hk. unfold nb_write. rewrite Hfd, Hp, Hk.
  destruct buf; [done|]. by destruct (readers kp).
Qed.

Lemma nb_write_full fd p kp buf s :
  fdtab s !! fd = Some (mkFdesc p O_WRONLY) → kpipes s !! p = Some kp →
  readers kp ≠ 0 → buf ≠ [] → write_size (sched s) buf kp = None →
  nb_write (Some fd) buf s = (Blocked, io_call s).
Proof.
  intros Hfd Hp Hr Hne Hk. unfold nb_write. rewrite Hfd, Hp, Hk.
  destruct buf; [done|]. by destruct (readers kp).
Qed.

Lemma nb_write_epipe fd p kp buf s :
  fdtab s !! fd = Some (mkFdesc p O_WRONLY) → kpipes s !! p = Some kp →
  readers kp = 0 → buf ≠ [] →
  nb_write (Some fd) buf s = (Raise (OSError EPIPE), io_call s).
Proof.
  intros Hfd Hp Hr Hne. unfold nb_write. rewrite Hfd, Hp, Hr.
  by destruct buf.
Qed.

(** What a write that returns has written: nothing of an empty
    string, at least one byte of any other. *)
Lemma nb_write_ret fd buf s n s1 :
  nb_write fd buf s = (Ret n, s1) →
  ∃ k, n = Z.of_nat k ∧ k ≤ length buf ∧ (buf ≠ [] → 0 < k).
Proof.
  unfold nb_write. intros E.
  destruct fd as [fd|]; [|done].
  destruct (fdtab s !! fd) as [[p []]|]; try done.
  destruct (kpipes s !! p) as [kp|]; [|done].
  destruct buf as [|b buf].
  { injection E as <- _. exists 0. split_and!; [done|simpl; lia|done]. }
  destruct (readers kp =? 0); [done|].
  destruct (write_size (sched s) (b :: buf) kp) as [k|] eqn:Hk; [|done].
  injection E as <- _. exists k.
  destruct (write_size_Some _ _ _ _ Hk) as [[? ?] _]; [done|].
  split_and!; [done|lia|done].
Qed.

(** ** The loops *)

Lemma recv_loop_io_only fuel h size remaining readbuf s :
  io_only s (recv_loop fuel h size remaining readbuf s).2.
Proof.
  revert remaining readbuf s.
  induction fuel as [|fuel IH]; intros remaining readbuf s; simpl.
  - case_match; done.
  - case_match; [|done]. rewrite bind_run. unfold get_handle.
    destruct (heap s !! h) as [hd|]; [|done].
    rewrite bind_run. unfold _READ_NB.
    pose proof (nb_read_io_only (_fd hd) remaining s) as Hio.
    destruct (nb_read (_fd hd) remaining s) as [[chunk| | |] s1]; try done.
    simpl in Hio. repeat case_match; try done.
    eapply io_only_trans; [exact Hio|apply IH].
Qed.

Lemma write_loop_io_only fuel h bindata s :
  io_only s (write_loop fuel h bindata s).2.
Proof.
  revert bindata s.
  induction fuel as [|fuel IH]; intros bindata s; simpl; [done|].
  rewrite bind_run. unfold get_handle.
  destruct (heap s !! h) as [hd|]; [|done].
  rewrite bind_run. unfold _WRITE_NB.
  pose proof (nb_write_io_only (_fd hd) bindata s) as Hio.
  destruct (nb_write (_fd hd) bindata s) as [[n| | |] s1]; try done.
  simpl in Hio. case_match; [done|].
  eapply io_only_trans; [exact Hio|apply IH].
Qed.

Lemma nb_read_no_spin fd n s : (nb_read fd n s).1 ≠ Spin.
Proof. unfold nb_read. repeat case_match; done. Qed.

Lemma nb_write_no_spin fd b s : (nb_write fd b s).1 ≠ Spin.
Proof. unfold nb_write. repeat case_match; done. Qed.

(** The iteration budget of [_recv_in_buffer] is never used up. *)
Lemma recv_loop_no_spin fuel h size remaining readbuf s :
  Z.to_nat remaining ≤ fuel →
  (recv_loop fuel h size remaining readbuf s).1 ≠ Spin.
Proof.
  revert remaining readbuf s.
  induction fuel as [|fuel IH]; intros remaining readbuf s Hf; simpl.
  - case_match eqn:E; [|done]. apply Z.ltb_lt in E. lia.
  - case_match eqn:E; [|done]. apply Z.ltb_lt in E.
    rewrite bind_run. unfold get_handle.
    destruct (heap s !! h) as [hd|]; [|done].
    rewrite bind_run. unfold _READ_NB.
    pose proof (nb_read_no_spin (_fd hd) remaining s) as Hns.
    destruct (nb_read (_fd hd) remaining s) as [[chunk| | |] s1] eqn:Er;
      try done.
    case_match eqn:E0; [by case_match|].
    apply Z.eqb_neq in E0. apply IH. lia.
Qed.

(** ** The loop of [_recv_in_buffer] against [readExact] *)

Lemma recv_loop_readExact fuel h size remaining readbuf s :
  remaining = (size - Z.of_nat (length readbuf))%Z →
  (0 ≤ remaining)%Z →
  Z.to_nat remaining ≤ fuel →
  readExact h size readbuf s
    (recv_loop fuel h size remaining readbuf s).1
    (recv_loop fuel h size remaining readbuf s).2.
Proof.
  revert remaining readbuf s.
  induction fuel as [|fuel IH]; intros remaining readbuf s Hrem Hpos Hf; simpl.
  - case_match eqn:E; [apply Z.ltb_lt in E; lia|].
    apply Z.ltb_ge in E. apply readExact_done. lia.
  - case_match eqn:E; cycle 1.
    { apply Z.ltb_ge in E. apply readExact_done. lia. }
    apply Z.ltb_lt in E. rewrite bind_run. unfold get_handle.
    destruct (heap s !! h) as [hd|] eqn:Hh; cycle 1.
    { apply readExact_no_handle; [lia|done]. }
    rewrite bind_run.
    pose proof (nb_read_no_spin (_fd hd) remaining s) as Hns.
    fold _READ_NB in Hns.
    destruct (_READ_NB (_fd hd) remaining s) as [[chunk|e| |] s1] eqn:Er;
      [| | |done].
    + case_match eqn:E0.
      * apply Z.eqb_eq in E0. destruct chunk; [|done].
        case_match eqn:E1.
        -- apply Z.eqb_eq in E1. destruct readbuf; [|simpl in *; lia].
           eapply readExact_eof; [done|]. simpl in *.
           by replace size with remaining by lia.
        -- apply Z.eqb_neq in E1.
           eapply readExact_truncated; [lia|done|]. by subst.
      * apply Z.eqb_neq in E0.
        pose proof (nb_read_length _ _ _ _ _ Er) as Hlen.
        eapply readExact_more; [lia|done|by subst| |].
        { intros ->. done. }
        apply IH; [rewrite length_app; lia|lia|lia].
    + eapply readExact_error; [lia|done|by subst].
    + eapply readExact_wait; [lia|done|by subst].
Qed.
Lemma readExact_ret_length h n collected s buf s' :
  readExact h n collected s (Ret buf) s' → Z.of_nat (length buf) = n.
Proof.
  intros Hr. remember (Ret buf) as r eqn:Er.
  induction Hr; simplify_eq; auto.
Qed.

(** ** The loops on a pipe *)

(** On a pipe that holds enough bytes the loop returns them, however
    the reads are cut into chunks. *)
Lemma recv_loop_takes fuel h hd fd p size remaining readbuf s kp :
  heap s !! h = Some hd → _fd hd = Some fd →
  fdtab s !! fd = Some (mkFdesc p O_RDONLY) →
  kpipes s !! p = Some kp →
  Z.to_nat remaining ≤ fuel →
  Z.to_nat remaining ≤ length (content kp) →
  ∃ s', recv_loop fuel h size remaining readbuf s
        = (Ret (readbuf ++ take (Z.to_nat remaining) (content kp)), s')
      ∧ io_only s s'
      ∧ kpipes s' = <[p := kp_consume (Z.to_nat remaining) kp]> (kpipes s).
Proof.
  intros Hh Hfd. revert remaining readbuf s kp Hh.
  induction fuel as [|fuel IH];
    intros remaining readbuf s kp Hh Hd Hp Hf Hc; simpl.
  - case_match eqn:E; [apply Z.ltb_lt in E; lia|].
    replace (Z.to_nat remaining) with 0 by lia.
    exists s. rewrite take_0, app_nil_r. split_and!; [done..|].
    symmetry. apply insert_id. rewrite Hp. by destruct kp.
  - case_match eqn:E; cycle 1.
    { apply Z.ltb_ge in E. replace (Z.to_nat remaining) with 0 by lia.
      exists s. rewrite take_0, app_nil_r. split_and!; [done..|].
      symmetry. apply insert_id. rewrite Hp. by destruct kp. }
    apply Z.ltb_lt in E.
    rewrite (bind_ret _ _ _ _ _ (get_handle_run _ _ _ Hh)), Hfd.
    assert (Hne : content kp ≠ []) by (intros Hn; rewrite Hn in Hc; simpl in Hc; lia).
    unfold _READ_NB. rewrite bind_run, (nb_read_data _ _ _ _ _ Hd Hp Hne).
    cbv zeta.
    set (k := chunk_len (sched s) (Z.to_nat remaining `min` length (content kp))).
    cbv beta iota.
    assert (Hk1 : 0 < k) by (apply chunk_len_pos; lia).
    assert (Hk2 : k ≤ Z.to_nat remaining `min` length (content kp))
      by apply chunk_len_le.
    rewrite length_take, Nat.min_l by lia.
    case_match eqn:E0; [apply Z.eqb_eq in E0; lia|].
    destruct (IH (remaining - Z.of_nat k)%Z (readbuf ++ take k (content kp))
                (io_call (set_kpipes (insert p (kp_consume k kp)) s))
                (kp_consume k kp)) as (s' & Hrun & Hio & Hkp).
    + done.
    + done.
    + simpl. by rewrite lookup_insert_eq.
    + lia.
    + simpl. rewrite length_drop. lia.
    + exists s'. rewrite Hrun. split_and!.
      * do 2 f_equal. rewrite <- app_assoc. f_equal. simpl.
        rewrite take_take_drop. f_equal. lia.
      * eapply io_only_trans; [|exact Hio]. done.
      * rewrite Hkp. simpl. rewrite insert_insert_eq. f_equal.
        unfold kp_consume. simpl. f_equal. rewrite drop_drop. f_equal. lia.
Qed.

(** The slice that [_write] retries with is what the write left
    over. *)
Lemma slice_from_rest (b : bytes) (k : nat) :
  k < length b →
  slice_from (- (Z.of_nat (length b) - Z.of_nat k)) b = drop k b.
Proof.
  intros Hk. unfold slice_from.
  case_match eqn:E; [|apply Z.ltb_ge in E; lia].
  f_equal. lia.
Qed.

(** [_write] puts all of [bindata] into the pipe, in order, however
    the writes are cut into chunks. *)
Lemma kp_append_nil kp : kp_append [] kp = kp.
Proof. destruct kp. unfold kp_append. simpl. by rewrite app_nil_r. Qed.

Lemma room_kp_append data kp :
  room (kp_append data kp) = (room kp - Z.of_nat (length data))%Z.
Proof. unfold room. simpl. rewrite length_app. lia. Qed.

Lemma write_loop_appends fuel h hd fd p bindata s kp :
  heap s !! h = Some hd → _fd hd = Some fd →
  fdtab s !! fd = Some (mkFdesc p O_WRONLY) →
  kpipes s !! p = Some kp → readers kp ≠ 0 →
  (Z.of_nat (length bindata) ≤ room kp)%Z →
  length bindata < fuel →
  ∃ s', write_loop fuel h bindata s = (Ret tt, s')
      ∧ io_only s s'
      ∧ kpipes s' = <[p := kp_append bindata kp]> (kpipes s).
Proof.
  intros Hh Hfd. revert bindata s kp Hh.
  induction fuel as [|fuel IH]; intros bindata s kp Hh Hd Hp Hr Hroom Hf; [lia|].
  simpl.
  rewrite (bind_ret _ _ _ _ _ (get_handle_run _ _ _ Hh)), Hfd.
  unfold _WRITE_NB. rewrite bind_run.
  destruct (decide (bindata = [])) as [->|Hne].
  { rewrite (nb_write_nil _ _ _ _ Hd Hp). simpl.
    eexists. split_and!; [done|done|]. simpl.
    by rewrite kp_append_nil, insert_id. }
  destruct (write_size_room (sched s) bindata kp Hne Hroom) as [k Hk].
  destruct (write_size_Some _ _ _ _ Hk Hne) as [[Hk1 Hk2] Hk3].
  rewrite (nb_write_data _ _ _ _ _ _ Hd Hp Hr Hne Hk).
  case_match eqn:E0.
  - apply Z.eqb_eq in E0. eexists. split_and!; [done|done|]. simpl.
    by rewrite take_ge by lia.
  - apply Z.eqb_neq in E0.
    rewrite slice_from_rest by lia.
    destruct (IH (drop k bindata)
                (io_call (set_kpipes (insert p (kp_append (take k bindata) kp)) s))
                (kp_append (take k bindata) kp)) as (s' & Hrun & Hio & Hkp).
    + done.
    + done.
    + simpl. by rewrite lookup_insert_eq.
    + done.
    + rewrite room_kp_append, length_take, length_drop. lia.
    + rewrite length_drop. lia.
    + exists s'. rewrite Hrun. split_and!; [done| |].
      * eapply io_only_trans; [|exact Hio]. done.
      * rewrite Hkp. simpl. rewrite insert_insert_eq. f_equal.
        unfold kp_append. simpl. f_equal.
        by rewrite <- app_assoc, take_drop.
Qed.

(** [_write] into a pipe that has not the room for all of [bindata]:
    the loop writes what the pipe takes and then waits in
    [_WRITE_NB], with the beginning of [bindata] in the pipe. *)
Lemma write_loop_waits fuel h hd fd p bindata s kp :
  heap s !! h = Some hd → _fd hd = Some fd →
  fdtab s !! fd = Some (mkFdesc p O_WRONLY) →
  kpipes s !! p = Some kp → readers kp ≠ 0 →
  bindata ≠ [] → (room kp < Z.of_nat (length bindata))%Z →
  length bindata < fuel →
  ∃ s' k, write_loop fuel h bindata s = (Blocked, s')
        ∧ io_only s s'
        ∧ k < length bindata
        ∧ kpipes s' = <[p := kp_append (take k bindata) kp]> (kpipes s).
Proof.
  intros Hh Hfd. revert bindata s kp Hh.
  induction fuel as [|fuel IH];
    intros bindata s kp Hh Hd Hp Hr Hne Hroom Hf; [lia|].
  simpl.
  rewrite (bind_ret _ _ _ _ _ (get_handle_run _ _ _ Hh)), Hfd.
  unfold _WRITE_NB. rewrite bind_run.
  assert (Hlen : 0 < length bindata) by (destruct bindata; [done|simpl; lia]).
  destruct (write_size (sched s) bindata kp) as [k|] eqn:Hk.
  - destruct (write_size_Some _ _ _ _ Hk Hne) as [[Hk1 Hk2] Hk3].
    rewrite (nb_write_data _ _ _ _ _ _ Hd Hp Hr Hne Hk).
    case_match eqn:E0; [apply Z.eqb_eq in E0; lia|].
    rewrite slice_from_rest by lia.
    destruct (IH (drop k bindata)
                (io_call (set_kpipes (insert p (kp_append (take k bindata) kp)) s))
                (kp_append (take k bindata) kp)) as (s' & j & Hrun & Hio & Hj & Hkp).
    + done.
    + done.
    + simpl. by rewrite lookup_insert_eq.
    + done.
    + intros E. apply (f_equal length) in E. rewrite length_drop in E.
      simpl in E. lia.
    + rewrite room_kp_append, length_take, length_drop. lia.
    + rewrite length_drop. lia.
    + rewrite length_drop in Hj.
      exists s', (k + j). rewrite Hrun. split_and!; [done| |lia|].
      * eapply io_only_trans; [|exact Hio]. done.
      * rewrite Hkp. simpl. rewrite insert_insert_eq. f_equal.
        unfold kp_append. simpl. f_equal.
        by rewrite <- app_assoc, take_take_drop.
  - rewrite (nb_write_full _ _ _ _ _ Hd Hp Hr Hne Hk).
    exists (io_call s), 0. split_and!; [done|done|done|]. simpl.
    by rewrite take_0, kp_append_nil, insert_id.
Qed.

(** On a pipe that holds fewer bytes than asked for, the loop reads
    them all and then meets the end of the pipe: with no writer left
    the read returns zero bytes and the loop raises, EOFError when
    nothing had been read for this call before; with a writer left
    the read waits. *)
Lemma recv_loop_short fuel h hd fd p size remaining readbuf s kp :
  heap s !! h = Some hd → _fd hd = Some fd →
  fdtab s !! fd = Some (mkFdesc p O_RDONLY) →
  kpipes s !! p = Some kp →
  Z.to_nat remaining ≤ fuel →
  length (content kp) < Z.to_nat remaining →
  (recv_loop fuel h size remaining readbuf s).1
  = if Nat.eqb (writers kp) 0
    then Raise (if (remaining - Z.of_nat (length (content kp)) =? size)%Z
                then PeerClosedError else TruncatedMessageError)
    else Blocked.
Proof.
  intros Hh Hfd. revert remaining readbuf s kp Hh.
  induction fuel as [|fuel IH];
    intros remaining readbuf s kp Hh Hd Hp Hf Hc; [lia|].
  simpl. case_match eqn:E; [|apply Z.ltb_ge in E; lia].
  rewrite (bind_ret _ _ _ _ _ (get_handle_run _ _ _ Hh)), Hfd.
  unfold _READ_NB. rewrite bind_run.
  destruct (decide (content kp = [])) as [Hcont|Hne].
  - rewrite Hcont. destruct (writers kp) as [|w] eqn:Hw.
    + rewrite (nb_read_eof _ _ _ _ _ Hd Hp Hcont Hw). simpl.
      rewrite Z.sub_0_r. by destruct (remaining =? size)%Z.
    + by rewrite (nb_read_wait _ _ _ _ _ Hd Hp Hcont) by lia.
  - rewrite (nb_read_data _ _ _ _ _ Hd Hp Hne). cbv zeta.
    set (k := chunk_len (sched s) (Z.to_nat remaining `min` length (content kp))).
    cbv beta iota.
    assert (0 < length (content kp)) by (destruct (content kp); simpl; [done|lia]).
    assert (Hk1 : 0 < k) by (apply chunk_len_pos; lia).
    assert (Hk2 : k ≤ Z.to_nat remaining `min` length (content kp))
      by apply chunk_len_le.
    rewrite length_take, Nat.min_l by lia.
    case_match eqn:E0; [apply Z.eqb_eq in E0; lia|].
    rewrite (IH (remaining - Z.of_nat k)%Z (readbuf ++ take k (content kp))
               (io_call (set_kpipes (insert p (kp_consume k kp)) s))
               (kp_consume k kp)).
    + simpl. rewrite length_drop.
      replace (remaining - Z.of_nat k
               - Z.of_nat (length (content kp) - k))%Z
        with (remaining - Z.of_nat (length (content kp)))%Z by lia.
      done.
    + done.
    + done.
    + simpl. by rewrite lookup_insert_eq.
    + lia.
    + simpl. rewrite length_drop. lia.
Qed.

Lemma _recv_short h hd fd p size s kp :
  heap s !! h = Some hd → _fd hd = Some fd →
  fdtab s !! fd = Some (mkFdesc p O_RDONLY) →
  kpipes s !! p = Some kp →
  length (content kp) < Z.to_nat size →
  (_recv_in_buffer h size s).1
  = if Nat.eqb (writers kp) 0
    then Raise (match content kp with
                | [] => PeerClosedError
                | _ => TruncatedMessageError
                end)
    else Blocked.
Proof.
  intros Hh Hfd Hd Hp Hc. unfold _recv_in_buffer.
  rewrite (recv_loop_short _ _ _ _ _ _ _ _ _ _ Hh Hfd Hd Hp) by lia.
  destruct (writers kp =? 0); [|done]. f_equal.
  destruct (content kp) as [|b c]; simpl.
  - by rewrite Z.sub_0_r, Z.eqb_refl.
  - case_match eqn:E; [apply Z.eqb_eq in E; lia|done].
Qed.

(** The iteration budget of [_write] is never used up either. *)
Lemma write_loop_no_spin fuel h bindata s :
  length bindata < fuel → (write_loop fuel h bindata s).1 ≠ Spin.
Proof.
  revert bindata s. induction fuel as [|fuel IH]; intros bindata s Hf; [lia|].
  simpl. rewrite bind_run. unfold get_handle.
  destruct (heap s !! h) as [hd|]; [|done].
  rewrite bind_run. unfold _WRITE_NB.
  pose proof (nb_write_no_spin (_fd hd) bindata s) as Hns.
  destruct (nb_write (_fd hd) bindata s) as [[n| | |] s1] eqn:Ew; try done.
  destruct (nb_write_ret _ _ _ _ _ Ew) as (k & -> & Hk1 & Hk2).
  case_match eqn:E0; [done|]. apply Z.eqb_neq in E0.
  assert (bindata ≠ []) by (intros ->; simpl in *; lia).
  specialize (Hk2 ltac:(done)).
  rewrite slice_from_rest by lia. apply IH.
  rewrite length_drop. lia.
Qed.

(** ** The semaphore *)

Lemma try_acquire_taken h s hd :
  heap s !! h = Some hd → _lock hd = 0 → try_acquire h s = (Ret false, s).
Proof.
  intros Hh Hl. unfold try_acquire.
  by rewrite (bind_ret _ _ _ _ _ (get_handle_run _ _ _ Hh)), Hl.
Qed.

Lemma modify_handle_run h f s hd :
  heap s !! h = Some hd →
  modify_handle h f s = (Ret tt, set_heap (insert h (f hd)) s).
Proof.
  intros Hh. unfold modify_handle.
  by rewrite (bind_ret _ _ _ _ _ (get_handle_run _ _ _ Hh)).
Qed.

Lemma try_acquire_free h s hd n :
  heap s !! h = Some hd → _lock hd = S n →
  try_acquire h s = (Ret true, set_heap (insert h (set__lock n hd)) s).
Proof.
  intros Hh Hl. unfold try_acquire.
  rewrite (bind_ret _ _ _ _ _ (get_handle_run _ _ _ Hh)), Hl.
  by rewrite (bind_ret _ _ _ _ _ (modify_handle_run _ _ _ _ Hh)).
Qed.

Lemma acquire_taken h s hd :
  heap s !! h = Some hd → _lock hd = 0 → acquire h s = (Blocked, s).
Proof.
  intros Hh Hl. unfold acquire.
  by rewrite (bind_ret _ _ _ _ _ (try_acquire_taken _ _ _ Hh Hl)).
Qed.

Lemma acquire_free h s hd n :
  heap s !! h = Some hd → _lock hd = S n →
  acquire h s = (Ret tt, set_heap (insert h (set__lock n hd)) s).
Proof.
  intros Hh Hl. unfold acquire.
  by rewrite (bind_ret _ _ _ _ _ (try_acquire_free _ _ _ _ Hh Hl)).
Qed.

Lemma release_run h s hd :
  heap s !! h = Some hd →
  release h s = (Ret tt, set_heap (insert h (set__lock (S (_lock hd)) hd)) s).
Proof.
  intros Hh. unfold release.
  by rewrite (modify_handle_run _ _ _ _ Hh).
Qed.

Lemma set__lock_restore hd n :
  _lock hd = S n → set__lock (S n) (set__lock n hd) = hd.
Proof. destruct hd; simpl; intros ->; reflexivity. Qed.

(** Releasing what was acquired gives the heap back as it was. *)
Lemma release_acquired h s hd n s2 :
  heap s !! h = Some hd → _lock hd = S n →
  io_only (set_heap (insert h (set__lock n hd)) s) s2 →
  ∃ s', release h s2 = (Ret tt, s') ∧ io_only s s'
      ∧ kpipes s' = kpipes s2.
Proof.
  intros Hh Hl (Hpid & Hheap & Hreg & Hfd). simpl in *.
  assert (Hh2 : heap s2 !! h = Some (set__lock n hd))
    by (by rewrite Hheap, lookup_insert_eq).
  eexists. split; [by apply release_run|]. split; [|done].
  repeat split; simpl; try done.
  rewrite Hheap, insert_insert_eq. simpl.
  rewrite set__lock_restore by done. by apply insert_id.
Qed.

Lemma with_lock_taken {A} h (body : M A) s hd :
  heap s !! h = Some hd → _lock hd = 0 → with_lock h body s = (Blocked, s).
Proof.
  intros Hh Hl. unfold with_lock.
  by rewrite (bind_blocked _ _ _ _ (acquire_taken _ _ _ Hh Hl)).
Qed.

Lemma with_lock_ret {A} h (body : M A) s hd n a s2 :
  heap s !! h = Some hd → _lock hd = S n →
  body (set_heap (insert h (set__lock n hd)) s) = (Ret a, s2) →
  io_only (set_heap (insert h (set__lock n hd)) s) s2 →
  ∃ s', with_lock h body s = (Ret a, s') ∧ io_only s s'
      ∧ kpipes s' = kpipes s2.
Proof.
  intros Hh Hl Hb Hio.
  destruct (release_acquired _ _ _ _ _ Hh Hl Hio) as (s' & Hr & Hio' & Hk).
  exists s'. split; [|done]. unfold with_lock.
  rewrite (bind_ret _ _ _ _ _ (acquire_free _ _ _ _ Hh Hl)).
  unfold finally. rewrite Hb. by rewrite (bind_ret _ _ _ _ _ Hr).
Qed.

Lemma with_lock_raise {A} h (body : M A) s hd n e s2 :
  heap s !! h = Some hd → _lock hd = S n →
  body (set_heap (insert h (set__lock n hd)) s) = (Raise e, s2) →
  io_only (set_heap (insert h (set__lock n hd)) s) s2 →
  ∃ s', with_lock h body s = (Raise e, s') ∧ io_only s s'
      ∧ kpipes s' = kpipes s2.
Proof.
  intros Hh Hl Hb Hio.
  destruct (release_acquired _ _ _ _ _ Hh Hl Hio) as (s' & Hr & Hio' & Hk).
  exists s'. split; [|done]. unfold with_lock.
  rewrite (bind_ret _ _ _ _ _ (acquire_free _ _ _ _ Hh Hl)).
  unfold finally. rewrite Hb. by rewrite (bind_ret _ _ _ _ _ Hr).
Qed.

(** ** [close] *)

Lemma close_locked h s hd :
  heap s !! h = Some hd → _closed hd = false → getpid s = _legit_pid hd →
  _lock hd = 0 →
  close h s = (Raise HandleLockedError, s).
Proof.
  intros Hh Hc Hp Hl. unfold close.
  rewrite (bind_ret _ _ _ _ _ (validate_ok _ _ _ Hh Hc Hp)).
  by rewrite (bind_ret _ _ _ _ _ (try_acquire_taken _ _ _ Hh Hl)).
Qed.

(** ** Frames through a pipe pair *)

Lemma endpoint_io_only h flag p s s' :
  io_only s s' → endpoint h flag p s → endpoint h flag p s'.
Proof.
  intros (Hpid & Hheap & _ & Hfd) (hd & fd & ?).
  exists hd, fd. rewrite Hpid, Hheap, Hfd. done.
Qed.

Lemma _write_appends h hd fd p bindata s kp :
  heap s !! h = Some hd → _fd hd = Some fd →
  fdtab s !! fd = Some (mkFdesc p O_WRONLY) →
  kpipes s !! p = Some kp → readers kp ≠ 0 →
  (Z.of_nat (length bindata) ≤ room kp)%Z →
  ∃ s', _write h bindata s = (Ret tt, s')
      ∧ io_only s s'
      ∧ kpipes s' = <[p := kp_append bindata kp]> (kpipes s).
Proof.
  intros. unfold _write. eapply write_loop_appends; eauto.
Qed.

Lemma _write_waits h hd fd p bindata s kp :
  heap s !! h = Some hd → _fd hd = Some fd →
  fdtab s !! fd = Some (mkFdesc p O_WRONLY) →
  kpipes s !! p = Some kp → readers kp ≠ 0 →
  bindata ≠ [] → (room kp < Z.of_nat (length bindata))%Z →
  ∃ s' k, _write h bindata s = (Blocked, s')
        ∧ io_only s s'
        ∧ k < length bindata
        ∧ kpipes s' = <[p := kp_append (take k bindata) kp]> (kpipes s).
Proof.
  intros. unfold _write. eapply write_loop_waits; eauto.
Qed.

Lemma _recv_takes h hd fd p size s kp :
  heap s !! h = Some hd → _fd hd = Some fd →
  fdtab s !! fd = Some (mkFdesc p O_RDONLY) →
  kpipes s !! p = Some kp →
  Z.to_nat size ≤ length (content kp) →
  ∃ s', _recv_in_buffer h size s
        = (Ret (take (Z.to_nat size) (content kp)), s')
      ∧ io_only s s'
      ∧ kpipes s' = <[p := kp_consume (Z.to_nat size) kp]> (kpipes s).
Proof.
  intros. unfold _recv_in_buffer.
  by eapply (recv_loop_takes _ _ _ _ _ size size []).
Qed.

Section Framing.

Context {Obj : Type} `{Pickle Obj}.

(** [put] appends the length prefix and the pickled object to the
    pipe and leaves everything else as it was. *)
Lemma put_appends w p s kp o hdr :
  endpoint w O_WRONLY p s →
  kpipes s !! p = Some kp → readers kp ≠ 0 →
  struct.pack_i (Z.of_nat (length (dumps o))) = Some hdr →
  (4 + Z.of_nat (length (dumps o)) ≤ room kp)%Z →
  ∃ s', put w o s = (Ret tt, s')
      ∧ io_only s s'
      ∧ kpipes s' = <[p := kp_append (hdr ++ dumps o) kp]> (kpipes s).
Proof.
  intros (hd & fd & Hh & Hc & Hpid & Hl & Hfd & Hd) Hp Hr Hpack Hroom.
  destruct (struct_facts.unpack_pack _ _ Hpack) as [_ Hl4].
  set (s1' := set_heap (insert w (set__lock 0 hd)) s).
  assert (Hh1 : heap s1' !! w = Some (set__lock 0 hd))
    by (simpl; by rewrite lookup_insert_eq).
  destruct (_write_appends w _ fd p hdr s1' kp Hh1 Hfd Hd Hp Hr)
    as (s2 & Hw1 & Hio1 & Hk1); [lia|].
  assert (Hh2 : heap s2 !! w = Some (set__lock 0 hd))
    by (destruct Hio1 as (_ & -> & _); done).
  assert (Hd2 : fdtab s2 !! fd = Some (mkFdesc p O_WRONLY))
    by (destruct Hio1 as (_ & _ & _ & ->); done).
  assert (Hp2 : kpipes s2 !! p = Some (kp_append hdr kp))
    by (rewrite Hk1; apply lookup_insert_eq).
  destruct (_write_appends w _ fd p (dumps o) s2 _ Hh2 Hfd Hd2 Hp2 Hr)
    as (s3 & Hw2 & Hio2 & Hk2); [rewrite room_kp_append; lia|].
  destruct (with_lock_ret w
    (let bindata := dumps o in
     hdr ← of_option StructError
             (struct.pack_i (Z.of_nat (length bindata)));
     _write w hdr ;; _write w bindata) s hd 0 tt s3 Hh Hl)
    as (s' & Hrun & Hio & Hk).
  { cbv zeta. rewrite Hpack. unfold of_option.
    rewrite bind_run. cbn [mret M_ret]. unfold M_ret.
    fold s1'. rewrite (bind_ret _ _ _ _ _ Hw1). exact Hw2. }
  { eapply io_only_trans; [exact Hio1|exact Hio2]. }
  exists s'. split; [|split; [done|]].
  - unfold put. rewrite (bind_ret _ _ _ _ _ (validate_ok _ _ _ Hh Hc Hpid)).
    exact Hrun.
  - rewrite Hk, Hk2, Hk1. simpl. rewrite insert_insert_eq.
    f_equal. unfold kp_append. simpl. by rewrite app_assoc.
Qed.

(** [get] reads four bytes, takes them for a signed length [msize]
    and unpickles the [msize] bytes that follow (none when [msize]
    is negative). *)
Lemma get_reads r p s kp b0 b1 b2 b3 rest msize :
  endpoint r O_RDONLY p s →
  kpipes s !! p = Some kp →
  content kp = b0 :: b1 :: b2 :: b3 :: rest →
  struct.unpack_i [b0; b1; b2; b3] = Some msize →
  Z.to_nat msize ≤ length rest →
  ∃ s', get r s = (sum_result (loads (take (Z.to_nat msize) rest)), s')
      ∧ io_only s s'
      ∧ kpipes s' = <[p := mkPipe (drop (Z.to_nat msize) rest)
                                  (readers kp) (writers kp)]> (kpipes s).
Proof.
  intros (hd & fd & Hh & Hc & Hpid & Hl & Hfd & Hd) Hp Hcont Hunpack Hlen.
  set (s1 := set_heap (insert r (set__lock 0 hd)) s).
  assert (Hh1 : heap s1 !! r = Some (set__lock 0 hd))
    by (simpl; by rewrite lookup_insert_eq).
  destruct (_recv_takes r _ fd p 4 s1 kp Hh1 Hfd Hd Hp)
    as (s2 & Hr1 & Hio1 & Hk1).
  { rewrite Hcont. simpl. lia. }
  rewrite Hcont in Hr1. change (take (Z.to_nat 4) (b0 :: b1 :: b2 :: b3 :: rest))
    with ([b0; b1; b2; b3] ++ take 0 rest) in Hr1.
  rewrite take_0, app_nil_r in Hr1.
  assert (Hh2 : heap s2 !! r = Some (set__lock 0 hd))
    by (destruct Hio1 as (_ & -> & _); done).
  assert (Hd2 : fdtab s2 !! fd = Some (mkFdesc p O_RDONLY))
    by (destruct Hio1 as (_ & _ & _ & ->); done).
  assert (Hp2 : kpipes s2 !! p = Some (kp_consume (Z.to_nat 4) kp))
    by (rewrite Hk1; apply lookup_insert_eq).
  assert (Hc2 : content (kp_consume (Z.to_nat 4) kp) = rest).
  { simpl. by rewrite Hcont. }
  destruct (_recv_takes r _ fd p msize s2 _ Hh2 Hfd Hd2 Hp2)
    as (s3 & Hr2 & Hio2 & Hk2).
  { by rewrite Hc2. }
  rewrite Hc2 in Hr2.
  assert (Hio3 : io_only s1 s3) by (eapply io_only_trans; eauto).
  assert (Hk3 : kpipes s3
                = <[p := mkPipe (drop (Z.to_nat msize) rest)
                                (readers kp) (writers kp)]> (kpipes s)).
  { rewrite Hk2, Hk1. simpl. rewrite insert_insert_eq. f_equal.
    unfold kp_consume at 1. by rewrite Hc2. }
  unfold get. rewrite (bind_ret _ _ _ _ _ (validate_ok _ _ _ Hh Hc Hpid)).
  destruct (loads (take (Z.to_nat msize) rest)) as [e|o] eqn:Hloads.
  - destruct (with_lock_raise r
      (hdr ← _recv_in_buffer r 4;
       msize ← of_option StructError (struct.unpack_i hdr);
       bindata ← _recv_in_buffer r msize;
       of_sum (loads bindata)) s hd 0 e s3 Hh Hl) as (s' & Hrun & Hio & Hk).
    { fold s1. rewrite (bind_ret _ _ _ _ _ Hr1), Hunpack.
      unfold of_option. rewrite bind_run. unfold mret, M_ret.
      rewrite (bind_ret _ _ _ _ _ Hr2), Hloads. done. }
    { done. }
    exists s'. split; [done|]. split; [done|]. by rewrite Hk.
  - destruct (with_lock_ret r
      (hdr ← _recv_in_buffer r 4;
       msize ← of_option StructError (struct.unpack_i hdr);
       bindata ← _recv_in_buffer r msize;
       of_sum (loads bindata)) s hd 0 o s3 Hh Hl) as (s' & Hrun & Hio & Hk).
    { fold s1. rewrite (bind_ret _ _ _ _ _ Hr1), Hunpack.
      unfold of_option. rewrite bind_run. unfold mret, M_ret.
      rewrite (bind_ret _ _ _ _ _ Hr2), Hloads. done. }
    { done. }
    exists s'. split; [done|]. split; [done|]. by rewrite Hk.
Qed.




(** The two handles that [pipe] returns are the ends of a new, empty
    pipe. *)
Lemma pipe_paired s :
  ∃ r w s', pipe s = (Ret (r, w), s') ∧ pipe_pair r w [] s'.
Proof.
  eexists _, _, _. split; [reflexivity|].
  set (fr := fresh (dom (fdtab s))).
  set (fw := fresh ({[fr]} ∪ dom (fdtab s))).
  assert (H0 : fr ≠ fw).
  { intros E. pose proof (is_fresh ({[fr]} ∪ dom (fdtab s))) as Hf.
    fold fw in Hf. rewrite <- E in Hf. set_solver. }
  set (p := fresh (dom (kpipes s))).
  set (hr := fresh (dom (heap s))).
  assert (Hhw : hr ≠ fresh (dom (<[hr := mkHandle (Some fr) O_RDONLY (getpid s) 1 false]> (heap s)))).
  { intros E.
    pose proof (is_fresh (dom (<[hr := mkHandle (Some fr) O_RDONLY (getpid s) 1 false]> (heap s)))) as Hf.
    rewrite <- E in Hf. rewrite dom_insert_L in Hf. set_solver. }
  exists p, (mkPipe [] 1 1). split_and!.
  - exists (mkHandle (Some fr) O_RDONLY (getpid s) 1 false), fr.
    split_and!; [|done..|]; simpl.
    + rewrite lookup_insert_ne; [apply lookup_insert_eq|].
      intros E. apply Hhw. symmetry. exact E.
    + rewrite lookup_insert_ne; [apply lookup_insert_eq|].
      intros E. apply H0. symmetry. exact E.
  - exists (mkHandle (Some fw) O_WRONLY (getpid s) 1 false), fw.
    split_and!; [|done..|]; simpl; apply lookup_insert_eq.
  - simpl. apply lookup_insert_eq.
  - done.
  - done.
Qed.

End Framing.

(** ** What [get] and [put] leave alone *)

Lemma preserves_bind {A B} R `{!Reflexive R, !Transitive R}
    (m : M A) (f : A → M B) :
  preserves R m → (∀ a, preserves R (f a)) → preserves R (m ≫= f).
Proof.
  intros Hm Hf s. rewrite bind_run. specialize (Hm s).
  destruct (m s) as [[a|e| |] s1]; simpl in *; try done.
  etrans; [exact Hm|apply Hf].
Qed.

Lemma preserves_finally {A} R `{!Reflexive R, !Transitive R}
    (body : M A) (cleanup : M unit) :
  preserves R body → preserves R cleanup → preserves R (finally body cleanup).
Proof.
  intros Hb Hc s. unfold finally. specialize (Hb s).
  destruct (body s) as [[a|e| |] s1]; simpl in *; try done.
  - etrans; [exact Hb|]. apply (preserves_bind R); [done|]. by intros ? ?.
  - etrans; [exact Hb|]. apply (preserves_bind R); [done|]. by intros ? ?.
Qed.

Lemma preserves_ret {A} R `{!Reflexive R} (a : A) : preserves R (mret a).
Proof. by intros s. Qed.

#[global] Instance locks_only_refl : Reflexive locks_only.
Proof. by intros s. Qed.

#[global] Instance locks_only_trans : Transitive locks_only.
Proof.
  intros s1 s2 s3 (?&?&?&H12) (?&?&?&H23).
  split_and!; [congruence..|]. intros h. by rewrite H23, H12.
Qed.

Lemma io_only_locks_only s s' : io_only s s' → locks_only s s'.
Proof. intros (?&Hh&?&?). split_and!; try done. intros h. by rewrite Hh. Qed.

Lemma get_handle_preserves R `{!Reflexive R} h : preserves R (get_handle h).
Proof. intros s. unfold get_handle. by destruct (heap s !! h). Qed.

Lemma validate_preserves R `{!Reflexive R} h :
  preserves R (_validate_process h).
Proof. intros s. by rewrite validate_state. Qed.

Lemma relock_locks_only h f :
  (∀ hd, set__lock 0 (f hd) = set__lock 0 hd) →
  preserves locks_only (modify_handle h f).
Proof.
  intros Hf s. unfold modify_handle. rewrite bind_run. unfold get_handle.
  destruct (heap s !! h) as [hd|] eqn:Hh; [|done]. simpl.
  split_and!; try done. intros h'. cbn [heap set_heap].
  destruct (decide (h = h')) as [<-|Hne].
  - by rewrite lookup_insert_eq, Hh; simpl; rewrite Hf.
  - by rewrite lookup_insert_ne.
Qed.

Lemma try_acquire_locks_only h : preserves locks_only (try_acquire h).
Proof.
  unfold try_acquire. apply (preserves_bind _).
  - apply (get_handle_preserves _).
  - intros hd. destruct (_lock hd); [apply (preserves_ret _)|].
    apply (preserves_bind _); [by apply relock_locks_only|].
    intros _. apply (preserves_ret _).
Qed.

Lemma acquire_locks_only h : preserves locks_only (acquire h).
Proof.
  unfold acquire. apply (preserves_bind _); [apply try_acquire_locks_only|].
  intros [|]; [apply (preserves_ret _)|by intros s].
Qed.

Lemma release_locks_only h : preserves locks_only (release h).
Proof. unfold release. by apply relock_locks_only. Qed.

Lemma with_lock_locks_only {A} h (body : M A) :
  preserves locks_only body → preserves locks_only (with_lock h body).
Proof.
  intros Hb. unfold with_lock.
  apply (preserves_bind _); [apply acquire_locks_only|]. intros _.
  apply (preserves_finally _); [done|apply release_locks_only].
Qed.

Lemma _recv_in_buffer_locks_only h size :
  preserves locks_only (_recv_in_buffer h size).
Proof. intros s. apply io_only_locks_only, recv_loop_io_only. Qed.

Lemma _write_locks_only h bindata : preserves locks_only (_write h bindata).
Proof. intros s. apply io_only_locks_only, write_loop_io_only. Qed.

Lemma of_option_preserves {A} R `{!Reflexive R} e (o : option A) :
  preserves R (of_option e o).
Proof. intros s. by destruct o. Qed.

Section Locks_only.

Context {Obj : Type} `{Pickle Obj}.

Lemma get_locks_only h : preserves locks_only (get (Obj := Obj) h).
Proof.
  unfold get. apply (preserves_bind _); [apply (validate_preserves _)|].
  intros _. apply with_lock_locks_only.
  apply (preserves_bind _); [apply _recv_in_buffer_locks_only|]. intros hdr.
  apply (preserves_bind _); [apply (of_option_preserves _)|]. intros msize.
  apply (preserves_bind _); [apply _recv_in_buffer_locks_only|]. intros b.
  by intros s.
Qed.

Lemma put_locks_only h (o : Obj) : preserves locks_only (put h o).
Proof.
  unfold put. apply (preserves_bind _); [apply (validate_preserves _)|].
  intros _. apply with_lock_locks_only. cbv zeta.
  apply (preserves_bind _); [apply (of_option_preserves _)|]. intros hdr.
  apply (preserves_bind _); [apply _write_locks_only|]. intros _.
  apply _write_locks_only.
Qed.

End Locks_only.

Lemma locks_only_lookup s s' h hd' :
  locks_only s s' → heap s' !! h = Some hd' →
  ∃ hd, heap s !! h = Some hd ∧ _fd hd = _fd hd'
      ∧ _closed hd = _closed hd' ∧ _legit_pid hd = _legit_pid hd'.
Proof.
  intros (_&_&_&Hh) Hl. specialize (Hh h). rewrite Hl in Hh.
  destruct (heap s !! h) as [hd|]; [|done]. exists hd.
  simpl in Hh. injection Hh as E1 E2 E3 E4. done.
Qed.

Lemma locks_only_closed_in s s' h :
  locks_only s s' → closed_in h s ↔ closed_in h s'.
Proof.
  intros Hl. split.
  - intros (hd & Hh & Hc). destruct Hl as (_&_&_&Hl). specialize (Hl h).
    rewrite Hh in Hl. destruct (heap s' !! h) as [hd'|] eqn:Hh'; [|done].
    exists hd'. split; [done|]. simpl in Hl. injection Hl as E1 E2 E3 E4.
    congruence.
  - intros (hd' & Hh & Hc).
    destruct (locks_only_lookup _ _ _ _ Hl Hh) as (hd & ? & ? & ? & ?).
    exists hd. split; [done|congruence].
Qed.

Lemma wf_locks_only s s' : locks_only s s' → wf s → wf s'.
Proof.
  intros Hl Hwf. pose proof Hl as (Hpid & Hreg & Hfd & _). split.
  - intros h hd' Hh Hc.
    destruct (locks_only_lookup _ _ _ _ Hl Hh) as (hd & Hh0 & E1 & E2 & E3).
    rewrite Hreg, <- E1. apply (wf_closed _ Hwf h hd); congruence.
  - intros h hd' Hh Hc.
    destruct (locks_only_lookup _ _ _ _ Hl Hh) as (hd & Hh0 & E1 & E2 & E3).
    rewrite Hfd, <- E1. apply (wf_open _ Hwf h hd); congruence.
  - intros h1 h2 hd1' hd2' fd Hh1 Hh2 F1 F2.
    destruct (locks_only_lookup _ _ _ _ Hl Hh1) as (hd1 & ? & E1 & _).
    destruct (locks_only_lookup _ _ _ _ Hl Hh2) as (hd2 & ? & E2 & _).
    apply (wf_fd_inj _ Hwf h1 h2 hd1 hd2 fd); congruence.
  - rewrite Hreg. apply (wf_nodup _ Hwf).
  - intros h Hin. rewrite Hreg in Hin.
    destruct (wf_registered _ Hwf h Hin) as [hd Hh].
    destruct Hl as (_&_&_&Hl). specialize (Hl h). rewrite Hh in Hl.
    destruct (heap s' !! h); [by eexists|done].
  - intros h hd' Hh.
    destruct (locks_only_lookup _ _ _ _ Hl Hh) as (hd & Hh0 & _ & _ & E3).
    rewrite Hpid, <- E3. by apply (wf_pid _ Hwf h).
Qed.

(** ** [close], step by step *)

Lemma remove_first_notin x l : x ∉ l → remove_first x l = l.
Proof.
  induction l as [|y l IH]; [done|]. intros Hn.
  apply not_elem_of_cons in Hn as [Hne Hn]. simpl.
  case_decide; [done|]. f_equal. by apply IH.
Qed.

Lemma elem_of_remove_first x y l :
  x ≠ y → x ∈ remove_first y l ↔ x ∈ l.
Proof.
  intros Hne. induction l as [|z l IH]; [done|]. simpl.
  case_decide as E.
  - subst z. rewrite elem_of_cons. split; [by right|]. by intros [?|?].
  - by rewrite !elem_of_cons, IH.
Qed.

Lemma remove_first_subseteq x l : remove_first x l ⊆ l.
Proof.
  induction l as [|z l IH]; [done|]. simpl. intros a Ha.
  case_decide as E.
  - apply elem_of_cons. by right.
  - apply elem_of_cons in Ha as [->|Ha]; apply elem_of_cons; [by left|].
    right. by apply IH.
Qed.

Lemma NoDup_remove_first x l :
  NoDup l → NoDup (remove_first x l) ∧ x ∉ remove_first x l.
Proof.
  induction 1 as [|z l Hz Hnd IH]; simpl.
  - split; [constructor|apply not_elem_of_nil].
  - case_decide as E; [by subst|]. destruct IH as [IH1 IH2]. split.
    + constructor; [|done]. intros Hin. apply Hz.
      by apply remove_first_subseteq in Hin.
    + by apply not_elem_of_cons.
Qed.

Lemma close_ok h s hd fd d n :
  heap s !! h = Some hd → _closed hd = false → getpid s = _legit_pid hd →
  _lock hd = S n → _fd hd = Some fd → fdtab s !! fd = Some d →
  close h s = (Ret tt, closed_state h hd fd d s).
Proof.
  intros Hh Hc Hp Hl Hfd Hd. unfold close.
  rewrite (bind_ret _ _ _ _ _ (validate_ok _ _ _ Hh Hc Hp)).
  rewrite (bind_ret _ _ _ _ _ (try_acquire_free _ _ _ _ Hh Hl)).
  cbn [negb].
  set (s1 := set_heap (insert h (set__lock n hd)) s).
  assert (Hh1 : heap s1 !! h = Some (set__lock n hd))
    by (simpl; apply lookup_insert_eq).
  rewrite (bind_ret _ _ _ _ _ (modify_handle_run _ _ _ _ Hh1)).
  set (s2 := set_heap (insert h (set__closed true (set__lock n hd))) s1).
  assert (Hh2 : heap s2 !! h = Some (set__closed true (set__lock n hd)))
    by (simpl; apply lookup_insert_eq).
  rewrite (bind_ret _ _ _ _ _ (get_handle_run _ _ _ Hh2)).
  cbn [_fd set__closed set__lock]. rewrite Hfd.
  assert (Hos : os_close fd s2
                = (Ret tt, set_kpipes (alter (kp_close (fd_end d)) (fd_pipe d))
                             (set_fdtab (delete fd) s2))).
  { unfold os_close. simpl. by rewrite Hd. }
  rewrite bind_run.
  rewrite (bind_ret _ _ _ _ _ Hos).
  set (s3 := set_kpipes _ _).
  assert (Hh3 : heap s3 !! h = Some (set__closed true (set__lock n hd)))
    by (simpl; apply lookup_insert_eq).
  rewrite (modify_handle_run _ _ _ _ Hh3).
  set (s4 := set_heap _ s3).
  rewrite bind_run. unfold gets at 1. cbn [_all_handles s4 set_heap].
  assert (Hreg : ((if bool_decide (h ∈ _all_handles s3)
                   then modify (set_all_handles
                                  (remove_first h (_all_handles s3)))
                   else mret ()) : M unit) s4
                 = (Ret tt, set_all_handles (remove_first h (_all_handles s)) s4)).
  { case_bool_decide as Hin; [done|].
    change (_all_handles s3) with (_all_handles s) in Hin.
    rewrite (remove_first_notin _ _ Hin). by destruct s. }
  rewrite (bind_ret _ _ _ _ _ Hreg).
  set (s5 := set_all_handles _ s4).
  assert (Hh5 : heap s5 !! h
                = Some (set__fd None (set__closed true (set__lock n hd))))
    by (simpl; apply lookup_insert_eq).
  rewrite (release_run _ _ _ Hh5). f_equal.
  unfold closed_state, s5, s4, s3, s2, s1, set_all_handles, set_heap,
    set_kpipes, set_fdtab. simpl.
  rewrite !insert_insert_eq, Hl. done.
Qed.

(** Under the invariant, a [close] either raises and changes nothing,
    or returns and leaves [closed_state]. *)
Lemma close_cases h s :
  wf s →
  (∃ e, close h s = (Raise e, s))
  ∨ (∃ hd fd d, heap s !! h = Some hd ∧ _closed hd = false
       ∧ _fd hd = Some fd ∧ fdtab s !! fd = Some d
       ∧ close h s = (Ret tt, closed_state h hd fd d s)).
Proof.
  intros Hwf. destruct (heap s !! h) as [hd|] eqn:Hh; cycle 1.
  { left. exists AttributeError. apply close_invalid.
    unfold _validate_process, get_handle. rewrite bind_run. by rewrite Hh. }
  destruct (_closed hd) eqn:Hc.
  { left. eexists. apply close_invalid. by eapply validate_closed. }
  pose proof (wf_pid _ Hwf _ _ Hh) as Hp. symmetry in Hp.
  destruct (_lock hd) as [|n] eqn:Hl.
  { left. eexists. by eapply close_locked. }
  destruct (wf_open _ Hwf _ _ Hh Hc) as (fd & Hfd & [d Hd]).
  right. exists hd, fd, d. split_and!; try done. by eapply close_ok.
Qed.

Lemma closed_state_wf h hd fd d s :
  wf s → heap s !! h = Some hd → _closed hd = false →
  _fd hd = Some fd → fdtab s !! fd = Some d →
  wf (closed_state h hd fd d s).
Proof.
  intros Hwf Hh Hc Hfd Hd.
  destruct (NoDup_remove_first h _ (wf_nodup _ Hwf)) as [Hnd Hnin].
  split; simpl.
  - intros h' hd' Hh' Hc'. destruct (decide (h = h')) as [<-|Hne].
    + rewrite lookup_insert_eq in Hh'. injection Hh' as <-. done.
    + rewrite lookup_insert_ne in Hh' by done.
      destruct (wf_closed _ Hwf _ _ Hh' Hc') as [? Hn]. split; [done|].
      intros Hin. apply Hn. by apply remove_first_subseteq in Hin.
  - intros h' hd' Hh' Hc'. destruct (decide (h = h')) as [<-|Hne].
    + rewrite lookup_insert_eq in Hh'. injection Hh' as <-. done.
    + rewrite lookup_insert_ne in Hh' by done.
      destruct (wf_open _ Hwf _ _ Hh' Hc') as (fd' & Hfd' & Hop).
      exists fd'. split; [done|]. rewrite lookup_delete_ne; [done|].
      intros <-. apply Hne. by eapply (wf_fd_inj _ Hwf).
  - intros h1 h2 hd1 hd2 fd' H1 H2 F1 F2.
    destruct (decide (h = h1)) as [<-|Hne1].
    { rewrite lookup_insert_eq in H1. injection H1 as <-. done. }
    destruct (decide (h = h2)) as [<-|Hne2].
    { rewrite lookup_insert_eq in H2. injection H2 as <-. done. }
    rewrite lookup_insert_ne in H1, H2 by done.
    by eapply (wf_fd_inj _ Hwf).
  - done.
  - intros h' Hin. apply remove_first_subseteq in Hin.
    destruct (decide (h = h')) as [<-|Hne].
    + rewrite lookup_insert_eq. by eexists.
    + rewrite lookup_insert_ne by done. by apply (wf_registered _ Hwf).
  - intros h' hd' Hh'. destruct (decide (h = h')) as [<-|Hne].
    + rewrite lookup_insert_eq in Hh'. injection Hh' as <-. simpl.
      by apply (wf_pid _ Hwf h).
    + rewrite lookup_insert_ne in Hh' by done. by apply (wf_pid _ Hwf h').
Qed.

Lemma close_wf h s : wf s → wf (close h s).2.
Proof.
  intros Hwf. destruct (close_cases h s Hwf) as [[e ->]|(hd&fd&d&?&?&?&?&->)].
  - done.
  - by apply closed_state_wf.
Qed.

(** What a [close] of [h'] leaves untouched of another handle [h]. *)
Lemma close_frame h h' s :
  wf s → h ≠ h' →
  heap (close h' s).2 !! h = heap s !! h
  ∧ (h ∈ _all_handles s → h ∈ _all_handles (close h' s).2)
  ∧ (∀ hd fd, heap s !! h = Some hd → _fd hd = Some fd →
       fdtab (close h' s).2 !! fd = fdtab s !! fd)
  ∧ getpid (close h' s).2 = getpid s.
Proof.
  intros Hwf Hne.
  destruct (close_cases h' s Hwf) as [[e ->]|(hd'&fd'&d&Hh'&?&Hfd'&?&->)].
  - done.
  - simpl. split_and!.
    + by rewrite lookup_insert_ne.
    + intros Hin. by apply elem_of_remove_first.
    + intros hd fd Hh Hfd. rewrite lookup_delete_ne; [done|].
      intros <-. apply Hne. by eapply (wf_fd_inj _ Hwf).
    + done.
Qed.

Lemma close_keeps_closed h h' s :
  wf s → closed_in h s → closed_in h (close h' s).2.
Proof.
  intros Hwf (hd & Hh & Hc).
  destruct (close_cases h' s Hwf) as [[e ->]|(hd'&fd'&d&Hh'&Hc'&_&_&->)].
  - by exists hd.
  - destruct (decide (h' = h)) as [->|Hne]; [congruence|].
    exists hd. simpl. by rewrite lookup_insert_ne.
Qed.

(** A [close] that returns has closed its handle. *)
Lemma close_ret_closed h s s' :
  wf s → close h s = (Ret tt, s') → closed_in h s'.
Proof.
  intros Hwf E.
  destruct (close_cases h s Hwf) as [[e E']|(hd&fd&d&_&_&_&_&E')];
    rewrite E in E'; [done|].
  injection E' as ->. eexists. simpl. by rewrite lookup_insert_eq.
Qed.

(** ** [pipe] and [start_process] keep the invariant *)

Lemma handle_fd_open s h hd fd :
  wf s → heap s !! h = Some hd → _fd hd = Some fd → is_Some (fdtab s !! fd).
Proof.
  intros Hwf Hh Hfd. destruct (_closed hd) eqn:Hc.
  - destruct (wf_closed _ Hwf _ _ Hh Hc) as [Hn _]. congruence.
  - destruct (wf_open _ Hwf _ _ Hh Hc) as (fd' & Hfd' & Hop). congruence.
Qed.

Lemma pipe_wf s : wf s → wf (pipe s).2.
Proof.
  intros Hwf.
  set (fr := fresh (dom (fdtab s))).
  set (fw := fresh ({[fr]} ∪ dom (fdtab s))).
  set (p := fresh (dom (kpipes s))).
  set (hr := fresh (dom (heap s))).
  set (hdr := mkHandle (Some fr) O_RDONLY (getpid s) 1 false).
  set (hw := fresh (dom (<[hr := hdr]> (heap s)))).
  set (hdw := mkHandle (Some fw) O_WRONLY (getpid s) 1 false).
  change (pipe s).2 with
    (mkState (getpid s) (<[hw := hdw]> (<[hr := hdr]> (heap s)))
       ((_all_handles s ++ [hr]) ++ [hw])
       (<[fw := mkFdesc p O_WRONLY]> (<[fr := mkFdesc p O_RDONLY]> (fdtab s)))
       (<[p := mkPipe [] 1 1]> (kpipes s)) (sched s) (io_calls s)).
  assert (Hfr : fdtab s !! fr = None)
    by (apply not_elem_of_dom, is_fresh).
  assert (Hfw : fdtab s !! fw = None ∧ fw ≠ fr).
  { pose proof (is_fresh ({[fr]} ∪ dom (fdtab s))) as Hf. fold fw in Hf.
    split; [apply not_elem_of_dom|]; set_solver. }
  destruct Hfw as [Hfw Hfrw].
  assert (Hhr : heap s !! hr = None)
    by (apply not_elem_of_dom, is_fresh).
  assert (Hhw : heap s !! hw = None ∧ hw ≠ hr).
  { pose proof (is_fresh (dom (<[hr := hdr]> (heap s)))) as Hf. fold hw in Hf.
    rewrite dom_insert_L in Hf.
    split; [apply not_elem_of_dom|]; set_solver. }
  destruct Hhw as [Hhw Hhrw].
  assert (Hold : ∀ h hd, (<[hw := hdw]> (<[hr := hdr]> (heap s))) !! h = Some hd →
            (h = hw ∧ hd = hdw) ∨ (h = hr ∧ hd = hdr)
            ∨ (h ≠ hw ∧ h ≠ hr ∧ heap s !! h = Some hd)).
  { intros h hd Hh. destruct (decide (hw = h)) as [<-|?].
    { rewrite lookup_insert_eq in Hh. left. by injection Hh. }
    rewrite lookup_insert_ne in Hh by done.
    destruct (decide (hr = h)) as [<-|?].
    { rewrite lookup_insert_eq in Hh. right; left. by injection Hh. }
    rewrite lookup_insert_ne in Hh by done. right; right. done. }
  assert (Hregs : ∀ h, h ∈ _all_handles s → h ≠ hr ∧ h ≠ hw).
  { intros h Hin. destruct (wf_registered _ Hwf h Hin) as [hd Hh].
    split; intros ->; congruence. }
  split; simpl.
  - intros h hd Hh Hc.
    destruct (Hold h hd Hh) as [[-> ->]|[[-> ->]|(N1 & N2 & Hh0)]]; try done.
    destruct (wf_closed _ Hwf _ _ Hh0 Hc) as [? Hn]. split; [done|].
    rewrite !elem_of_app, !list_elem_of_singleton. by intros [[?|?]|?].
  - intros h hd Hh Hc.
    destruct (Hold h hd Hh) as [[-> ->]|[[-> ->]|(N1 & N2 & Hh0)]].
    + exists fw. split; [done|]. rewrite lookup_insert_eq. by eexists.
    + exists fr. split; [done|]. rewrite lookup_insert_ne by done.
      rewrite lookup_insert_eq. by eexists.
    + destruct (wf_open _ Hwf _ _ Hh0 Hc) as (fd & Hfd & [d Hd]).
      exists fd. split; [done|].
      rewrite !lookup_insert_ne by (intros <-; congruence). by eexists.
  - intros h1 h2 hd1 hd2 fd H1 H2 F1 F2.
    destruct (Hold h1 hd1 H1) as [[-> ->]|[[-> ->]|(N1 & N2 & Hh1)]];
    destruct (Hold h2 hd2 H2) as [[-> ->]|[[-> ->]|(N3 & N4 & Hh2)]];
      simpl in *; try done; try congruence.
    + destruct (handle_fd_open _ _ _ _ Hwf Hh2 F2) as [d Hd]. congruence.
    + destruct (handle_fd_open _ _ _ _ Hwf Hh2 F2) as [d Hd]. congruence.
    + destruct (handle_fd_open _ _ _ _ Hwf Hh1 F1) as [d Hd]. congruence.
    + destruct (handle_fd_open _ _ _ _ Hwf Hh1 F1) as [d Hd]. congruence.
    + by eapply (wf_fd_inj _ Hwf).
  - apply NoDup_app. split_and!.
    + apply NoDup_app. split_and!; [apply (wf_nodup _ Hwf)| |apply NoDup_singleton].
      intros h Hin Hin'. apply list_elem_of_singleton in Hin'.
      by destruct (Hregs h Hin).
    + intros h Hin Hin'. apply list_elem_of_singleton in Hin'.
      apply elem_of_app in Hin as [Hin|Hin].
      * by destruct (Hregs h Hin).
      * apply list_elem_of_singleton in Hin. congruence.
    + apply NoDup_singleton.
  - intros h Hin. rewrite !elem_of_app, !list_elem_of_singleton in Hin.
    destruct Hin as [[Hin| ->]| ->].
    + destruct (Hregs h Hin). rewrite !lookup_insert_ne by done.
      by apply (wf_registered _ Hwf).
    + rewrite lookup_insert_ne by done. rewrite lookup_insert_eq. by eexists.
    + rewrite lookup_insert_eq. by eexists.
  - intros h hd Hh.
    destruct (Hold h hd Hh) as [[-> ->]|[[-> ->]|(N1 & N2 & Hh0)]]; try done.
    by apply (wf_pid _ Hwf h).
Qed.

(** [pipe] only adds handles. *)
Lemma pipe_frame h hd s :
  heap s !! h = Some hd → heap (pipe s).2 !! h = Some hd.
Proof.
  intros Hh.
  set (hr := fresh (dom (heap s))).
  set (hdr := mkHandle (Some (fresh (dom (fdtab s)))) O_RDONLY (getpid s) 1 false).
  set (hw := fresh (dom (<[hr := hdr]> (heap s)))).
  assert (Hhr : heap s !! hr = None)
    by (apply not_elem_of_dom, is_fresh).
  assert (Hhw : heap s !! hw = None).
  { pose proof (is_fresh (dom (<[hr := hdr]> (heap s)))) as Hf. fold hw in Hf.
    rewrite dom_insert_L in Hf. apply not_elem_of_dom. set_solver. }
  change (heap (pipe s).2) with
    (<[hw := mkHandle (Some (fresh ({[fresh (dom (fdtab s))]} ∪ dom (fdtab s))))
               O_WRONLY (getpid s) 1 false]> (<[hr := hdr]> (heap s))).
  rewrite !lookup_insert_ne by (intros <-; congruence). done.
Qed.

(** The fork touches the kernel pipes only. *)
Lemma os_fork_run s :
  ∃ kps, os_fork s = (Ret tt, set_kpipes (λ _, kps) s).
Proof. eexists. reflexivity. Qed.

(** On POSIX [start_process] is the fork followed by the loop over
    [childhandles]. *)
Lemma start_process_posix a s :
  start_process a s = (os_fork ;; for_each (as_tuple a) close) s.
Proof. reflexivity. Qed.

Lemma set_kpipes_wf f s : wf s → wf (set_kpipes f s).
Proof. intros [? ? ? ? ? ?]. by split. Qed.

Lemma for_each_close_wf hs s : wf s → wf (for_each hs close s).2.
Proof.
  revert s. induction hs as [|h hs IH]; intros s Hwf; [done|]. simpl.
  rewrite bind_run. pose proof (close_wf h s Hwf) as Hwf1.
  destruct (close h s) as [[[]|e| |] s1]; simpl in *; try done.
  by apply IH.
Qed.

Lemma start_process_wf a s : wf s → wf (start_process a s).2.
Proof.
  intros Hwf. rewrite start_process_posix.
  destruct (os_fork_run s) as [kps Hf]. rewrite (bind_ret _ _ _ _ _ Hf).
  by apply for_each_close_wf, set_kpipes_wf.
Qed.

Lemma for_each_close_keeps_closed h hs s :
  wf s → closed_in h s → closed_in h (for_each hs close s).2.
Proof.
  revert s. induction hs as [|h' hs IH]; intros s Hwf Hc; [done|]. simpl.
  rewrite bind_run. pose proof (close_wf h' s Hwf) as Hwf1.
  pose proof (close_keeps_closed h h' s Hwf Hc) as Hc1.
  destruct (close h' s) as [[[]|e| |] s1]; simpl in *; try done.
  by apply IH.
Qed.

(** When the loop over [childhandles] returns, every handle in the
    list is closed. *)
Lemma for_each_close_ret hs s s' :
  wf s → for_each hs close s = (Ret tt, s') →
  ∀ h, h ∈ hs → closed_in h s'.
Proof.
  revert s. induction hs as [|h' hs IH]; intros s Hwf E h Hin.
  { by apply elem_of_nil in Hin. }
  simpl in E. rewrite bind_run in E.
  pose proof (close_wf h' s Hwf) as Hwf1.
  destruct (close h' s) as [[[]|e| |] s1] eqn:Ec; simpl in *; try done.
  apply elem_of_cons in Hin as [->|Hin].
  - pose proof (close_ret_closed _ _ _ Hwf Ec) as Hc.
    pose proof (for_each_close_keeps_closed h' hs s1 Hwf1 Hc) as Hc'.
    by rewrite E in Hc'.
  - by eapply IH.
Qed.

(** The handles that are not in the list are as they were. *)
Lemma for_each_close_frame h hs s :
  wf s → h ∉ hs →
  heap (for_each hs close s).2 !! h = heap s !! h
  ∧ (h ∈ _all_handles s → h ∈ _all_handles (for_each hs close s).2)
  ∧ (∀ hd fd, heap s !! h = Some hd → _fd hd = Some fd →
       fdtab (for_each hs close s).2 !! fd = fdtab s !! fd)
  ∧ getpid (for_each hs close s).2 = getpid s.
Proof.
  revert s. induction hs as [|h' hs IH]; intros s Hwf Hn; [done|].
  apply not_elem_of_cons in Hn as [Hne Hn]. simpl. rewrite bind_run.
  pose proof (close_wf h' s Hwf) as Hwf1.
  destruct (close_frame h h' s Hwf Hne) as (F1 & F2 & F3 & F4).
  destruct (close h' s) as [[[]|e| |] s1]; simpl in *; try done.
  destruct (IH s1 Hwf1 Hn) as (G1 & G2 & G3 & G4).
  split_and!.
  - congruence.
  - auto.
  - intros hd fd Hh Hfd. rewrite <- F1 in Hh.
    rewrite (G3 hd fd Hh Hfd). rewrite F1 in Hh. by eapply F3.
  - congruence.
Qed.

(** ** Every reachable state satisfies the invariant *)

Section Lifecycle.

Context {Obj : Type} `{Pickle Obj}.

Lemma exec_wf c s : wf s → wf (exec c s).
Proof.
  intros Hwf. destruct c as [|h|h o|h|a]; simpl.
  - by apply pipe_wf.
  - eapply wf_locks_only; [apply get_locks_only|done].
  - eapply wf_locks_only; [apply put_locks_only|done].
  - by apply close_wf.
  - by apply start_process_wf.
Qed.

Lemma reachable_wf s : reachable s → wf s.
Proof.
  induction 1 as [s Hh Hr|c s _ IH]; [|by apply exec_wf].
  split; rewrite ?Hh, ?Hr; try done.
  - constructor.
  - intros h Hin. by apply elem_of_nil in Hin.
Qed.

Lemma exec_keeps_closed c h s : wf s → closed_in h s → closed_in h (exec c s).
Proof.
  intros Hwf Hc. destruct c as [|h'|h' o|h'|a]; simpl.
  - destruct Hc as (hd & Hh & Hc). exists hd. split; [|done].
    by apply pipe_frame.
  - by apply (locks_only_closed_in _ _ _ (get_locks_only h' s)).
  - by apply (locks_only_closed_in _ _ _ (put_locks_only h' o s)).
  - by apply close_keeps_closed.
  - rewrite start_process_posix. destruct (os_fork_run s) as [kps Hf].
    rewrite (bind_ret _ _ _ _ _ Hf).
    apply for_each_close_keeps_closed; [by apply set_kpipes_wf|done].
Qed.

End Lifecycle.

(** ** Operations in flight *)

#[global] Instance io_only_reflexive : Reflexive io_only.
Proof. exact io_only_refl. Qed.

#[global] Instance io_only_transitive : Transitive io_only.
Proof. exact io_only_trans. Qed.

(** A critical section that is left waiting, be it for the semaphore
    or inside the I/O of its body, leaves the handle validated and its
    semaphore taken. *)
Lemma with_lock_blocked_in_flight {A} h (body : M A) s s' hd :
  heap s !! h = Some hd → _closed hd = false → getpid s = _legit_pid hd →
  _lock hd ≤ 1 → preserves io_only body →
  with_lock h body s = (Blocked, s') → io_in_flight h s'.
Proof.
  intros Hh Hc Hp Hl Hb E. destruct (_lock hd) as [|n] eqn:Hlock.
  - rewrite (with_lock_taken _ _ _ _ Hh Hlock) in E. injection E as <-.
    by exists hd.
  - assert (n = 0) as -> by lia. unfold with_lock in E.
    rewrite (bind_ret _ _ _ _ _ (acquire_free _ _ _ _ Hh Hlock)) in E.
    unfold finally in E. specialize (Hb (set_heap (insert h (set__lock 0 hd)) s)).
    destruct (body _) as [[a|e| |] s2]; simpl in Hb.
    + destruct (release_acquired _ _ _ _ _ Hh Hlock Hb) as (s3 & Hr & _).
      by rewrite (bind_ret _ _ _ _ _ Hr) in E.
    + destruct (release_acquired _ _ _ _ _ Hh Hlock Hb) as (s3 & Hr & _).
      by rewrite (bind_ret _ _ _ _ _ Hr) in E.
    + injection E as <-. destruct Hb as (Hpid & Hheap & _).
      exists (set__lock 0 hd). rewrite Hheap, Hpid. simpl.
      by rewrite lookup_insert_eq.
    + done.
Qed.

Section In_flight.

Context {Obj : Type} `{Pickle Obj}.

Lemma validated h s hd :
  heap s !! h = Some hd → (_validate_process h s).1 = Ret tt →
  _closed hd = false ∧ getpid s = _legit_pid hd.
Proof.
  intros Hh E. destruct (_closed hd) eqn:Hc.
  { by rewrite (validate_closed _ _ _ Hh Hc) in E. }
  destruct (decide (getpid s = _legit_pid hd)) as [|Hp]; [done|].
  by rewrite (validate_foreign _ _ _ Hh Hc Hp) in E.
Qed.

Lemma validate_returns h s :
  (_validate_process h s).1 ≠ Blocked ∧ (_validate_process h s).1 ≠ Spin.
Proof.
  unfold _validate_process. rewrite bind_run. unfold get_handle.
  destruct (heap s !! h) as [hd|]; [|done].
  destruct (_closed hd); [done|]. rewrite bind_run. cbn.
  by case_bool_decide.
Qed.

(** A [get] that is suspended holds the handle in flight. *)
Lemma get_suspended h s s' hd :
  heap s !! h = Some hd → _lock hd ≤ 1 →
  get (Obj := Obj) h s = (Blocked, s') → io_in_flight h s'.
Proof.
  intros Hh Hl E. unfold get in E. rewrite bind_run in E.
  pose proof (validate_state h s) as Hs.
  pose proof (validated h s hd Hh) as Hv.
  pose proof (validate_returns h s) as [Hv1 Hv2].
  destruct (_validate_process h s) as [[[]|e| |] s1]; simpl in *; subst s1;
    try done.
  destruct Hv as [Hc Hp]; [done|].
  refine (with_lock_blocked_in_flight h _ s s' hd Hh Hc Hp Hl _ E).
  apply (preserves_bind _); [intros ?; apply recv_loop_io_only|]. intros hdr.
  apply (preserves_bind _); [apply (of_option_preserves _)|]. intros msize.
  apply (preserves_bind _); [intros ?; apply recv_loop_io_only|]. intros b.
  by intros ?.
Qed.

Lemma put_suspended h (o : Obj) s s' hd :
  heap s !! h = Some hd → _lock hd ≤ 1 →
  put h o s = (Blocked, s') → io_in_flight h s'.
Proof.
  intros Hh Hl E. unfold put in E. rewrite bind_run in E.
  pose proof (validate_state h s) as Hs.
  pose proof (validated h s hd Hh) as Hv.
  pose proof (validate_returns h s) as [Hv1 Hv2].
  destruct (_validate_process h s) as [[[]|e| |] s1]; simpl in *; subst s1;
    try done.
  destruct Hv as [Hc Hp]; [done|].
  refine (with_lock_blocked_in_flight h _ s s' hd Hh Hc Hp Hl _ E).
  apply (preserves_bind _); [apply (of_option_preserves _)|]. intros hdr.
  apply (preserves_bind _); [intros ?; apply write_loop_io_only|]. intros _.
  intros ?; apply write_loop_io_only.
Qed.

End In_flight.


(** * The claims *)

(** ** C1, C2, C3: the framing *)


Lemma length_dumps_bytes (b : bytes) :
  Z.of_nat (length (dumps b)) = (Z.of_nat (length b) + 1)%Z.
Proof.
  change (dumps b) with (b ++ [x2e]). rewrite length_app. simpl. lia.
Qed.


Section Claims_framing.

Context {Obj : Type} `{Pickle Obj}.




End Claims_framing.





(** The 5001 bytes of the pickle of [long_payload] are not written at
    once: with the oracle of [s_pair], [put] needs eight calls of
    [_WRITE_NB], one for the prefix and seven for the pickle. *)
Example put_long_payload_is_cut :
  io_calls (put 1 Examples.long_payload Examples.s_pair).2 = 8.
Proof. vm_compute. reflexivity. Qed.





(** The frame of "hello" on the wire, and what [get] makes of it. *)
Example get_frame_hello :
  (put 1 Examples.hello Examples.s_pair).2.(kpipes) !! 0
    = Some (mkPipe Examples.frame_hello 1 1)
  ∧ (get (Obj := bytes) 0 (Examples.s_holding Examples.frame_hello 1)).1
    = Ret Examples.hello.
Proof. split; vm_compute; reflexivity. Qed.


(** ** C4, C9: the reading loop *)

(** C4: [_recv_in_buffer h size] with [size > 0] runs as [readExact]
    says. Zero bytes from a read while nothing is collected: EOFError;
    zero bytes after some but fewer than [size] were collected: the
    truncation error (an IOError); otherwise the loop goes on reading
    the remaining count and what it returns has exactly [size] bytes.
    Besides, a result can only be missing because a read itself waits
    or raises, never because the loop ran out of iterations. *)
Theorem recv_in_buffer_cases h size s :
  (0 < size)%Z →
  readExact h size [] s (_recv_in_buffer h size s).1 (_recv_in_buffer h size s).2
  ∧ (∀ buf, (_recv_in_buffer h size s).1 = Ret buf →
            Z.of_nat (length buf) = size)
  ∧ (_recv_in_buffer h size s).1 ≠ Spin.
Proof.
  intros Hsize.
  assert (Hr : readExact h size [] s (_recv_in_buffer h size s).1
                 (_recv_in_buffer h size s).2).
  { unfold _recv_in_buffer. apply recv_loop_readExact; simpl; lia. }
  split_and!.
  - exact Hr.
  - intros buf E. rewrite E in Hr. by eapply readExact_ret_length.
  - unfold _recv_in_buffer. by apply recv_loop_no_spin.
Qed.

Lemma recv_in_buffer_cases_witness :
  readExact 0 4 [] (Examples.s_holding [x00; x00] 0)
    (_recv_in_buffer 0 4 (Examples.s_holding [x00; x00] 0)).1
    (_recv_in_buffer 0 4 (Examples.s_holding [x00; x00] 0)).2
  ∧ (∀ buf, (_recv_in_buffer 0 4 (Examples.s_holding [x00; x00] 0)).1 = Ret buf →
            Z.of_nat (length buf) = 4%Z)
  ∧ (_recv_in_buffer 0 4 (Examples.s_holding [x00; x00] 0)).1 ≠ Spin.
Proof.
  apply (recv_in_buffer_cases 0 4 (Examples.s_holding [x00; x00] 0)). lia.
Defined.

(** The three outcomes on concrete pipes whose writer is gone: nothing
    pending, two of four bytes pending, five bytes pending. *)
Example recv_eof :
  (_recv_in_buffer 0 4 (Examples.s_holding [] 0)).1 = Raise PeerClosedError.
Proof. reflexivity. Qed.

Example recv_truncated :
  (_recv_in_buffer 0 4 (Examples.s_holding [x00; x00] 0)).1
  = Raise TruncatedMessageError.
Proof. reflexivity. Qed.

Example get_after_writer_closed :
  (get (Obj := bytes) 0 Examples.s_writer_closed).1 = Raise PeerClosedError.
Proof. vm_compute. reflexivity. Qed.

Example get_writer_closed_mid_frame :
  (get (Obj := bytes) 0
     (Examples.s_holding [x00; x00; x00; x05; x68; x65] 0)).1
  = Raise TruncatedMessageError.
Proof. vm_compute. reflexivity. Qed.

Example recv_exact :
  (_recv_in_buffer 0 4 (Examples.s_holding Examples.hello 0)).1
  = Ret [x68; x65; x6c; x6c].
Proof. reflexivity. Qed.

(** C9: [_recv_in_buffer h 0] returns the empty buffer in every state
    and leaves the state as it is; in particular no call of [_READ_NB]
    is counted, and the result is the same where a read would report
    end of file. *)
Theorem recv_in_buffer_zero h s :
  _recv_in_buffer h 0 s = (Ret [], s)
  ∧ io_calls (_recv_in_buffer h 0 s).2 = io_calls s.
Proof. split; reflexivity. Qed.

Example recv_zero_at_eof :
  (_READ_NB (Some 0) 1 (Examples.s_holding [] 0)).1 = Ret []
  ∧ (_recv_in_buffer 0 1 (Examples.s_holding [] 0)).1 = Raise PeerClosedError
  ∧ (_recv_in_buffer 0 0 (Examples.s_holding [] 0)).1 = Ret [].
Proof. split_and!; reflexivity. Qed.

(** ** C5, C8, C10: validation and the semaphore *)

(** C5: [close()] on a handle whose semaphore is held by a [get] or
    [put] in flight raises the handle-locked error at once; the state
    it leaves is the state it found. *)
Theorem close_contended h s :
  io_in_flight h s → close h s = (Raise HandleLockedError, s).
Proof.
  intros (hd & Hh & Hc & Hp & Hl). by eapply close_locked.
Qed.

Section Claims_validation.

Context {Obj : Type} `{Pickle Obj}.

(** C10: on a handle that is closed and registered for another
    process, [get], [put] and [close] raise the closed-handle error,
    not the cross-process one. *)
Theorem closed_check_first h (o : Obj) s hd :
  heap s !! h = Some hd → _closed hd = true → getpid s ≠ _legit_pid hd →
  get (Obj := Obj) h s = (Raise HandleClosedError, s)
  ∧ put h o s = (Raise HandleClosedError, s)
  ∧ close h s = (Raise HandleClosedError, s)
  ∧ HandleClosedError ≠ CrossProcessUseError.
Proof.
  intros Hh Hc _.
  pose proof (validate_closed _ _ _ Hh Hc) as Hv.
  split_and!.
  - by apply get_invalid.
  - by apply put_invalid.
  - by apply close_invalid.
  - done.
Qed.

(** C8 (amended): [get] and [put] validate the handle first and take
    the semaphore afterwards. On a closed handle, or one registered
    for another process, they raise at once and leave the state alone,
    whether the semaphore is free or taken; only a call that passes the
    validation waits for a semaphore that is taken. *)
Theorem validation_before_lock h (o : Obj) s hd :
  heap s !! h = Some hd →
  (_closed hd = true →
     get (Obj := Obj) h s = (Raise HandleClosedError, s)
     ∧ put h o s = (Raise HandleClosedError, s))
  ∧ (_closed hd = false → getpid s ≠ _legit_pid hd →
     get (Obj := Obj) h s = (Raise CrossProcessUseError, s)
     ∧ put h o s = (Raise CrossProcessUseError, s))
  ∧ (_closed hd = false → getpid s = _legit_pid hd → _lock hd = 0 →
     get (Obj := Obj) h s = (Blocked, s) ∧ put h o s = (Blocked, s)).
Proof.
  intros Hh. split_and!.
  - intros Hc. pose proof (validate_closed _ _ _ Hh Hc).
    split; [by apply get_invalid|by apply put_invalid].
  - intros Hc Hp. pose proof (validate_foreign _ _ _ Hh Hc Hp).
    split; [by apply get_invalid|by apply put_invalid].
  - intros Hc Hp Hl. pose proof (validate_ok _ _ _ Hh Hc Hp) as Hv.
    unfold get, put. rewrite !(bind_ret _ _ _ _ _ Hv).
    split; by eapply with_lock_taken.
Qed.

End Claims_validation.

Lemma close_contended_witness :
  close 0 Examples.s_get_suspended
  = (Raise HandleLockedError, Examples.s_get_suspended).
Proof.
  apply (close_contended 0 Examples.s_get_suspended).
  apply (get_suspended (Obj := bytes) 0 Examples.s_pair
           Examples.s_get_suspended (mkHandle (Some 0) O_RDONLY 100 1 false)).
  - reflexivity.
  - simpl. lia.
  - vm_compute. reflexivity.
Defined.

Lemma closed_check_first_witness :
  get (Obj := bytes) 1 Examples.s_closed_foreign
    = (Raise HandleClosedError, Examples.s_closed_foreign)
  ∧ put 1 Examples.hello Examples.s_closed_foreign
    = (Raise HandleClosedError, Examples.s_closed_foreign)
  ∧ close 1 Examples.s_closed_foreign
    = (Raise HandleClosedError, Examples.s_closed_foreign)
  ∧ HandleClosedError ≠ CrossProcessUseError.
Proof.
  apply (closed_check_first 1 Examples.hello Examples.s_closed_foreign
           (mkHandle None O_WRONLY 300 1 true)).
  - reflexivity.
  - reflexivity.
  - simpl. lia.
Defined.

Lemma validation_before_lock_witness :
  (false = true →
     get (Obj := bytes) 0 Examples.s_forked
       = (Raise HandleClosedError, Examples.s_forked)
     ∧ put 0 Examples.hello Examples.s_forked
       = (Raise HandleClosedError, Examples.s_forked))
  ∧ (false = false → (200 ≠ 100)%Z →
     get (Obj := bytes) 0 Examples.s_forked
       = (Raise CrossProcessUseError, Examples.s_forked)
     ∧ put 0 Examples.hello Examples.s_forked
       = (Raise CrossProcessUseError, Examples.s_forked))
  ∧ (false = false → (200 = 100)%Z → 0 = 0 →
     get (Obj := bytes) 0 Examples.s_forked
       = (Blocked, Examples.s_forked)
     ∧ put 0 Examples.hello Examples.s_forked
       = (Blocked, Examples.s_forked)).
Proof.
  apply (validation_before_lock 0 Examples.hello Examples.s_forked
           (mkHandle (Some 0) O_RDONLY 100 0 false)).
  reflexivity.
Defined.

(** C8 as stated fails: reader 0 of [s_forked] has its semaphore taken
    and is registered for another process; [get] and [put] on it raise
    at once, in the unchanged state, instead of waiting for the
    semaphore. *)
Lemma lock_before_validation_counterexample :
  heap Examples.s_forked !! 0
    = Some (mkHandle (Some 0) O_RDONLY 100 0 false)
  ∧ getpid Examples.s_forked = 200%Z
  ∧ get (Obj := bytes) 0 Examples.s_forked
    = (Raise CrossProcessUseError, Examples.s_forked)
  ∧ put 0 Examples.hello Examples.s_forked
    = (Raise CrossProcessUseError, Examples.s_forked)
  ∧ (get (Obj := bytes) 0 Examples.s_forked).1 ≠ Blocked.
Proof. split_and!; done. Qed.

(** ** C6, C7: the life cycle of handles *)

Section Claims_lifecycle.

Context {Obj : Type} `{Pickle Obj}.

(** C6: in every state the process can reach, a handle that is closed
    has no descriptor and is not in [_all_handles]; [get], [put] and
    [close] on it raise the closed-handle error and change nothing;
    and it is still closed after any further operation, so the flag
    goes from false to true at most once. The flag of an open handle
    is set by nothing but a [close] of this handle that returns,
    called directly or by [start_process] on one of its
    [childhandles]. *)
Theorem closed_once s h hd :
  reachable s → heap s !! h = Some hd →
  (_closed hd = true →
     (_fd hd = None ∧ h ∉ _all_handles s)
     ∧ (get (Obj := Obj) h s = (Raise HandleClosedError, s)
        ∧ (∀ o : Obj, put h o s = (Raise HandleClosedError, s))
        ∧ close h s = (Raise HandleClosedError, s))
     ∧ ∀ c, closed_in h (exec c s))
  ∧ (_closed hd = false →
     ∀ c, closed_in h (exec c s) →
       (c = Close h ∧ close h s = (Ret tt, exec c s))
       ∨ (∃ a, c = StartProcess a ∧ h ∈ as_tuple a)).
Proof.
  intros Hreach Hh. pose proof (reachable_wf s Hreach) as Hwf. split.
  - intros Hc. pose proof (validate_closed _ _ _ Hh Hc) as Hv. split_and!.
    + by apply (wf_closed _ Hwf h hd).
    + by apply (wf_closed _ Hwf h hd).
    + by apply get_invalid.
    + intros o. by apply put_invalid.
    + by apply close_invalid.
    + intros c. apply exec_keeps_closed; [done|]. by exists hd.
  - intros Hc c (hd' & Hh' & Hc').
    assert (Hopen : ¬ closed_in h s).
    { intros (hd0 & Hh0 & Hc0). congruence. }
    destruct c as [|h'|h' o|h'|a]; cbn [exec] in *.
    + rewrite (pipe_frame _ _ _ Hh) in Hh'. congruence.
    + exfalso. apply Hopen.
      apply (locks_only_closed_in _ _ _ (get_locks_only h' s)). by exists hd'.
    + exfalso. apply Hopen.
      apply (locks_only_closed_in _ _ _ (put_locks_only h' o s)). by exists hd'.
    + left. destruct (decide (h = h')) as [<-|Hne].
      * split; [done|].
        destruct (close_cases h s Hwf) as [[e E]|(?&?&?&_&_&_&_&E)];
          rewrite E in Hh' |- *; simpl in *; [congruence|done].
      * destruct (close_frame h h' s Hwf Hne) as (F1 & _). congruence.
    + right. exists a. split; [done|].
      destruct (decide (h ∈ as_tuple a)) as [Hin|Hn]; [done|]. exfalso.
      rewrite start_process_posix in Hh'. destruct (os_fork_run s) as [kps Hf].
      rewrite (bind_ret _ _ _ _ _ Hf) in Hh'.
      destruct (for_each_close_frame h (as_tuple a) (set_kpipes (λ _, kps) s)
                  (set_kpipes_wf _ _ Hwf) Hn) as (F1 & _).
      simpl in F1. congruence.
Qed.

(** C7: when [start_process] returns in the parent, every handle in
    [childhandles] is closed there, and [get], [put] and [close] on it
    raise the closed-handle error; every handle of [_all_handles] that
    is not in [childhandles] is the same object as before, still
    registered, passes the validation, and its descriptor is open as
    before. *)
Theorem start_process_handoff s a s' :
  reachable s → start_process a s = (Ret tt, s') →
  (∀ h, h ∈ as_tuple a →
     closed_in h s'
     ∧ get (Obj := Obj) h s' = (Raise HandleClosedError, s')
     ∧ (∀ o : Obj, put h o s' = (Raise HandleClosedError, s'))
     ∧ close h s' = (Raise HandleClosedError, s'))
  ∧ (∀ h, h ∈ _all_handles s → h ∉ as_tuple a →
     heap s' !! h = heap s !! h
     ∧ h ∈ _all_handles s'
     ∧ _validate_process h s' = (Ret tt, s')
     ∧ (∀ hd fd, heap s !! h = Some hd → _fd hd = Some fd →
          fdtab s' !! fd = fdtab s !! fd)).
Proof.
  intros Hreach E. pose proof (reachable_wf s Hreach) as Hwf.
  rewrite start_process_posix in E. destruct (os_fork_run s) as [kps Hf].
  rewrite (bind_ret _ _ _ _ _ Hf) in E.
  set (s1 := set_kpipes (λ _, kps) s) in *.
  assert (Hwf1 : wf s1) by by apply set_kpipes_wf.
  split.
  - intros h Hin.
    destruct (for_each_close_ret _ _ _ Hwf1 E h Hin) as (hd' & Hh' & Hc').
    pose proof (validate_closed _ _ _ Hh' Hc') as Hv. split_and!.
    + by exists hd'.
    + by apply get_invalid.
    + intros o. by apply put_invalid.
    + by apply close_invalid.
  - intros h Hin Hn.
    destruct (for_each_close_frame h (as_tuple a) s1 Hwf1 Hn)
      as (F1 & F2 & F3 & F4).
    rewrite E in F1, F2, F3, F4. simpl in *. split_and!; try done.
    + by apply F2.
    + destruct (wf_registered _ Hwf h Hin) as [hd Hh].
      destruct (_closed hd) eqn:Hc.
      { by destruct (wf_closed _ Hwf _ _ Hh Hc). }
      rewrite <- F1 in Hh. apply (validate_ok _ _ _ Hh Hc).
      rewrite F4. rewrite F1 in Hh. symmetry. by apply (wf_pid _ Hwf h).
Qed.

End Claims_lifecycle.

Lemma s_pair_reachable : reachable (Obj := bytes) Examples.s_pair.
Proof.
  exact (reachable_step Pipe Examples.s_init
           (reachable_start Examples.s_init eq_refl eq_refl)).
Qed.

Lemma closed_once_witness :
  (_fd (mkHandle None O_WRONLY 100 1 true) = None
   ∧ 1 ∉ _all_handles Examples.s_writer_closed)
  ∧ (get (Obj := bytes) 1 Examples.s_writer_closed
       = (Raise HandleClosedError, Examples.s_writer_closed)
     ∧ (∀ o : bytes, put 1 o Examples.s_writer_closed
                     = (Raise HandleClosedError, Examples.s_writer_closed))
     ∧ close 1 Examples.s_writer_closed
       = (Raise HandleClosedError, Examples.s_writer_closed))
  ∧ ∀ c : op bytes, closed_in 1 (exec (Obj := bytes) c Examples.s_writer_closed).
Proof.
  refine (proj1 (closed_once (Obj := bytes) Examples.s_writer_closed 1
                   (mkHandle None O_WRONLY 100 1 true) _ _) eq_refl).
  - exact (reachable_step (Close 1) Examples.s_pair s_pair_reachable).
  - reflexivity.
Defined.

Lemma start_process_handoff_witness :
  (∀ h, h ∈ [0; 3] →
     closed_in h Examples.s_handed_off
     ∧ get (Obj := bytes) h Examples.s_handed_off
       = (Raise HandleClosedError, Examples.s_handed_off)
     ∧ (∀ o : bytes, put h o Examples.s_handed_off
                     = (Raise HandleClosedError, Examples.s_handed_off))
     ∧ close h Examples.s_handed_off
       = (Raise HandleClosedError, Examples.s_handed_off))
  ∧ (∀ h, h ∈ [0; 1; 2; 3] → h ∉ [0; 3] →
     heap Examples.s_handed_off !! h = heap Examples.s_two_pipes !! h
     ∧ h ∈ _all_handles Examples.s_handed_off
     ∧ _validate_process h Examples.s_handed_off
       = (Ret tt, Examples.s_handed_off)
     ∧ (∀ hd fd, heap Examples.s_two_pipes !! h = Some hd → _fd hd = Some fd →
          fdtab Examples.s_handed_off !! fd
          = fdtab Examples.s_two_pipes !! fd)).
Proof.
  apply (start_process_handoff (Obj := bytes) Examples.s_two_pipes
           (Several [0; 3]) Examples.s_handed_off).
  - exact (reachable_step Pipe Examples.s_pair s_pair_reachable).
  - vm_compute. reflexivity.
Defined.

(** * Further properties of the code *)

(** ** Leaving the critical section *)

Lemma with_lock_exit {A} h (body : M A) s :
  preserves io_only body →
  exited (with_lock h body s).1 → io_only s (with_lock h body s).2.
Proof.
  intros Hb. unfold with_lock. rewrite bind_run.
  destruct (heap s !! h) as [hd|] eqn:Hh; cycle 1.
  { unfold acquire, try_acquire. rewrite !bind_run. unfold get_handle.
    rewrite Hh. intros _. apply io_only_refl. }
  destruct (_lock hd) as [|n] eqn:Hl.
  { by rewrite (acquire_taken _ _ _ Hh Hl). }
  rewrite (acquire_free _ _ _ _ Hh Hl). unfold finally.
  specialize (Hb (set_heap (insert h (set__lock n hd)) s)).
  destruct (body _) as [[a|e| |] s2]; simpl in Hb; try done.
  - destruct (release_acquired _ _ _ _ _ Hh Hl Hb) as (s3 & Hr & Hio & _).
    by rewrite (bind_ret _ _ _ _ _ Hr).
  - destruct (release_acquired _ _ _ _ _ Hh Hl Hb) as (s3 & Hr & Hio & _).
    by rewrite (bind_ret _ _ _ _ _ Hr).
Qed.

Section Exits.

Context {Obj : Type} `{Pickle Obj}.

Lemma get_body_io_only h :
  preserves io_only
    (hdr ← _recv_in_buffer h 4;
     msize ← of_option StructError (struct.unpack_i hdr);
     bindata ← _recv_in_buffer h msize;
     of_sum (loads (Obj := Obj) bindata)).
Proof.
  apply (preserves_bind _); [intros ?; apply recv_loop_io_only|]. intros hdr.
  apply (preserves_bind _); [apply (of_option_preserves _)|]. intros msize.
  apply (preserves_bind _); [intros ?; apply recv_loop_io_only|]. intros b.
  by intros ?.
Qed.

Lemma put_body_io_only h (o : Obj) :
  preserves io_only
    (let bindata := dumps o in
     hdr ← of_option StructError
             (struct.pack_i (Z.of_nat (length bindata)));
     _write h hdr ;; _write h bindata).
Proof.
  cbv zeta.
  apply (preserves_bind _); [apply (of_option_preserves _)|]. intros hdr.
  apply (preserves_bind _); [intros ?; apply write_loop_io_only|]. intros _.
  intros ?; apply write_loop_io_only.
Qed.

Lemma get_exit h s :
  exited (get (Obj := Obj) h s).1 → io_only s (get (Obj := Obj) h s).2.
Proof.
  unfold get. rewrite bind_run. pose proof (validate_state h s) as Hs.
  destruct (_validate_process h s) as [[[]|e| |] s1]; simpl in Hs; subst s1;
    try done.
  apply with_lock_exit, get_body_io_only.
Qed.

Lemma put_exit h (o : Obj) s :
  exited (put h o s).1 → io_only s (put h o s).2.
Proof.
  unfold put. rewrite bind_run. pose proof (validate_state h s) as Hs.
  destruct (_validate_process h s) as [[[]|e| |] s1]; simpl in Hs; subst s1;
    try done.
  apply with_lock_exit, put_body_io_only.
Qed.

(** X1: when [get] or [put] returns or raises, whatever the reason,
    every handle object is what it was before the call, the counter of
    its semaphore included: the [with self._lock] block gives the
    semaphore back on every way out. The pid, [_all_handles] and the
    descriptor table are unchanged as well. *)
Theorem lock_released_on_exit h (o : Obj) s :
  (exited (get (Obj := Obj) h s).1 → io_only s (get (Obj := Obj) h s).2)
  ∧ (exited (put h o s).1 → io_only s (put h o s).2).
Proof. split; [apply get_exit|apply put_exit]. Qed.

(** ** The end of the stream *)

Lemma get_header_short r p s kp :
  endpoint r O_RDONLY p s → kpipes s !! p = Some kp →
  length (content kp) < 4 →
  (get (Obj := Obj) r s).1
  = if Nat.eqb (writers kp) 0
    then Raise (match content kp with
                | [] => PeerClosedError
                | _ => TruncatedMessageError
                end)
    else Blocked.
Proof.
  intros (hd & fd & Hh & Hc & Hpid & Hl & Hfd & Hd) Hp Hlen.
  set (s1 := set_heap (insert r (set__lock 0 hd)) s).
  assert (Hh1 : heap s1 !! r = Some (set__lock 0 hd))
    by (simpl; by rewrite lookup_insert_eq).
  pose proof (_recv_short r _ fd p 4 s1 kp Hh1 Hfd Hd Hp Hlen) as Hrecv.
  unfold get. rewrite (bind_ret _ _ _ _ _ (validate_ok _ _ _ Hh Hc Hpid)).
  unfold with_lock. rewrite (bind_ret _ _ _ _ _ (acquire_free _ _ _ _ Hh Hl)).
  fold s1. unfold finally. rewrite bind_run.
  destruct (_recv_in_buffer r 4 s1) as [[a|e| |] s2] eqn:E; simpl in Hrecv;
    destruct (writers kp =? 0); try done.
  injection Hrecv as ->.
  pose proof (recv_loop_io_only (Z.to_nat 4) r 4 4 [] s1) as Hio.
  unfold _recv_in_buffer in E. rewrite E in Hio. simpl in Hio.
  destruct (release_acquired _ _ _ _ _ Hh Hl Hio) as (s3 & Hr & _).
  by rewrite (bind_ret _ _ _ _ _ Hr).
Qed.

Lemma get_payload_short r p s kp b0 b1 b2 b3 rest msize :
  endpoint r O_RDONLY p s → kpipes s !! p = Some kp →
  content kp = b0 :: b1 :: b2 :: b3 :: rest →
  struct.unpack_i [b0; b1; b2; b3] = Some msize →
  length rest < Z.to_nat msize →
  (get (Obj := Obj) r s).1
  = if Nat.eqb (writers kp) 0
    then Raise (match rest with
                | [] => PeerClosedError
                | _ => TruncatedMessageError
                end)
    else Blocked.
Proof.
  intros (hd & fd & Hh & Hc & Hpid & Hl & Hfd & Hd) Hp Hcont Hunpack Hlen.
  set (s1 := set_heap (insert r (set__lock 0 hd)) s).
  assert (Hh1 : heap s1 !! r = Some (set__lock 0 hd))
    by (simpl; by rewrite lookup_insert_eq).
  destruct (_recv_takes r _ fd p 4 s1 kp Hh1 Hfd Hd Hp)
    as (s2 & Hr1 & Hio1 & Hk1).
  { rewrite Hcont. simpl. lia. }
  rewrite Hcont in Hr1. change (take (Z.to_nat 4) (b0 :: b1 :: b2 :: b3 :: rest))
    with ([b0; b1; b2; b3] ++ take 0 rest) in Hr1.
  rewrite take_0, app_nil_r in Hr1.
  assert (Hh2 : heap s2 !! r = Some (set__lock 0 hd))
    by (destruct Hio1 as (_ & -> & _); done).
  assert (Hd2 : fdtab s2 !! fd = Some (mkFdesc p O_RDONLY))
    by (destruct Hio1 as (_ & _ & _ & ->); done).
  assert (Hp2 : kpipes s2 !! p = Some (kp_consume (Z.to_nat 4) kp))
    by (rewrite Hk1; apply lookup_insert_eq).
  assert (Hc2 : content (kp_consume (Z.to_nat 4) kp) = rest).
  { simpl. by rewrite Hcont. }
  pose proof (_recv_short r _ fd p msize s2 _ Hh2 Hfd Hd2 Hp2) as Hrecv.
  rewrite Hc2 in Hrecv. specialize (Hrecv Hlen).
  change (writers (kp_consume (Z.to_nat 4) kp)) with (writers kp) in Hrecv.
  unfold get. rewrite (bind_ret _ _ _ _ _ (validate_ok _ _ _ Hh Hc Hpid)).
  unfold with_lock. rewrite (bind_ret _ _ _ _ _ (acquire_free _ _ _ _ Hh Hl)).
  fold s1. unfold finally. rewrite (bind_ret _ _ _ _ _ Hr1), Hunpack.
  unfold of_option. rewrite bind_run. unfold mret, M_ret. rewrite bind_run.
  destruct (_recv_in_buffer r msize s2) as [[a|e| |] s3] eqn:E; simpl in Hrecv;
    destruct (writers kp =? 0); try done.
  injection Hrecv as ->.
  pose proof (recv_loop_io_only (Z.to_nat msize) r msize msize [] s2) as Hio.
  unfold _recv_in_buffer in E. rewrite E in Hio. simpl in Hio.
  assert (Hio3 : io_only s1 s3) by (eapply io_only_trans; eauto).
  destruct (release_acquired _ _ _ _ _ Hh Hl Hio3) as (s4 & Hr & _).
  by rewrite (bind_ret _ _ _ _ _ Hr).
Qed.

(** X2: [get] on a pipe that no writer holds open any more and that
    contains fewer than the four bytes of a length prefix: with no byte
    at all it raises EOFError, with one to three bytes the truncation
    error (an IOError). Either way the handle and its semaphore are as
    they were before the call. *)
Theorem get_end_of_stream r p s kp :
  endpoint r O_RDONLY p s → kpipes s !! p = Some kp → writers kp = 0 →
  length (content kp) < 4 →
  (get (Obj := Obj) r s).1
  = Raise (match content kp with
           | [] => PeerClosedError
           | _ => TruncatedMessageError
           end)
  ∧ io_only s (get (Obj := Obj) r s).2.
Proof.
  intros Hr Hp Hw Hlen.
  pose proof (get_header_short r p s kp Hr Hp Hlen) as E. rewrite Hw in E.
  simpl in E. split; [exact E|]. apply get_exit. by rewrite E.
Qed.

(** X3: [get] on a pipe that no writer holds open any more and that
    starts with a complete length prefix announcing more bytes than
    follow. When some of the payload is there the truncation error is
    raised; when the pipe ends right after the prefix, the second
    [_recv_in_buffer] reads zero bytes at its first attempt and the
    error is EOFError, although a message had been started. *)
Theorem get_cut_inside_frame r p s kp b0 b1 b2 b3 rest msize :
  endpoint r O_RDONLY p s → kpipes s !! p = Some kp → writers kp = 0 →
  content kp = b0 :: b1 :: b2 :: b3 :: rest →
  struct.unpack_i [b0; b1; b2; b3] = Some msize →
  length rest < Z.to_nat msize →
  (get (Obj := Obj) r s).1
  = Raise (match rest with
           | [] => PeerClosedError
           | _ => TruncatedMessageError
           end)
  ∧ io_only s (get (Obj := Obj) r s).2.
Proof.
  intros Hr Hp Hw Hcont Hun Hlen.
  pose proof (get_payload_short r p s kp b0 b1 b2 b3 rest msize
                Hr Hp Hcont Hun Hlen) as E.
  rewrite Hw in E. simpl in E. split; [exact E|]. apply get_exit. by rewrite E.
Qed.

(** X4: as long as some process holds the writing end open, a [get]
    that finds less than a whole frame in the pipe neither returns nor
    raises: it waits, holding the semaphore of its handle, so that a
    [close] of the handle now raises the handle-locked error. *)
Theorem get_waits_for_writer r p s kp :
  endpoint r O_RDONLY p s → kpipes s !! p = Some kp → writers kp ≠ 0 →
  length (content kp) < 4 →
  (get (Obj := Obj) r s).1 = Blocked
  ∧ io_in_flight r (get (Obj := Obj) r s).2
  ∧ (close r (get (Obj := Obj) r s).2).1 = Raise HandleLockedError.
Proof.
  intros Hr Hp Hw Hlen.
  pose proof (get_header_short r p s kp Hr Hp Hlen) as E.
  destruct (writers kp) as [|n] eqn:Hn; [done|]. simpl in E.
  assert (Hfl : io_in_flight r (get (Obj := Obj) r s).2).
  { destruct Hr as (hd & fd & Hh & Hc & Hpid & Hl & Hfd & Hd).
    apply (get_suspended r s _ hd Hh); [lia|].
    rewrite <- E. apply surjective_pairing. }
  split_and!; [done..|].
  destruct Hfl as (hd' & Hh' & Hc' & Hp' & Hl').
  by rewrite (close_locked _ _ _ Hh' Hc' Hp' Hl').
Qed.

End Exits.

(** ** [pipe] *)

(** X5: [pipe()] always returns. Its two handles are objects that did
    not exist before and differ from one another; they are the open
    reading and writing ends of one new, empty pipe, registered for
    the calling process with their semaphores free; they are appended
    to [_all_handles], reader first; the handles that existed are
    untouched. *)
Theorem pipe_creates s :
  ∃ r w s',
    pipe s = (Ret (r, w), s')
    ∧ r ≠ w ∧ heap s !! r = None ∧ heap s !! w = None
    ∧ pipe_pair r w [] s'
    ∧ _all_handles s' = _all_handles s ++ [r; w]
    ∧ ∀ h hd, heap s !! h = Some hd → heap s' !! h = Some hd.
Proof.
  destruct (pipe_paired s) as (r & w & s' & E & Hpair).
  exists r, w, s'. split; [exact E|].
  set (hr := fresh (dom (heap s))).
  set (hdr := mkHandle (Some (fresh (dom (fdtab s)))) O_RDONLY (getpid s) 1 false).
  set (hw := fresh (dom (<[hr := hdr]> (heap s)))).
  assert (Hhr : heap s !! hr = None)
    by (apply not_elem_of_dom, is_fresh).
  assert (Hhw : heap s !! hw = None ∧ hw ≠ hr).
  { pose proof (is_fresh (dom (<[hr := hdr]> (heap s)))) as Hf. fold hw in Hf.
    rewrite dom_insert_L in Hf.
    split; [apply not_elem_of_dom|]; set_solver. }
  set (sp := (pipe s).2).
  assert (E' : pipe s = (Ret (hr, hw), sp)) by reflexivity.
  rewrite E' in E.
  assert (Er : r = hr) by congruence.
  assert (Ew : w = hw) by congruence.
  assert (Es : s' = sp) by congruence.
  rewrite Er, Ew, Es in *. clear Er Ew Es E.
  destruct Hhw as [Hhw Hne].
  split_and!.
  - intros E. by apply Hne.
  - exact Hhr.
  - exact Hhw.
  - exact Hpair.
  - symmetry. exact (app_assoc (_all_handles s) [hr] [hw]).
  - intros h hd Hh. by apply pipe_frame.
Qed.

(** ** Bytes through a pipe *)


(** ** [close] *)

(** X7: [close()] on an open handle of the calling process whose
    semaphore is free returns; the handle is then marked closed, has
    lost its descriptor and has its semaphore free again; its
    descriptor is closed, so that the pipe has one holder less on this
    end; the handle is gone from [_all_handles]; every other handle is
    as before. *)
Theorem close_effect h flag p s :
  endpoint h flag p s →
  ∃ s' fd hd,
    close h s = (Ret tt, s')
    ∧ heap s !! h = Some hd ∧ _fd hd = Some fd
    ∧ heap s' !! h = Some (mkHandle None (_fd_flag hd) (_legit_pid hd) 1 true)
    ∧ fdtab s' = delete fd (fdtab s)
    ∧ kpipes s' = alter (kp_close flag) p (kpipes s)
    ∧ _all_handles s' = remove_first h (_all_handles s)
    ∧ ∀ h', h' ≠ h → heap s' !! h' = heap s !! h'.
Proof.
  intros (hd & fd & Hh & Hc & Hpid & Hl & Hfd & Hd).
  exists (closed_state h hd fd (mkFdesc p flag) s), fd, hd.
  split_and!; try done.
  - by eapply close_ok.
  - simpl. by rewrite lookup_insert_eq, Hl.
  - intros h' Hne. simpl. by rewrite lookup_insert_ne.
Qed.

Lemma close_other_end h h' flag flag' p s :
  endpoint h flag p s → endpoint h' flag' p s → flag ≠ flag' →
  ∃ s', close h s = (Ret tt, s') ∧ endpoint h' flag' p s'
      ∧ kpipes s' = alter (kp_close flag) p (kpipes s).
Proof.
  intros (hd & fd & Hh & Hc & Hpid & Hl & Hfd & Hd)
         (hd' & fd' & Hh' & Hc' & Hpid' & Hl' & Hfd' & Hd') Hne.
  assert (Hfds : fd ≠ fd') by (intros ->; congruence).
  assert (Hhs : h ≠ h') by (intros ->; congruence).
  exists (closed_state h hd fd (mkFdesc p flag) s). split_and!.
  - by eapply close_ok.
  - exists hd', fd'. simpl. rewrite lookup_insert_ne by done.
    rewrite lookup_delete_ne by done. done.
  - done.
Qed.

(** [close] when [os.close] fails. *)
Lemma close_os_close_fails h s hd fd n :
  heap s !! h = Some hd → _closed hd = false → getpid s = _legit_pid hd →
  _lock hd = S n → _fd hd = Some fd → fdtab s !! fd = None →
  close h s
  = (Raise (OSError EBADF),
     set_heap (insert h (mkHandle (Some fd) (_fd_flag hd) (_legit_pid hd) n true)) s).
Proof.
  intros Hh Hc Hp Hl Hfd Hd. unfold close.
  rewrite (bind_ret _ _ _ _ _ (validate_ok _ _ _ Hh Hc Hp)).
  rewrite (bind_ret _ _ _ _ _ (try_acquire_free _ _ _ _ Hh Hl)).
  cbn [negb].
  set (s1 := set_heap (insert h (set__lock n hd)) s).
  assert (Hh1 : heap s1 !! h = Some (set__lock n hd))
    by (simpl; apply lookup_insert_eq).
  rewrite (bind_ret _ _ _ _ _ (modify_handle_run _ _ _ _ Hh1)).
  set (s2 := set_heap (insert h (set__closed true (set__lock n hd))) s1).
  assert (Hh2 : heap s2 !! h = Some (set__closed true (set__lock n hd)))
    by (simpl; apply lookup_insert_eq).
  rewrite (bind_ret _ _ _ _ _ (get_handle_run _ _ _ Hh2)).
  cbn [_fd set__closed set__lock]. rewrite Hfd.
  assert (Hos : os_close fd s2 = (Raise (OSError EBADF), s2)).
  { unfold os_close. simpl. by rewrite Hd. }
  rewrite bind_run. rewrite (bind_raise _ _ _ _ _ Hos). f_equal.
  unfold s2, s1, set_heap, set__closed, set__lock. simpl.
  by rewrite insert_insert_eq, Hfd.
Qed.

(** X8: [close()] has no [try ... finally]. When [os.close] raises
    (the descriptor of the handle is not open any more), the OSError
    leaves [close()] after the handle was marked closed and before
    anything else was done: the handle keeps its descriptor number and
    its place in [_all_handles], and its semaphore stays taken. From
    then on [get], [put] and [close] on it raise the closed-handle
    error. *)
Theorem close_os_error {Obj : Type} `{Pickle Obj} h (o : Obj) s hd fd n :
  heap s !! h = Some hd → _closed hd = false → getpid s = _legit_pid hd →
  _lock hd = S n → _fd hd = Some fd → fdtab s !! fd = None →
  ∃ s',
    close h s = (Raise (OSError EBADF), s')
    ∧ heap s' !! h
      = Some (mkHandle (Some fd) (_fd_flag hd) (_legit_pid hd) n true)
    ∧ _all_handles s' = _all_handles s
    ∧ close h s' = (Raise HandleClosedError, s')
    ∧ get (Obj := Obj) h s' = (Raise HandleClosedError, s')
    ∧ put h o s' = (Raise HandleClosedError, s').
Proof.
  intros Hh Hc Hp Hl Hfd Hd. eexists. split.
  { by apply (close_os_close_fails h s hd fd n). }
  set (s' := set_heap _ s).
  assert (Hh' : heap s' !! h
                = Some (mkHandle (Some fd) (_fd_flag hd) (_legit_pid hd) n true))
    by (simpl; apply lookup_insert_eq).
  pose proof (validate_closed _ _ _ Hh' eq_refl) as Hv.
  split_and!; try done.
  - by apply close_invalid.
  - by apply get_invalid.
  - by apply put_invalid.
Qed.

(** ** Closing one end *)

Section Closing_one_end.

Context {Obj : Type} `{Pickle Obj}.

(** X9: a message that was put before the writer was closed is not
    lost. When the writing handle is the only holder of the writing
    end and the frame of [o] finds room in the empty pipe: after
    [put(o)] and [close()] on the writer, a first [get] on the reader
    returns [o], and a second one raises EOFError. *)
Theorem put_close_get r w p kp s (o : Obj) :
  endpoint r O_RDONLY p s → endpoint w O_WRONLY p s →
  kpipes s !! p = Some kp → content kp = [] → readers kp ≠ 0 →
  writers kp = 1 →
  (4 + Z.of_nat (length (dumps o)) ≤ PIPE_CAPACITY)%Z →
  ∃ s1 s2 s3 s4,
    put w o s = (Ret tt, s1)
    ∧ close w s1 = (Ret tt, s2)
    ∧ get r s2 = (Ret o, s3)
    ∧ get (Obj := Obj) r s3 = (Raise PeerClosedError, s4).
Proof.
  intros Hr Hw Hp Hc Hrd Hwr Hlen.
  destruct (struct_facts.pack_i_is_Some (Z.of_nat (length (dumps o))))
    as [hdr Hpack]; [unfold PIPE_CAPACITY in Hlen; lia|].
  destruct (put_appends w p s kp o hdr Hw Hp Hrd Hpack)
    as (s1 & E1 & Hio1 & Hk1); [unfold room; rewrite Hc; simpl; lia|].
  pose proof (endpoint_io_only _ _ _ _ _ Hio1 Hr) as Hr1.
  pose proof (endpoint_io_only _ _ _ _ _ Hio1 Hw) as Hw1.
  destruct (close_other_end w r O_WRONLY O_RDONLY p s1 Hw1 Hr1)
    as (s2 & E2 & Hr2 & Hk2); [done|].
  assert (Hp2 : kpipes s2 !! p
                = Some (mkPipe (hdr ++ dumps o) (readers kp) 0)).
  { rewrite Hk2, Hk1, lookup_alter_eq, lookup_insert_eq. simpl.
    by rewrite Hc, Hwr. }
  destruct (struct_facts.unpack_pack _ _ Hpack) as [Hunpack Hl4].
  destruct hdr as [|b0 [|b1 [|b2 [|b3 [|]]]]]; try done.
  destruct (get_reads r p s2 _ b0 b1 b2 b3 (dumps o) _ Hr2 Hp2 eq_refl Hunpack)
    as (s3 & E3 & Hio3 & Hk3); [lia|].
  rewrite Nat2Z.id, firstn_all, loads_dumps in E3.
  rewrite Nat2Z.id, drop_all in Hk3.
  pose proof (endpoint_io_only _ _ _ _ _ Hio3 Hr2) as Hr3.
  assert (Hp3 : kpipes s3 !! p = Some (mkPipe [] (readers kp) 0))
    by (rewrite Hk3; apply lookup_insert_eq).
  assert (E4 : (get (Obj := Obj) r s3).1 = Raise PeerClosedError).
  { rewrite (get_header_short r p s3 _ Hr3 Hp3); [done|simpl; lia]. }
  exists s1, s2, s3, (get (Obj := Obj) r s3).2. split_and!; try done.
  rewrite <- E4. apply surjective_pairing.
Qed.

Lemma put_broken_pipe w p kp s (o : Obj) :
  endpoint w O_WRONLY p s → kpipes s !! p = Some kp → readers kp = 0 →
  (Z.of_nat (length (dumps o)) < 2 ^ 31)%Z →
  ∃ s', put w o s = (Raise (OSError EPIPE), s') ∧ io_only s s'
      ∧ kpipes s' = kpipes s.
Proof.
  intros (hd & fd & Hh & Hc & Hpid & Hl & Hfd & Hd) Hp Hrd Hlen.
  destruct (struct_facts.pack_i_is_Some (Z.of_nat (length (dumps o))))
    as [hdr Hpack]; [lia|].
  set (s1 := set_heap (insert w (set__lock 0 hd)) s).
  assert (Hh1 : heap s1 !! w = Some (set__lock 0 hd))
    by (simpl; by rewrite lookup_insert_eq).
  assert (Hw : _write w hdr s1 = (Raise (OSError EPIPE), io_call s1)).
  { destruct (struct_facts.unpack_pack _ _ Hpack) as [_ Hl4].
    unfold _write. cbn [write_loop].
    rewrite (bind_ret _ _ _ _ _ (get_handle_run _ _ _ Hh1)).
    cbn [_fd set__lock]. rewrite Hfd. apply bind_raise.
    apply (nb_write_epipe _ p kp); [done..|]. by intros ->. }
  destruct (with_lock_raise w
    (let bindata := dumps o in
     hdr ← of_option StructError
             (struct.pack_i (Z.of_nat (length bindata)));
     _write w hdr ;; _write w bindata) s hd 0 (OSError EPIPE)
    (io_call s1) Hh Hl)
    as (s' & Hrun & Hio & Hk).
  { cbv zeta. rewrite Hpack. unfold of_option.
    rewrite bind_run. cbn [mret M_ret]. unfold M_ret.
    fold s1. by rewrite (bind_raise _ _ _ _ _ Hw). }
  { done. }
  exists s'. split; [|done].
  unfold put. by rewrite (bind_ret _ _ _ _ _ (validate_ok _ _ _ Hh Hc Hpid)).
Qed.

(** X10: once the reading handle, the only holder of the reading end,
    is closed, [put] on the writer raises the OSError of the write
    (EPIPE, a broken pipe): nothing is added to the pipe, and the
    writer and its semaphore are left as they were, so the handle can
    still be closed. *)
Theorem close_reader_then_put r w p kp s (o : Obj) :
  endpoint r O_RDONLY p s → endpoint w O_WRONLY p s →
  kpipes s !! p = Some kp → readers kp = 1 →
  (Z.of_nat (length (dumps o)) < 2 ^ 31)%Z →
  ∃ s1 s2 s3,
    close r s = (Ret tt, s1)
    ∧ put w o s1 = (Raise (OSError EPIPE), s2)
    ∧ kpipes s2 = kpipes s1
    ∧ endpoint w O_WRONLY p s2
    ∧ close w s2 = (Ret tt, s3).
Proof.
  intros Hr Hw Hp Hrd Hlen.
  destruct (close_other_end r w O_RDONLY O_WRONLY p s Hr Hw)
    as (s1 & E1 & Hw1 & Hk1); [done|].
  assert (Hp1 : kpipes s1 !! p = Some (kp_close O_RDONLY kp))
    by (by rewrite Hk1, lookup_alter_eq, Hp).
  destruct (put_broken_pipe w p _ s1 o Hw1 Hp1) as (s2 & E2 & Hio2 & Hk2);
    [by simpl; rewrite Hrd|done|].
  pose proof (endpoint_io_only _ _ _ _ _ Hio2 Hw1) as Hw2.
  destruct Hw2 as (hd & fd & Hh & Hc & Hpid & Hl & Hfd & Hd).
  exists s1, s2, (closed_state w hd fd (mkFdesc p O_WRONLY) s2).
  split_and!; try done.
  - by exists hd, fd.
  - by eapply close_ok.
Qed.

End Closing_one_end.

(** ** Handles of another process *)

Lemma _set_legit_process_run h s hd :
  heap s !! h = Some hd →
  _set_legit_process h s
  = (Ret tt, set_heap (insert h (set__legit_pid (getpid s) hd)) s).
Proof.
  intros Hh. unfold _set_legit_process. rewrite bind_run. unfold gets.
  by rewrite (modify_handle_run _ _ _ _ Hh).
Qed.

(** X11: an open handle that is registered for another process is
    refused by [close()] with the cross-process error, in the
    unchanged state. [_set_legit_process()] registers the handle for
    the calling process, changing nothing else, and the validation
    passes from then on. *)
Theorem set_legit_process_accepts h s hd :
  heap s !! h = Some hd → _closed hd = false →
  (getpid s ≠ _legit_pid hd → close h s = (Raise CrossProcessUseError, s))
  ∧ (∃ s',
       _set_legit_process h s = (Ret tt, s')
       ∧ s' = set_heap (insert h (set__legit_pid (getpid s) hd)) s
       ∧ _validate_process h s' = (Ret tt, s')).
Proof.
  intros Hh Hc. split.
  - intros Hp. apply close_invalid. by eapply validate_foreign.
  - eexists. split; [by apply _set_legit_process_run|]. split; [done|].
    eapply validate_ok; [simpl; apply lookup_insert_eq|done..].
Qed.

(** ** [start_process] creates the child first *)

(** X12: [start_process] checks nothing before it creates the child.
    When the first handle of [childhandles] is closed already, or has
    a [get] or [put] in flight, the error of its [close()] reaches the
    caller after the fork: the child exists and holds a copy of every
    open descriptor, and no handle has been closed in the parent. *)
Theorem start_process_fork_first a h rest s hd :
  as_tuple a = h :: rest → heap s !! h = Some hd →
  (_closed hd = true →
     start_process a s = (Raise HandleClosedError, (os_fork s).2))
  ∧ (io_in_flight h s →
     start_process a s = (Raise HandleLockedError, (os_fork s).2)).
Proof.
  intros Ha Hh. rewrite start_process_posix, Ha.
  assert (Hf : os_fork s = (Ret tt, (os_fork s).2)) by reflexivity.
  rewrite (bind_ret _ _ _ _ _ Hf).
  assert (Hh1 : heap (os_fork s).2 !! h = Some hd) by exact Hh.
  split.
  - intros Hc. cbn [for_each]. apply bind_raise, close_invalid.
    by eapply validate_closed.
  - intros (hd0 & Hh0 & Hc & Hp & Hl). cbn [for_each]. apply bind_raise.
    apply (close_locked _ _ hd0); done.
Qed.

(** ** The child's side of [start_process] *)

Lemma child_loop_body_keep childhandles h s hd :
  heap s !! h = Some hd → h ∈ childhandles →
  child_loop_body childhandles h s
  = (Ret tt, set_heap (insert h (set__legit_pid (getpid s) hd)) s).
Proof.
  intros Hh Hin. unfold child_loop_body.
  rewrite (bind_ret _ _ _ _ _ (_set_legit_process_run _ _ _ Hh)).
  cbn [WINDOWS]. rewrite bind_run. cbn [mret M_ret].
  unfold M_ret at 1. by rewrite bool_decide_eq_true_2.
Qed.

Lemma child_loop_body_close childhandles h s hd fd d n :
  heap s !! h = Some hd → _closed hd = false → _lock hd = S n →
  _fd hd = Some fd → fdtab s !! fd = Some d → h ∉ childhandles →
  child_loop_body childhandles h s
  = (Ret tt,
     closed_state h (set__legit_pid (getpid s) hd) fd d
       (set_heap (insert h (set__legit_pid (getpid s) hd)) s)).
Proof.
  intros Hh Hc Hl Hfd Hd Hn. unfold child_loop_body.
  rewrite (bind_ret _ _ _ _ _ (_set_legit_process_run _ _ _ Hh)).
  cbn [WINDOWS]. rewrite bind_run. cbn [mret M_ret].
  unfold M_ret at 1. rewrite bool_decide_eq_false_2 by done.
  apply (close_ok _ _ _ _ _ n); try done.
  simpl. apply lookup_insert_eq.
Qed.

Lemma child_loop_run cpid childhandles l s :
  inherited cpid l s →
  ∃ s',
    for_each l (child_loop_body childhandles) s = (Ret tt, s')
    ∧ getpid s' = cpid
    ∧ (∀ h, h ∉ l → heap s' !! h = heap s !! h)
    ∧ (∀ h hd, h ∈ l → h ∈ childhandles → heap s !! h = Some hd →
         heap s' !! h = Some (set__legit_pid cpid hd))
    ∧ (∀ h, h ∈ l → h ∉ childhandles → closed_in h s')
    ∧ (∀ h hd fd, heap s !! h = Some hd → _fd hd = Some fd →
         (h ∈ l → h ∈ childhandles) → fdtab s' !! fd = fdtab s !! fd)
    ∧ (∀ h, h ∈ _all_handles s' ↔
            h ∈ _all_handles s ∧ (h ∈ l → h ∈ childhandles)).
Proof.
  revert s. induction l as [|h l IH]; intros s (Hpid & Hnd & Hreg & Hl & Hinj).
  { exists s. split_and!.
    - reflexivity.
    - done.
    - done.
    - intros h hd Hin. by apply elem_of_nil in Hin.
    - intros h Hin. by apply elem_of_nil in Hin.
    - done.
    - intros h. split; [|by intros [? _]]. intros Hin. split; [done|].
      intros Hin'. by apply elem_of_nil in Hin'. }
  apply NoDup_cons in Hnd as [Hhl Hnd].
  destruct (Hl h) as (hd & fd & d & Hh & Hc & Hlock & Hfd & Hd).
  { apply elem_of_cons. by left. }
  destruct (_lock hd) as [|n] eqn:Hn; [done|]. clear Hlock.
  set (hd0 := set__legit_pid (getpid s) hd).
  set (s0 := set_heap (insert h hd0) s).
  (* the state after the first iteration *)
  assert (∃ s1,
    child_loop_body childhandles h s = (Ret tt, s1)
    ∧ getpid s1 = cpid
    ∧ NoDup (_all_handles s1)
    ∧ (∀ h', h' ≠ h → heap s1 !! h' = heap s !! h')
    ∧ (h ∈ childhandles → heap s1 !! h = Some hd0 ∧ fdtab s1 = fdtab s
                           ∧ _all_handles s1 = _all_handles s)
    ∧ (h ∉ childhandles → closed_in h s1 ∧ fdtab s1 = delete fd (fdtab s)
                           ∧ _all_handles s1 = remove_first h (_all_handles s)))
    as (s1 & E1 & Hpid1 & Hreg1 & Hheap1 & Hkeep & Hclose).
  { destruct (decide (h ∈ childhandles)) as [Hin|Hout].
    - exists s0. split_and!; try done.
      + by apply child_loop_body_keep.
      + intros h' Hne. simpl. by rewrite lookup_insert_ne.
      + intros _. split_and!; try done. simpl. apply lookup_insert_eq.
    - exists (closed_state h hd0 fd d s0). split_and!; try done.
      + by apply (child_loop_body_close _ _ _ _ _ _ n).
      + simpl. by apply NoDup_remove_first.
      + intros h' Hne. simpl. by rewrite !lookup_insert_ne.
      + intros _. split_and!; try done.
        exists (mkHandle None (_fd_flag hd0) (_legit_pid hd0) (_lock hd0) true).
        split; [|done]. simpl. apply lookup_insert_eq. }
  assert (Hfd1 : ∀ h' hd' fd', h' ≠ h → heap s !! h' = Some hd' →
                   _fd hd' = Some fd' → fdtab s1 !! fd' = fdtab s !! fd').
  { intros h' hd' fd' Hne Hh' Hfd'.
    destruct (decide (h ∈ childhandles)) as [Hin|Hout].
    - destruct (Hkeep Hin) as (_ & -> & _). done.
    - destruct (Hclose Hout) as (_ & -> & _).
      rewrite lookup_delete_ne; [done|]. intros <-. apply Hne.
      by apply (Hinj h' h hd' hd fd). }
  assert (Hlook1 : ∀ h1 hd1, heap s1 !! h1 = Some hd1 →
            (h1 ≠ h ∧ heap s !! h1 = Some hd1)
            ∨ (h1 = h ∧ (_fd hd1 = None ∨ _fd hd1 = Some fd))).
  { intros h1 hd1 H1. destruct (decide (h1 = h)) as [->|Hne].
    - right. split; [done|].
      destruct (decide (h ∈ childhandles)) as [Hin|Hout].
      + destruct (Hkeep Hin) as (Hh0 & _). rewrite Hh0 in H1.
        injection H1 as <-. by right.
      + pose proof (child_loop_body_close childhandles h s hd fd d n
                      Hh Hc Hn Hfd Hd Hout) as Hrun.
        rewrite Hrun in E1. injection E1 as <-. simpl in H1.
        rewrite lookup_insert_eq in H1. injection H1 as <-. by left.
    - left. split; [done|]. by rewrite <- (Hheap1 h1 Hne). }
  assert (Hinh1 : inherited cpid l s1).
  { split_and!; try done.
    - intros h' Hin'. assert (Hne : h' ≠ h) by (intros ->; done).
      destruct (Hl h') as (hd' & fd' & d' & Hh' & Hc' & Hl' & Hfd' & Hd').
      { apply elem_of_cons. by right. }
      exists hd', fd', d'. split_and!; try done.
      + by rewrite Hheap1.
      + by rewrite (Hfd1 h' hd' fd').
    - intros h1 h2 hd1 hd2 fd' H1 H2 F1 F2.
      destruct (Hlook1 h1 hd1 H1) as [[N1 G1]|[-> [G1|G1]]];
      destruct (Hlook1 h2 hd2 H2) as [[N2 G2]|[-> [G2|G2]]];
        try done; try congruence.
      + by apply (Hinj h1 h2 hd1 hd2 fd').
      + apply (Hinj h1 h hd1 hd fd'); congruence.
      + apply (Hinj h h2 hd hd2 fd'); congruence. }
  destruct (IH s1 Hinh1) as (s' & E' & Hpid' & HH & HK & HC & HF & HR).
  exists s'. split_and!.
  - cbn [for_each]. by rewrite (bind_ret _ _ _ _ _ E1).
  - done.
  - intros h' Hn'. apply not_elem_of_cons in Hn' as [Hne Hn'].
    by rewrite HH, Hheap1.
  - intros h' hd' Hin' Hch Hh'. apply elem_of_cons in Hin' as [->|Hin'].
    + rewrite HH by done. destruct (Hkeep Hch) as (-> & _).
      unfold hd0. congruence.
    + apply HK; try done. rewrite Hheap1; [done|]. by intros ->.
  - intros h' Hin' Hch. apply elem_of_cons in Hin' as [->|Hin'].
    + destruct (Hclose Hch) as ((hdc & Hhc & Hcc) & _).
      exists hdc. split; [|done]. by rewrite HH.
    + by apply HC.
  - intros h' hd' fd' Hh' Hfd' Hcond.
    destruct (decide (h' = h)) as [->|Hne].
    + assert (Hch : h ∈ childhandles) by (apply Hcond, elem_of_cons; by left).
      destruct (Hkeep Hch) as (Hh0 & Hfdtab & _).
      rewrite (HF h hd0 fd'); [by rewrite Hfdtab|done| |done].
      unfold hd0. simpl. congruence.
    + rewrite (HF h' hd' fd'); [by apply (Hfd1 h' hd')| |done|].
      * by rewrite Hheap1.
      * intros Hin'. apply Hcond, elem_of_cons. by right.
  - intros h'. rewrite HR, elem_of_cons.
    destruct (decide (h ∈ childhandles)) as [Hin|Hout].
    + destruct (Hkeep Hin) as (_ & _ & ->). split.
      * intros [? Himp]. split; [done|]. intros [->|?]; auto.
      * intros [? Himp]. split; [done|]. intros ?. apply Himp. by right.
    + destruct (Hclose Hout) as (_ & _ & ->). split.
      * intros [Hrem Himp].
        assert (Hne : h' ≠ h).
        { intros ->. by destruct (NoDup_remove_first h _ Hreg) as [_ Hnin]. }
        split; [by apply (elem_of_remove_first h' h _ Hne)|].
        intros [->|?]; [done|auto].
      * intros [Hin' Himp].
        assert (Hne : h' ≠ h).
        { intros ->. apply Hout, Himp. by left. }
        split; [by apply elem_of_remove_first|].
        intros ?. apply Himp. by right.
Qed.

Lemma forked_child_inherited cpid l s :
  wf s → NoDup l → (∀ h, h ∈ l → h ∈ _all_handles s) →
  (∀ h hd, h ∈ l → heap s !! h = Some hd → _lock hd ≠ 0) →
  inherited cpid l (forked_child cpid s).
Proof.
  intros Hwf Hnd Hsub Hfree. split_and!; try done.
  - apply (wf_nodup _ Hwf).
  - intros h Hin. destruct (wf_registered _ Hwf h (Hsub h Hin)) as [hd Hh].
    destruct (_closed hd) eqn:Hc.
    { by destruct (wf_closed _ Hwf _ _ Hh Hc) as [_ []]; apply Hsub. }
    destruct (wf_open _ Hwf _ _ Hh Hc) as (fd & Hfd & [d Hd]).
    exists hd, fd, d. split_and!; try done. by apply (Hfree h).
  - apply (wf_fd_inj _ Hwf).
Qed.

Lemma for_each_app_ret l1 l2 body s s1 :
  for_each l1 body s = (Ret tt, s1) →
  for_each (l1 ++ l2) body s = for_each l2 body s1.
Proof.
  revert s. induction l1 as [|x l1 IH]; intros s E.
  { by injection E as ->. }
  cbn [for_each app] in *. rewrite bind_run in E |- *.
  destruct (body x s) as [[[]|e| |] s0]; try done. by apply IH.
Qed.

(** X13: the child's side of the hand-over. [_child] is run in the
    new process on the state the parent had at the fork, with the
    parent's [_all_handles] as [all_handles]; no [get] or [put] was in
    flight at the fork. Then the loop of [_child] returns and [target]
    is called in a state where every handle of [childhandles] is open,
    registered for the child, passes the validation and has its
    descriptor as before, and where every other handle is closed and
    gone from [_all_handles]: what is left in [_all_handles] are the
    handles of [childhandles]. *)
Theorem child_handoff target childhandles cpid s :
  wf s →
  (∀ h hd, h ∈ _all_handles s → heap s !! h = Some hd → _lock hd ≠ 0) →
  ∃ s',
    _child target childhandles (_all_handles s) (forked_child cpid s)
    = target childhandles s'
    ∧ getpid s' = cpid
    ∧ (∀ h, h ∈ _all_handles s → h ∈ childhandles →
         h ∈ _all_handles s'
         ∧ _validate_process h s' = (Ret tt, s')
         ∧ (∃ hd, heap s !! h = Some hd
                ∧ heap s' !! h = Some (set__legit_pid cpid hd)
                ∧ ∀ fd, _fd hd = Some fd → fdtab s' !! fd = fdtab s !! fd))
    ∧ (∀ h, h ∈ _all_handles s → h ∉ childhandles →
         closed_in h s' ∧ (h ∉ _all_handles s')
         ∧ close h s' = (Raise HandleClosedError, s'))
    ∧ (∀ h, h ∈ _all_handles s' ↔ h ∈ _all_handles s ∧ h ∈ childhandles).
Proof.
  intros Hwf Hfree.
  destruct (child_loop_run cpid childhandles (_all_handles s)
              (forked_child cpid s))
    as (s' & E & Hpid & HH & HK & HC & HF & HR).
  { apply forked_child_inherited; [done|apply (wf_nodup _ Hwf)|done..]. }
  exists s'. split_and!.
  - unfold _child. by rewrite (bind_ret _ _ _ _ _ E).
  - done.
  - intros h Hin Hch. destruct (wf_registered _ Hwf h Hin) as [hd Hh].
    pose proof (HK h hd Hin Hch Hh) as Hh'.
    destruct (_closed hd) eqn:Hc.
    { by destruct (wf_closed _ Hwf _ _ Hh Hc). }
    split_and!.
    + apply HR. by split.
    + by apply (validate_ok _ _ _ Hh').
    + exists hd. split_and!; try done. intros fd Hfd.
      by apply (HF h hd fd).
  - intros h Hin Hch. destruct (HC h Hin Hch) as (hd' & Hh' & Hc').
    split_and!.
    + by exists hd'.
    + intros Hin'. apply HR in Hin' as [_ Himp]. by apply Hch, Himp.
    + apply close_invalid. by eapply validate_closed.
  - intros h. rewrite HR. simpl. split.
    + intros [? Himp]. split; [done|]. by apply Himp.
    + intros [? ?]. by split.
Qed.

(** X14: a handle that had a [get] or [put] in flight when the
    process was forked, its semaphore taken, and that is not handed to
    the child: [_child] reaches it in its loop, [close()] raises the
    handle-locked error, and the child ends there, before [target] is
    called. *)
Theorem child_aborts_on_locked_handle target childhandles cpid s l1 h l2 hd :
  wf s → _all_handles s = l1 ++ h :: l2 →
  (∀ h' hd', h' ∈ l1 → heap s !! h' = Some hd' → _lock hd' ≠ 0) →
  heap s !! h = Some hd → _lock hd = 0 → h ∉ childhandles →
  ∃ s',
    _child target childhandles (_all_handles s) (forked_child cpid s)
    = (Raise HandleLockedError, s').
Proof.
  intros Hwf Hreg Hfree Hh Hl Hout.
  pose proof (wf_nodup _ Hwf) as Hnd. rewrite Hreg in Hnd.
  apply NoDup_app in Hnd as (Hnd1 & Hdisj & Hnd2).
  assert (Hnin : h ∉ l1).
  { intros Hin. apply (Hdisj h Hin), elem_of_cons. by left. }
  destruct (child_loop_run cpid childhandles l1 (forked_child cpid s))
    as (s1 & E & Hpid & HH & _).
  { apply forked_child_inherited; try done.
    intros h' Hin. rewrite Hreg, elem_of_app. by left. }
  assert (Hh1 : heap s1 !! h = Some hd) by (by rewrite HH).
  assert (Hc : _closed hd = false).
  { destruct (_closed hd) eqn:Hc; [|done].
    destruct (wf_closed _ Hwf _ _ Hh Hc) as [_ []].
    rewrite Hreg, elem_of_app, elem_of_cons. right. by left. }
  eexists. unfold _child. apply bind_raise. rewrite Hreg.
  rewrite (for_each_app_ret _ _ _ _ _ E). cbn [for_each].
  apply bind_raise. unfold child_loop_body.
  rewrite (bind_ret _ _ _ _ _ (_set_legit_process_run _ _ _ Hh1)).
  cbn [WINDOWS]. rewrite bind_run. cbn [mret M_ret]. unfold M_ret at 1.
  rewrite bool_decide_eq_false_2 by done.
  apply (close_locked _ _ (set__legit_pid (getpid s1) hd)); try done.
  simpl. apply lookup_insert_eq.
Qed.

(** ** Any number of messages *)

Section Queue.

Context {Obj : Type} `{Pickle Obj}.






End Queue.

(** ** More on the states a process can reach *)

Lemma with_lock_heap {A} h (body : M A) s :
  preserves io_only body →
  heap (with_lock h body s).2 = heap s
  ∨ ∃ hd n, heap s !! h = Some hd ∧ _lock hd = S n
          ∧ heap (with_lock h body s).2 = <[h := set__lock n hd]> (heap s).
Proof.
  intros Hb. unfold with_lock. rewrite bind_run.
  destruct (heap s !! h) as [hd|] eqn:Hh; cycle 1.
  { left. unfold acquire, try_acquire. rewrite !bind_run. unfold get_handle.
    by rewrite Hh. }
  destruct (_lock hd) as [|n] eqn:Hl.
  { left. by rewrite (acquire_taken _ _ _ Hh Hl). }
  rewrite (acquire_free _ _ _ _ Hh Hl). unfold finally.
  specialize (Hb (set_heap (insert h (set__lock n hd)) s)).
  destruct (body _) as [[a|e| |] s2]; simpl in Hb.
  - left. destruct (release_acquired _ _ _ _ _ Hh Hl Hb) as (s3 & Hr & Hio & _).
    rewrite (bind_ret _ _ _ _ _ Hr). by destruct Hio as (_ & Hheap & _).
  - left. destruct (release_acquired _ _ _ _ _ Hh Hl Hb) as (s3 & Hr & Hio & _).
    rewrite (bind_ret _ _ _ _ _ Hr). by destruct Hio as (_ & Hheap & _).
  - right. exists hd, n. split_and!; try done. by destruct Hb as (_ & Hheap & _).
  - right. exists hd, n. split_and!; try done. by destruct Hb as (_ & Hheap & _).
Qed.

Section Reachable_states.

Context {Obj : Type} `{Pickle Obj}.

Lemma get_heap h s :
  heap (get (Obj := Obj) h s).2 = heap s
  ∨ ∃ hd n, heap s !! h = Some hd ∧ _lock hd = S n
          ∧ heap (get (Obj := Obj) h s).2 = <[h := set__lock n hd]> (heap s).
Proof.
  unfold get. rewrite bind_run. pose proof (validate_state h s) as Hs.
  destruct (_validate_process h s) as [[[]|e| |] s1]; simpl in Hs; subst s1;
    try by left.
  apply with_lock_heap, get_body_io_only.
Qed.

Lemma put_heap h (o : Obj) s :
  heap (put h o s).2 = heap s
  ∨ ∃ hd n, heap s !! h = Some hd ∧ _lock hd = S n
          ∧ heap (put h o s).2 = <[h := set__lock n hd]> (heap s).
Proof.
  unfold put. rewrite bind_run. pose proof (validate_state h s) as Hs.
  destruct (_validate_process h s) as [[[]|e| |] s1]; simpl in Hs; subst s1;
    try by left.
  apply with_lock_heap, put_body_io_only.
Qed.

Lemma relocked_tidy h hd n s s' :
  tidy s → _all_handles s' = _all_handles s →
  heap s' = heap s
  ∨ (heap s !! h = Some hd ∧ _lock hd = S n
     ∧ heap s' = <[h := set__lock n hd]> (heap s)) →
  tidy s'.
Proof.
  intros Ht Hreg [Hheap|(Hh & Hl & Hheap)] h' hd' Hh'; rewrite Hreg, Hheap in *.
  - by apply Ht.
  - destruct (decide (h = h')) as [<-|Hne].
    + rewrite lookup_insert_eq in Hh'. injection Hh' as <-.
      destruct (Ht h hd Hh) as [Hle Hin]. simpl. split; [lia|done].
    + rewrite lookup_insert_ne in Hh' by done. by apply Ht.
Qed.

Lemma close_tidy h s : wf s → tidy s → tidy (close h s).2.
Proof.
  intros Hwf Ht.
  destruct (close_cases h s Hwf) as [[e ->]|(hd&fd&d&Hh&Hc&_&_&->)]; [done|].
  intros h' hd' Hh'. simpl in *. destruct (decide (h = h')) as [<-|Hne].
  - rewrite lookup_insert_eq in Hh'. injection Hh' as <-. simpl.
    split; [|done]. by apply (Ht h hd).
  - rewrite lookup_insert_ne in Hh' by done.
    destruct (Ht h' hd' Hh') as [Hle Hin]. split; [done|].
    intros Hc'. apply elem_of_remove_first; [by intros ->|auto].
Qed.

Lemma for_each_close_tidy hs s :
  wf s → tidy s → tidy (for_each hs close s).2.
Proof.
  revert s. induction hs as [|h hs IH]; intros s Hwf Ht; [done|]. simpl.
  rewrite bind_run. pose proof (close_wf h s Hwf) as Hwf1.
  pose proof (close_tidy h s Hwf Ht) as Ht1.
  destruct (close h s) as [[[]|e| |] s1]; simpl in *; try done.
  by apply IH.
Qed.

Lemma pipe_state s :
  ∃ hr hw fr fw p,
    (pipe s).2
    = mkState (getpid s)
        (<[hw := mkHandle (Some fw) O_WRONLY (getpid s) 1 false]>
           (<[hr := mkHandle (Some fr) O_RDONLY (getpid s) 1 false]> (heap s)))
        ((_all_handles s ++ [hr]) ++ [hw])
        (<[fw := mkFdesc p O_WRONLY]> (<[fr := mkFdesc p O_RDONLY]> (fdtab s)))
        (<[p := mkPipe [] 1 1]> (kpipes s)) (sched s) (io_calls s)
    ∧ fdtab s !! fr = None ∧ fdtab s !! fw = None.
Proof.
  eexists _, _, (fresh (dom (fdtab s))),
    (fresh ({[fresh (dom (fdtab s))]} ∪ dom (fdtab s))), _.
  split; [reflexivity|]. split.
  - apply not_elem_of_dom, is_fresh.
  - pose proof (is_fresh ({[fresh (dom (fdtab s))]} ∪ dom (fdtab s))) as Hf.
    apply not_elem_of_dom. set_solver.
Qed.

Lemma pipe_tidy s : tidy s → tidy (pipe s).2.
Proof.
  intros Ht. destruct (pipe_state s) as (hr & hw & fr & fw & p & -> & _).
  intros h hd Hh. simpl in *. rewrite !elem_of_app, !list_elem_of_singleton.
  destruct (decide (hw = h)) as [<-|?].
  { rewrite lookup_insert_eq in Hh. injection Hh as <-. simpl. auto. }
  rewrite lookup_insert_ne in Hh by done.
  destruct (decide (hr = h)) as [<-|?].
  { rewrite lookup_insert_eq in Hh. injection Hh as <-. simpl. auto. }
  rewrite lookup_insert_ne in Hh by done.
  destruct (Ht h hd Hh) as [Hle Hin]. auto.
Qed.

Lemma exec_tidy (c : op Obj) s : wf s → tidy s → tidy (exec c s).
Proof.
  intros Hwf Ht. destruct c as [|h|h o|h|a]; simpl.
  - by apply pipe_tidy.
  - destruct (get_locks_only (Obj := Obj) h s) as (_ & Hreg & _).
    destruct (get_heap h s) as [Hheap|(hd & n & ?)].
    + eapply (relocked_tidy h (mkHandle None O_RDONLY 0 0 false) 0); eauto.
    + eapply (relocked_tidy h hd n); eauto.
  - destruct (put_locks_only h o s) as (_ & Hreg & _).
    destruct (put_heap h o s) as [Hheap|(hd & n & ?)].
    + eapply (relocked_tidy h (mkHandle None O_RDONLY 0 0 false) 0); eauto.
    + eapply (relocked_tidy h hd n); eauto.
  - by apply close_tidy.
  - rewrite start_process_posix. destruct (os_fork_run s) as [kps Hf].
    rewrite (bind_ret _ _ _ _ _ Hf).
    apply for_each_close_tidy; [by apply set_kpipes_wf|done].
Qed.

Lemma reachable_tidy s : reachable (Obj := Obj) s → tidy s.
Proof.
  induction 1 as [s Hh Hr|c s Hreach IH].
  - intros h hd Hl. by rewrite Hh in Hl.
  - apply exec_tidy; [by apply reachable_wf|done].
Qed.

(** X16: in every state the process can reach, [_all_handles] is the
    list of the handles that are open, each of them once: a handle is
    in the list exactly when it has been created by [pipe()] and not
    been closed since. *)
Theorem registry_lists_open_handles s :
  reachable (Obj := Obj) s →
  NoDup (_all_handles s)
  ∧ ∀ h, h ∈ _all_handles s ↔ ∃ hd, heap s !! h = Some hd ∧ _closed hd = false.
Proof.
  intros Hreach. pose proof (reachable_wf s Hreach) as Hwf.
  pose proof (reachable_tidy s Hreach) as Ht.
  split; [apply (wf_nodup _ Hwf)|]. intros h. split.
  - intros Hin. destruct (wf_registered _ Hwf h Hin) as [hd Hh].
    exists hd. split; [done|]. destruct (_closed hd) eqn:Hc; [|done].
    by destruct (wf_closed _ Hwf _ _ Hh Hc).
  - intros (hd & Hh & Hc). by apply (Ht h hd).
Qed.

(** X17: in every state the process can reach, the semaphore of a
    handle counts 0 or 1: no path through [get], [put], [close] or
    [start_process] releases it more often than it was acquired. *)
Theorem semaphore_binary s h hd :
  reachable (Obj := Obj) s → heap s !! h = Some hd → _lock hd ≤ 1.
Proof.
  intros Hreach Hh. by apply (reachable_tidy s Hreach h hd).
Qed.

(** X18: an operation on other handles leaves a handle alone. When
    [h] is an open handle of the process on one end of a pipe, its
    semaphore free, it is so after any operation that is not a [get],
    [put] or [close] on [h] itself and does not hand [h] over to a
    child: on the same descriptor, on the same end of the same pipe. *)
Theorem other_handles_untouched (c : op Obj) h flag p s :
  reachable (Obj := Obj) s → endpoint h flag p s → ¬ concerns c h →
  endpoint h flag p (exec c s).
Proof.
  intros Hreach (hd & fd & Hh & Hc & Hpid & Hl & Hfd & Hd) Hn.
  pose proof (reachable_wf s Hreach) as Hwf.
  exists hd, fd. destruct c as [|h'|h' o|h'|a]; cbn [exec concerns] in *.
  - split_and!; try done; [by apply pipe_frame|].
    destruct (pipe_state s) as (hr & hw & fr & fw & q & -> & Hfr & Hfw).
    simpl. rewrite !lookup_insert_ne by (intros <-; congruence). done.
  - destruct (get_locks_only (Obj := Obj) h' s) as (-> & _ & -> & _).
    split_and!; try done.
    destruct (get_heap h' s) as [->|(hd' & n & _ & _ & ->)]; [done|].
    by rewrite lookup_insert_ne.
  - destruct (put_locks_only h' o s) as (-> & _ & -> & _).
    split_and!; try done.
    destruct (put_heap h' o s) as [->|(hd' & n & _ & _ & ->)]; [done|].
    by rewrite lookup_insert_ne.
  - destruct (close_frame h h' s Hwf) as (F1 & _ & F3 & F4); [by intros ->|].
    rewrite F1, F4, (F3 hd fd Hh Hfd). done.
  - rewrite start_process_posix. destruct (os_fork_run s) as [kps Hf].
    rewrite (bind_ret _ _ _ _ _ Hf).
    destruct (for_each_close_frame h (as_tuple a) (set_kpipes (λ _, kps) s)
                (set_kpipes_wf _ _ Hwf) Hn) as (F1 & _ & F3 & F4).
    rewrite F1, F4, (F3 hd fd Hh Hfd). done.
Qed.

End Reachable_states.

(** ** The parent after [start_process] *)

(** After the fork the child holds a copy of every open descriptor:
    each end of each pipe has at least the holders it had, and one
    more for each descriptor of the parent open on it. *)
Lemma os_fork_kpipes s p kp :
  kpipes s !! p = Some kp →
  ∃ kp', kpipes (os_fork s).2 !! p = Some kp' ∧ content kp' = content kp
       ∧ readers kp ≤ readers kp' ∧ writers kp ≤ writers kp'
       ∧ (∀ fd, fdtab s !! fd = Some (mkFdesc p O_RDONLY) →
            readers kp < readers kp')
       ∧ (∀ fd, fdtab s !! fd = Some (mkFdesc p O_WRONLY) →
            writers kp < writers kp').
Proof.
  intros Hp.
  change (kpipes (os_fork s).2) with
    (map_fold (λ (_ : nat) d acc, alter (kp_open (fd_end d)) (fd_pipe d) acc)
       (kpipes s) (fdtab s)).
  apply (map_fold_weak_ind (λ acc m,
    ∃ kp', acc !! p = Some kp' ∧ content kp' = content kp
         ∧ readers kp ≤ readers kp' ∧ writers kp ≤ writers kp'
         ∧ (∀ fd, m !! fd = Some (mkFdesc p O_RDONLY) →
              readers kp < readers kp')
         ∧ (∀ fd, m !! fd = Some (mkFdesc p O_WRONLY) →
              writers kp < writers kp'))).
  - exists kp. split_and!; try done; intros fd Hfd; by rewrite lookup_empty in Hfd.
  - intros i [q e] m acc Hi (kp' & Hacc & Hc & Hr & Hw & Hfr & Hfw). simpl.
    destruct (decide (q = p)) as [->|Hne].
    + exists (kp_open e kp'). split_and!.
      * by rewrite lookup_alter_eq, Hacc.
      * by destruct e.
      * destruct e; simpl; lia.
      * destruct e; simpl; lia.
      * intros fd Hfd. destruct (decide (i = fd)) as [->|Hn].
        { rewrite lookup_insert_eq in Hfd. injection Hfd as ->. simpl. lia. }
        rewrite lookup_insert_ne in Hfd by done.
        specialize (Hfr fd Hfd). destruct e; simpl; lia.
      * intros fd Hfd. destruct (decide (i = fd)) as [->|Hn].
        { rewrite lookup_insert_eq in Hfd. injection Hfd as ->. simpl. lia. }
        rewrite lookup_insert_ne in Hfd by done.
        specialize (Hfw fd Hfd). destruct e; simpl; lia.
    + exists kp'. split_and!; try done.
      * by rewrite lookup_alter_ne.
      * intros fd Hfd. destruct (decide (i = fd)) as [->|Hn].
        { rewrite lookup_insert_eq in Hfd. by injection Hfd. }
        rewrite lookup_insert_ne in Hfd by done. by apply (Hfr fd).
      * intros fd Hfd. destruct (decide (i = fd)) as [->|Hn].
        { rewrite lookup_insert_eq in Hfd. by injection Hfd. }
        rewrite lookup_insert_ne in Hfd by done. by apply (Hfw fd).
Qed.

Lemma os_fork_endpoint h flag p s :
  endpoint h flag p s → endpoint h flag p (os_fork s).2.
Proof. intros (hd & fd & ?). by exists hd, fd. Qed.

Lemma for_each_close_returns hs s :
  wf s → NoDup hs →
  (∀ h, h ∈ hs →
     ∃ hd, heap s !! h = Some hd ∧ _closed hd = false ∧ _lock hd ≠ 0) →
  ∃ s', for_each hs close s = (Ret tt, s').
Proof.
  revert s. induction hs as [|h hs IH]; intros s Hwf Hnd Hall.
  { by exists s. }
  apply NoDup_cons in Hnd as [Hnin Hnd].
  destruct (Hall h) as (hd & Hh & Hc & Hl); [apply elem_of_cons; by left|].
  destruct (_lock hd) as [|n] eqn:Hn; [done|].
  destruct (wf_open _ Hwf _ _ Hh Hc) as (fd & Hfd & [d Hd]).
  pose proof (wf_pid _ Hwf _ _ Hh) as Hp. symmetry in Hp.
  pose proof (close_ok h s hd fd d n Hh Hc Hp Hn Hfd Hd) as E.
  destruct (IH (closed_state h hd fd d s)) as (s' & E'); [|done| |].
  - by apply closed_state_wf.
  - intros h' Hin. destruct (Hall h') as (hd' & Hh' & ?).
    { apply elem_of_cons. by right. }
    exists hd'. split; [|done]. simpl. rewrite lookup_insert_ne; [done|].
    by intros ->.
  - exists s'. cbn [for_each]. by rewrite (bind_ret _ _ _ _ _ E).
Qed.

Section Parent_side.

Context {Obj : Type} `{Pickle Obj}.

(** X19: [start_process] returns in the parent whenever the handles
    of [childhandles] are open, none of them is listed twice and none
    has a [get] or [put] in flight. *)
Theorem start_process_returns a s :
  reachable (Obj := Obj) s → NoDup (as_tuple a) →
  (∀ h, h ∈ as_tuple a →
     ∃ hd, heap s !! h = Some hd ∧ _closed hd = false ∧ _lock hd ≠ 0) →
  ∃ s', start_process a s = (Ret tt, s').
Proof.
  intros Hreach Hnd Hall. pose proof (reachable_wf s Hreach) as Hwf.
  rewrite start_process_posix. destruct (os_fork_run s) as [kps Hf].
  rewrite (bind_ret _ _ _ _ _ Hf).
  apply for_each_close_returns; [by apply set_kpipes_wf|done..].
Qed.

(** X20: handing the writer over is not closing it. After
    [start_process] was given the writing handle of a pipe, the handle
    is closed in the parent, but the child holds the writing end open:
    a [get] on the reader in the parent that finds no whole message
    waits for the child to write, where after a plain [close()] of the
    writer it would raise EOFError. *)
Theorem handoff_keeps_pipe_open r w p kp s :
  endpoint r O_RDONLY p s → endpoint w O_WRONLY p s →
  kpipes s !! p = Some kp → writers kp ≠ 0 → length (content kp) < 4 →
  ∃ s1,
    start_process (Single w) s = (Ret tt, s1)
    ∧ closed_in w s1
    ∧ (get (Obj := Obj) r s1).1 = Blocked.
Proof.
  intros Hr Hw Hp Hwr Hlen. rewrite start_process_posix.
  assert (Hf : os_fork s = (Ret tt, (os_fork s).2)) by reflexivity.
  rewrite (bind_ret _ _ _ _ _ Hf).
  destruct (os_fork_kpipes s p kp Hp) as (kp' & Hp' & Hc' & _ & Hw' & _ & Hfw).
  pose proof (os_fork_endpoint _ _ _ _ Hr) as Hr0.
  pose proof (os_fork_endpoint _ _ _ _ Hw) as Hw0.
  assert (Hlt : writers kp < writers kp').
  { destruct Hw as (hd & fd & _ & _ & _ & _ & _ & Hd). by apply (Hfw fd). }
  destruct (close_other_end w r O_WRONLY O_RDONLY p _ Hw0 Hr0)
    as (s1 & E1 & Hr1 & Hk1); [done|].
  exists s1. split_and!.
  - cbn [as_tuple for_each]. rewrite (bind_ret _ _ _ _ _ E1). done.
  - destruct Hw0 as (hd & fd & Hh & Hc & Hpid & Hl & Hfd & Hd).
    rewrite (close_ok _ _ _ _ _ 0 Hh Hc Hpid Hl Hfd Hd) in E1.
    injection E1 as <-. eexists. split; [simpl; apply lookup_insert_eq|done].
  - rewrite (get_header_short r p s1 (kp_close O_WRONLY kp') Hr1).
    + simpl. destruct (writers kp') as [|[|n]]; simpl; [lia|lia|done].
    + by rewrite Hk1, lookup_alter_eq, Hp'.
    + simpl. by rewrite Hc'.
Qed.

End Parent_side.

(** ** A pipe without room *)

Section Full_pipe.

Context {Obj : Type} `{Pickle Obj}.

(** X21: [put] into a pipe that has not the room for the frame (the
    four bytes of the prefix and the pickled form) does not return:
    [_write] writes what the pipe takes and then waits in [_WRITE_NB]
    for a reader to make room. Meanwhile the beginning of the frame,
    and not all of it, is in the pipe, and the semaphore of the writer
    is held. *)
Theorem put_waits_for_room w p kp s (o : Obj) :
  endpoint w O_WRONLY p s → kpipes s !! p = Some kp → readers kp ≠ 0 →
  (Z.of_nat (length (dumps o)) < 2 ^ 31)%Z →
  (room kp < 4 + Z.of_nat (length (dumps o)))%Z →
  ∃ s' hdr k,
    put w o s = (Blocked, s')
    ∧ io_in_flight w s'
    ∧ struct.pack_i (Z.of_nat (length (dumps o))) = Some hdr
    ∧ k < length (hdr ++ dumps o)
    ∧ kpipes s' !! p = Some (kp_append (take k (hdr ++ dumps o)) kp).
Proof.
  intros (hd & fd & Hh & Hc & Hpid & Hl & Hfd & Hd) Hp Hr Hlen Hroom.
  destruct (struct_facts.pack_i_is_Some (Z.of_nat (length (dumps o))))
    as [hdr Hpack]; [lia|].
  destruct (struct_facts.unpack_pack _ _ Hpack) as [_ Hl4].
  set (s1 := set_heap (insert w (set__lock 0 hd)) s).
  assert (Hh1 : heap s1 !! w = Some (set__lock 0 hd))
    by (simpl; by rewrite lookup_insert_eq).
  assert (Hbody : ∃ s2 k,
    (let bindata := dumps o in
     hdr ← of_option StructError
             (struct.pack_i (Z.of_nat (length bindata)));
     _write w hdr ;; _write w bindata) s1 = (Blocked, s2)
    ∧ io_only s1 s2
    ∧ k < length (hdr ++ dumps o)
    ∧ kpipes s2 !! p = Some (kp_append (take k (hdr ++ dumps o)) kp)).
  { cbv zeta. rewrite Hpack. unfold of_option.
    rewrite bind_run. cbn [mret M_ret]. unfold M_ret.
    destruct (decide (room kp < 4)%Z) as [Hsmall|Hbig].
    - destruct (_write_waits w _ fd p hdr s1 kp Hh1 Hfd Hd Hp Hr)
        as (s2 & k & E & Hio & Hk & Hkp); [by intros ->|lia|].
      exists s2, k. rewrite (bind_blocked _ _ _ _ E). split_and!; try done.
      + rewrite length_app. lia.
      + rewrite Hkp, lookup_insert_eq.
        by rewrite take_app_le by lia.
    - destruct (_write_appends w _ fd p hdr s1 kp Hh1 Hfd Hd Hp Hr)
        as (s2 & E1 & Hio1 & Hk1); [lia|].
      assert (Hh2 : heap s2 !! w = Some (set__lock 0 hd))
        by (destruct Hio1 as (_ & -> & _); done).
      assert (Hd2 : fdtab s2 !! fd = Some (mkFdesc p O_WRONLY))
        by (destruct Hio1 as (_ & _ & _ & ->); done).
      assert (Hp2 : kpipes s2 !! p = Some (kp_append hdr kp))
        by (rewrite Hk1; apply lookup_insert_eq).
      destruct (_write_waits w _ fd p (dumps o) s2 _ Hh2 Hfd Hd2 Hp2 Hr)
        as (s3 & k & E2 & Hio2 & Hk & Hkp).
      { intros E. rewrite E in Hroom. simpl in Hroom. lia. }
      { rewrite room_kp_append. lia. }
      exists s3, (length hdr + k). rewrite (bind_ret _ _ _ _ _ E1), E2.
      split_and!; try done.
      + eapply io_only_trans; eauto.
      + rewrite length_app. lia.
      + rewrite Hkp, lookup_insert_eq, take_app_add. f_equal.
        unfold kp_append. simpl. by rewrite app_assoc. }
  destruct Hbody as (s2 & k & Hbody & Hio & Hk & Hkp).
  exists s2, hdr, k. split_and!; try done.
  - unfold put. rewrite (bind_ret _ _ _ _ _ (validate_ok _ _ _ Hh Hc Hpid)).
    unfold with_lock.
    rewrite (bind_ret _ _ _ _ _ (acquire_free _ _ _ _ Hh Hl)).
    fold s1. unfold finally. cbv zeta in Hbody |- *. by rewrite Hbody.
  - destruct Hio as (Hpid2 & Hheap2 & _).
    exists (set__lock 0 hd). rewrite Hheap2, Hpid2. done.
Qed.

End Full_pipe.

(** ** From the parent to the child *)

Lemma inherited_set_kpipes cpid l f s :
  inherited cpid l s → inherited cpid l (set_kpipes f s).
Proof. intros (? & ? & ? & ? & ?). by split_and!. Qed.

(** One iteration of the loop of [_child]. *)
Lemma child_loop_step cpid childhandles h l s :
  inherited cpid (h :: l) s →
  ∃ s1 hd fd d,
    child_loop_body childhandles h s = (Ret tt, s1)
    ∧ inherited cpid l s1
    ∧ heap s !! h = Some hd ∧ _fd hd = Some fd ∧ fdtab s !! fd = Some d
    ∧ (∀ h', h' ≠ h → heap s1 !! h' = heap s !! h')
    ∧ (∀ h' hd' fd', h' ≠ h → heap s !! h' = Some hd' → _fd hd' = Some fd' →
         fdtab s1 !! fd' = fdtab s !! fd')
    ∧ (h ∈ childhandles → kpipes s1 = kpipes s)
    ∧ (h ∉ childhandles →
         kpipes s1 = alter (kp_close (fd_end d)) (fd_pipe d) (kpipes s)).
Proof.
  intros (Hpid & Hnd & Hreg & Hl & Hinj).
  apply NoDup_cons in Hnd as [Hhl Hnd].
  destruct (Hl h) as (hd & fd & d & Hh & Hc & Hlock & Hfd & Hd).
  { apply elem_of_cons. by left. }
  destruct (_lock hd) as [|n] eqn:Hn; [done|]. clear Hlock.
  set (hd0 := set__legit_pid (getpid s) hd).
  set (s0 := set_heap (insert h hd0) s).
  assert (Hrest : ∀ h', h' ∈ l → h' ≠ h) by (intros h' ? ->; done).
  destruct (decide (h ∈ childhandles)) as [Hin|Hout].
  - exists s0, hd, fd, d. split_and!; try done.
    + by apply child_loop_body_keep.
    + split_and!; try done.
      * intros h' Hin'. pose proof (Hrest h' Hin') as Hne.
        destruct (Hl h') as (hd' & fd' & d' & Hh' & ?).
        { apply elem_of_cons. by right. }
        exists hd', fd', d'. simpl. by rewrite lookup_insert_ne.
      * intros h1 h2 hd1 hd2 fd' H1 H2 F1 F2. simpl in H1, H2.
        destruct (decide (h = h1)) as [<-|N1];
        destruct (decide (h = h2)) as [<-|N2]; try done.
        -- rewrite lookup_insert_eq in H1. rewrite lookup_insert_ne in H2 by done.
           injection H1 as <-. by apply (Hinj h h2 hd hd2 fd').
        -- rewrite lookup_insert_eq in H2. rewrite lookup_insert_ne in H1 by done.
           injection H2 as <-. by apply (Hinj h1 h hd1 hd fd').
        -- rewrite lookup_insert_ne in H1, H2 by done.
           by apply (Hinj h1 h2 hd1 hd2 fd').
    + intros h' Hne. simpl. by rewrite lookup_insert_ne.
  - exists (closed_state h hd0 fd d s0), hd, fd, d. split_and!; try done.
    + by apply (child_loop_body_close _ _ _ _ _ _ n).
    + split_and!; try done.
      * simpl. by apply NoDup_remove_first.
      * intros h' Hin'. pose proof (Hrest h' Hin') as Hne.
        destruct (Hl h') as (hd' & fd' & d' & Hh' & ? & ? & Hfd' & Hd').
        { apply elem_of_cons. by right. }
        exists hd', fd', d'. simpl. rewrite !lookup_insert_ne by done.
        split_and!; try done. rewrite lookup_delete_ne; [done|].
        intros <-. apply Hne. by apply (Hinj h' h hd' hd fd).
      * intros h1 h2 hd1 hd2 fd' H1 H2 F1 F2. simpl in H1, H2.
        destruct (decide (h = h1)) as [<-|N1].
        { rewrite lookup_insert_eq in H1. by injection H1 as <-. }
        destruct (decide (h = h2)) as [<-|N2].
        { rewrite lookup_insert_eq in H2. by injection H2 as <-. }
        rewrite !lookup_insert_ne in H1, H2 by done.
        by apply (Hinj h1 h2 hd1 hd2 fd').
    + intros h' Hne. simpl. by rewrite !lookup_insert_ne.
    + intros h' hd' fd' Hne Hh' Hfd'. simpl.
      rewrite lookup_delete_ne; [done|]. intros <-. apply Hne.
      by apply (Hinj h' h hd' hd fd).
Qed.

(** What the loop of [_child] leaves of a pipe: its content, and the
    holders of its reading end when no handle that reads it is
    closed. *)
Lemma child_loop_pipe cpid childhandles l s p kp :
  inherited cpid l s → kpipes s !! p = Some kp →
  (∀ h hd fd, h ∈ l → h ∉ childhandles → heap s !! h = Some hd →
     _fd hd = Some fd → fdtab s !! fd ≠ Some (mkFdesc p O_RDONLY)) →
  ∃ kp', kpipes (for_each l (child_loop_body childhandles) s).2 !! p = Some kp'
       ∧ content kp' = content kp ∧ readers kp' = readers kp.
Proof.
  revert s kp. induction l as [|h l IH]; intros s kp Hinh Hp Hno.
  { by exists kp. }
  pose proof Hinh as (_ & Hnd & _).
  apply NoDup_cons in Hnd as [Hhl _].
  destruct (child_loop_step cpid childhandles h l s Hinh)
    as (s1 & hd & fd & d & E & Hinh1 & Hh & Hfd & Hd & Hheap & Hfdt & Hkeep & Hclose).
  cbn [for_each]. rewrite (bind_ret _ _ _ _ _ E).
  assert (Hp1 : ∃ kp1, kpipes s1 !! p = Some kp1
                     ∧ content kp1 = content kp ∧ readers kp1 = readers kp).
  { destruct (decide (h ∈ childhandles)) as [Hin|Hout].
    - rewrite (Hkeep Hin). by exists kp.
    - rewrite (Hclose Hout). destruct (decide (fd_pipe d = p)) as [Ep|Np].
      + rewrite Ep, lookup_alter_eq, Hp. eexists. split; [done|].
        destruct d as [q [|]]; simpl in *; [|done].
        exfalso. apply (Hno h hd fd); try done; [apply elem_of_cons; by left|].
        by rewrite Hd, Ep.
      + rewrite lookup_alter_ne by done. by exists kp. }
  destruct Hp1 as (kp1 & Hp1 & Hc1 & Hr1).
  destruct (IH s1 kp1 Hinh1 Hp1) as (kp' & Hp' & Hc' & Hr').
  { intros h' hd' fd' Hin' Hout' Hh' Hfd'.
    assert (Hne : h' ≠ h) by (intros ->; done).
    rewrite Hheap in Hh' by done. rewrite (Hfdt h' hd' fd') by done.
    apply (Hno h' hd' fd'); try done. apply elem_of_cons. by right. }
  exists kp'. split_and!; [done|congruence..].
Qed.

Section Parent_to_child.

Context {Obj : Type} `{Pickle Obj}.

(** X22: a message from the parent to the child. The parent hands the
    reader of an empty pipe to a child with [start_process] and keeps
    the writer; [r] is the only handle of the parent that reads this
    pipe, and no [get] or [put] is in flight at the fork. In the order
    fork, the parent closes its reader, the child runs the loop of
    [_child], the parent puts [o], whose frame finds room in the pipe,
    the child calls [get] on the handle it was given: this [get]
    returns [o]. *)
Theorem parent_puts_child_gets target cpid r w p kp s (o : Obj) :
  reachable (Obj := Obj) s →
  (∀ h hd, h ∈ _all_handles s → heap s !! h = Some hd → _lock hd ≠ 0) →
  endpoint r O_RDONLY p s → endpoint w O_WRONLY p s →
  kpipes s !! p = Some kp → content kp = [] → readers kp ≠ 0 →
  (∀ h hd fd, heap s !! h = Some hd → _fd hd = Some fd →
     fdtab s !! fd = Some (mkFdesc p O_RDONLY) → h = r) →
  (4 + Z.of_nat (length (dumps o)) ≤ PIPE_CAPACITY)%Z →
  ∃ sP sC sP' sC',
    start_process (Single r) s = (Ret tt, sP)
    ∧ _child target [r] (_all_handles s) (after_peer sP (forked_child cpid s))
      = target [r] sC
    ∧ put w o (after_peer sC sP) = (Ret tt, sP')
    ∧ get r (after_peer sP' sC) = (Ret o, sC').
Proof.
  intros Hreach Hfree Hr Hw Hp Hcont Hrd Honly Hfit.
  pose proof (reachable_wf s Hreach) as Hwf.
  (* the parent's side *)
  assert (Hf : os_fork s = (Ret tt, (os_fork s).2)) by reflexivity.
  destruct (os_fork_kpipes s p kp Hp) as (kpF & HpF & HcF & _ & _ & Hfr & _).
  pose proof (os_fork_endpoint _ _ _ _ Hr) as Hr0.
  pose proof (os_fork_endpoint _ _ _ _ Hw) as Hw0.
  destruct (close_other_end r w O_RDONLY O_WRONLY p _ Hr0 Hw0)
    as (sP & EP & HwP & HkP); [done|].
  assert (HrdF : 1 < readers kpF).
  { destruct Hr as (hd & fd & _ & _ & _ & _ & _ & Hd).
    specialize (Hfr fd Hd). lia. }
  assert (HpP : kpipes sP !! p = Some (kp_close O_RDONLY kpF))
    by (by rewrite HkP, lookup_alter_eq, HpF).
  (* the child's side *)
  set (c0 := after_peer sP (forked_child cpid s)).
  assert (Hinh : inherited cpid (_all_handles s) c0).
  { apply inherited_set_kpipes, forked_child_inherited;
      [done|apply (wf_nodup _ Hwf)|done..]. }
  destruct (child_loop_run cpid [r] (_all_handles s) c0 Hinh)
    as (sC & EC & HpidC & _ & HK & _ & HF & _).
  destruct (child_loop_pipe cpid [r] (_all_handles s) c0 p _ Hinh HpP)
    as (kpC & HpC & HcC & HrC).
  { intros h hd fd Hin Hout Hh Hfd Hd. apply Hout.
    apply list_elem_of_singleton. by apply (Honly h hd fd). }
  rewrite EC in HpC. simpl in HpC, HcC, HrC.
  assert (HrC' : endpoint r O_RDONLY p sC).
  { destruct Hr as (hd & fd & Hh & Hc & Hpid & Hl & Hfd & Hd).
    assert (Hin : r ∈ _all_handles s).
    { by apply (reachable_tidy s Hreach r hd). }
    exists (set__legit_pid cpid hd), fd. split_and!; try done.
    - apply HK; [done|by apply list_elem_of_singleton|done].
    - rewrite (HF r hd fd); [done|done|done|].
      intros _. by apply list_elem_of_singleton. }
  (* the parent puts *)
  destruct (struct_facts.pack_i_is_Some (Z.of_nat (length (dumps o))))
    as [hdr Hpack]; [unfold PIPE_CAPACITY in Hfit; lia|].
  destruct (put_appends w p (after_peer sC sP) kpC o hdr)
    as (sP' & EP' & HioP' & HkP').
  { destruct HwP as (hd & fd & ?). by exists hd, fd. }
  { done. }
  { rewrite HrC. simpl. lia. }
  { done. }
  { unfold room. rewrite HcC. simpl. rewrite HcF, Hcont. simpl. lia. }
  (* the child gets *)
  destruct (struct_facts.unpack_pack _ _ Hpack) as [Hunpack Hl4].
  destruct hdr as [|b0 [|b1 [|b2 [|b3 [|]]]]]; try done.
  destruct (get_reads r p (after_peer sP' sC)
              (kp_append ([b0; b1; b2; b3] ++ dumps o) kpC)
              b0 b1 b2 b3 (dumps o) (Z.of_nat (length (dumps o))))
    as (sC' & EC' & _).
  { destruct HrC' as (hd & fd & ?). by exists hd, fd. }
  { simpl. rewrite HkP'. apply lookup_insert_eq. }
  { simpl. rewrite HcC. simpl. by rewrite HcF, Hcont. }
  { exact Hunpack. }
  { lia. }
  rewrite Nat2Z.id, firstn_all, loads_dumps in EC'.
  exists sP, sC, sP', sC'. split_and!; try done.
  - rewrite start_process_posix, (bind_ret _ _ _ _ _ Hf).
    cbn [as_tuple for_each]. by rewrite (bind_ret _ _ _ _ _ EP).
  - unfold _child. by rewrite (bind_ret _ _ _ _ _ EC).
Qed.

End Parent_to_child.

(** ** The properties on concrete states *)

Lemma s_holding_reader c wr : endpoint 0 O_RDONLY 0 (Examples.s_holding c wr).
Proof. exists (mkHandle (Some 0) O_RDONLY 100 1 false), 0. done. Qed.

Lemma s_holding_writer c wr : endpoint 1 O_WRONLY 0 (Examples.s_holding c wr).
Proof. exists (mkHandle (Some 1) O_WRONLY 100 1 false), 1. done. Qed.

Lemma s_pair_reader : endpoint 0 O_RDONLY 0 Examples.s_pair.
Proof. exists (mkHandle (Some 0) O_RDONLY 100 1 false), 0. done. Qed.

Lemma s_pair_writer : endpoint 1 O_WRONLY 0 Examples.s_pair.
Proof. exists (mkHandle (Some 1) O_WRONLY 100 1 false), 1. done. Qed.

Lemma s_two_pipes_reachable : reachable (Obj := bytes) Examples.s_two_pipes.
Proof. exact (reachable_step Pipe Examples.s_pair s_pair_reachable). Qed.

Lemma lock_released_on_exit_witness :
  io_only (Examples.s_holding Examples.frame_hello 1)
    (get (Obj := bytes) 0 (Examples.s_holding Examples.frame_hello 1)).2
  ∧ io_only Examples.s_pair (put 1 Examples.hello Examples.s_pair).2.
Proof.
  split.
  - apply (proj1 (lock_released_on_exit (Obj := bytes) 0 Examples.hello
                    (Examples.s_holding Examples.frame_hello 1))).
    vm_compute. exact I.
  - apply (proj2 (lock_released_on_exit 1 Examples.hello Examples.s_pair)).
    vm_compute. exact I.
Defined.

Lemma get_end_of_stream_witness :
  (get (Obj := bytes) 0 (Examples.s_holding [x00; x00] 0)).1
  = Raise TruncatedMessageError
  ∧ io_only (Examples.s_holding [x00; x00] 0)
      (get (Obj := bytes) 0 (Examples.s_holding [x00; x00] 0)).2.
Proof.
  apply (get_end_of_stream (Obj := bytes) 0 0
           (Examples.s_holding [x00; x00] 0) (mkPipe [x00; x00] 1 0)).
  - apply s_holding_reader.
  - reflexivity.
  - reflexivity.
  - simpl. lia.
Defined.

Lemma get_cut_inside_frame_witness :
  (get (Obj := bytes) 0
     (Examples.s_holding [x00; x00; x00; x05; x68; x65] 0)).1
  = Raise TruncatedMessageError
  ∧ io_only (Examples.s_holding [x00; x00; x00; x05; x68; x65] 0)
      (get (Obj := bytes) 0
         (Examples.s_holding [x00; x00; x00; x05; x68; x65] 0)).2.
Proof.
  apply (get_cut_inside_frame (Obj := bytes) 0 0
           (Examples.s_holding [x00; x00; x00; x05; x68; x65] 0)
           (mkPipe [x00; x00; x00; x05; x68; x65] 1 0)
           x00 x00 x00 x05 [x68; x65] 5).
  - apply s_holding_reader.
  - reflexivity.
  - reflexivity.
  - reflexivity.
  - reflexivity.
  - simpl. lia.
Defined.

(** The pipe ends right after a prefix that announces five bytes. *)
Example get_cut_after_prefix :
  (get (Obj := bytes) 0 (Examples.s_holding [x00; x00; x00; x05] 0)).1
  = Raise PeerClosedError.
Proof. vm_compute. reflexivity. Qed.

Lemma get_waits_for_writer_witness :
  (get (Obj := bytes) 0 Examples.s_pair).1 = Blocked
  ∧ io_in_flight 0 (get (Obj := bytes) 0 Examples.s_pair).2
  ∧ (close 0 (get (Obj := bytes) 0 Examples.s_pair).2).1
    = Raise HandleLockedError.
Proof.
  apply (get_waits_for_writer (Obj := bytes) 0 0 Examples.s_pair
           (mkPipe [] 1 1)).
  - exact s_pair_reader.
  - reflexivity.
  - simpl. lia.
  - simpl. lia.
Defined.


Lemma close_effect_witness :
  ∃ s' fd hd,
    close 1 Examples.s_pair = (Ret tt, s')
    ∧ heap Examples.s_pair !! 1 = Some hd ∧ _fd hd = Some fd
    ∧ heap s' !! 1 = Some (mkHandle None (_fd_flag hd) (_legit_pid hd) 1 true)
    ∧ fdtab s' = delete fd (fdtab Examples.s_pair)
    ∧ kpipes s' = alter (kp_close O_WRONLY) 0 (kpipes Examples.s_pair)
    ∧ _all_handles s' = remove_first 1 (_all_handles Examples.s_pair)
    ∧ ∀ h', h' ≠ 1 → heap s' !! h' = heap Examples.s_pair !! h'.
Proof.
  apply (close_effect 1 O_WRONLY 0 Examples.s_pair). exact s_pair_writer.
Defined.

Lemma close_os_error_witness :
  ∃ s',
    close 1 Examples.s_fd_lost = (Raise (OSError EBADF), s')
    ∧ heap s' !! 1 = Some (mkHandle (Some 1) O_WRONLY 100 0 true)
    ∧ _all_handles s' = _all_handles Examples.s_fd_lost
    ∧ close 1 s' = (Raise HandleClosedError, s')
    ∧ get (Obj := bytes) 1 s' = (Raise HandleClosedError, s')
    ∧ put 1 Examples.hello s' = (Raise HandleClosedError, s').
Proof.
  apply (close_os_error (Obj := bytes) 1 Examples.hello Examples.s_fd_lost
           (mkHandle (Some 1) O_WRONLY 100 1 false) 1 0).
  - reflexivity.
  - reflexivity.
  - reflexivity.
  - reflexivity.
  - reflexivity.
  - reflexivity.
Defined.

Lemma put_close_get_witness :
  ∃ s1 s2 s3 s4,
    put 1 Examples.hello Examples.s_pair = (Ret tt, s1)
    ∧ close 1 s1 = (Ret tt, s2)
    ∧ get 0 s2 = (Ret Examples.hello, s3)
    ∧ get (Obj := bytes) 0 s3 = (Raise PeerClosedError, s4).
Proof.
  apply (put_close_get (Obj := bytes) 0 1 0 (mkPipe [] 1 1) Examples.s_pair
           Examples.hello).
  - exact s_pair_reader.
  - exact s_pair_writer.
  - reflexivity.
  - reflexivity.
  - simpl. lia.
  - reflexivity.
  - unfold PIPE_CAPACITY. simpl. lia.
Defined.

Lemma close_reader_then_put_witness :
  ∃ s1 s2 s3,
    close 0 Examples.s_pair = (Ret tt, s1)
    ∧ put 1 Examples.hello s1 = (Raise (OSError EPIPE), s2)
    ∧ kpipes s2 = kpipes s1
    ∧ endpoint 1 O_WRONLY 0 s2
    ∧ close 1 s2 = (Ret tt, s3).
Proof.
  apply (close_reader_then_put (Obj := bytes) 0 1 0 (mkPipe [] 1 1)
           Examples.s_pair Examples.hello).
  - exact s_pair_reader.
  - exact s_pair_writer.
  - reflexivity.
  - reflexivity.
  - simpl. lia.
Defined.

Lemma set_legit_process_accepts_witness :
  close 1 Examples.s_forked = (Raise CrossProcessUseError, Examples.s_forked)
  ∧ ∃ s',
      _set_legit_process 1 Examples.s_forked = (Ret tt, s')
      ∧ s' = set_heap (insert 1 (set__legit_pid (getpid Examples.s_forked)
                                   (mkHandle (Some 1) O_WRONLY 100 1 false)))
               Examples.s_forked
      ∧ _validate_process 1 s' = (Ret tt, s').
Proof.
  destruct (set_legit_process_accepts 1 Examples.s_forked
              (mkHandle (Some 1) O_WRONLY 100 1 false) eq_refl eq_refl)
    as [Hclose Hlegit].
  split; [|exact Hlegit]. apply Hclose. simpl. lia.
Defined.

Lemma start_process_fork_first_witness :
  start_process (Single 1) Examples.s_writer_closed
  = (Raise HandleClosedError, (os_fork Examples.s_writer_closed).2).
Proof.
  refine (proj1 (start_process_fork_first (Single 1) 1 []
                   Examples.s_writer_closed
                   (mkHandle None O_WRONLY 100 1 true) eq_refl _) eq_refl).
  reflexivity.
Defined.

Lemma s_two_pipes_free h hd :
  h ∈ _all_handles Examples.s_two_pipes →
  heap Examples.s_two_pipes !! h = Some hd → _lock hd ≠ 0.
Proof.
  intros Hin Hh.
  change (_all_handles Examples.s_two_pipes) with [0; 1; 2; 3] in Hin.
  repeat (apply elem_of_cons in Hin as [->|Hin]);
    [vm_compute in Hh; injection Hh as <-; simpl; lia..|].
  by apply elem_of_nil in Hin.
Qed.

Lemma child_handoff_witness :
  ∃ s',
    _child Examples.idle [0; 3] (_all_handles Examples.s_two_pipes)
      (forked_child 200 Examples.s_two_pipes)
    = Examples.idle [0; 3] s'
    ∧ getpid s' = 200%Z
    ∧ (∀ h, h ∈ _all_handles Examples.s_two_pipes → h ∈ [0; 3] →
         h ∈ _all_handles s'
         ∧ _validate_process h s' = (Ret tt, s')
         ∧ (∃ hd, heap Examples.s_two_pipes !! h = Some hd
                ∧ heap s' !! h = Some (set__legit_pid 200 hd)
                ∧ ∀ fd, _fd hd = Some fd →
                        fdtab s' !! fd = fdtab Examples.s_two_pipes !! fd))
    ∧ (∀ h, h ∈ _all_handles Examples.s_two_pipes → h ∉ [0; 3] →
         closed_in h s' ∧ (h ∉ _all_handles s')
         ∧ close h s' = (Raise HandleClosedError, s'))
    ∧ (∀ h, h ∈ _all_handles s' ↔
            h ∈ _all_handles Examples.s_two_pipes ∧ h ∈ [0; 3]).
Proof.
  apply (child_handoff Examples.idle [0; 3] 200 Examples.s_two_pipes).
  - exact (reachable_wf (Obj := bytes) _ s_two_pipes_reachable).
  - exact s_two_pipes_free.
Defined.

(** What the child of [s_two_pipes] is left with after the loop of
    [_child] for the handles 0 and 3. *)
Example child_of_two_pipes :
  _all_handles
    (_child Examples.idle [0; 3] [0; 1; 2; 3]
       (forked_child 200 Examples.s_two_pipes)).2 = [0; 3]
  ∧ (get (Obj := bytes) 0
       (_child Examples.idle [0; 3] [0; 1; 2; 3]
          (forked_child 200 Examples.s_two_pipes)).2).1 = Blocked
  ∧ (get (Obj := bytes) 2
       (_child Examples.idle [0; 3] [0; 1; 2; 3]
          (forked_child 200 Examples.s_two_pipes)).2).1
    = Raise HandleClosedError.
Proof. split_and!; vm_compute; reflexivity. Qed.

Lemma child_aborts_on_locked_handle_witness :
  ∃ s',
    _child Examples.idle [1] (_all_handles Examples.s_get_suspended)
      (forked_child 200 Examples.s_get_suspended)
    = (Raise HandleLockedError, s').
Proof.
  apply (child_aborts_on_locked_handle Examples.idle [1] 200
           Examples.s_get_suspended [] 0 [1]
           (mkHandle (Some 0) O_RDONLY 100 0 false)).
  - exact (reachable_wf (Obj := bytes) _
             (reachable_step (Get 0) Examples.s_pair s_pair_reachable)).
  - reflexivity.
  - intros h' hd' Hin. by apply elem_of_nil in Hin.
  - reflexivity.
  - reflexivity.
  - intros Hin. apply list_elem_of_singleton in Hin. discriminate Hin.
Defined.


Lemma registry_lists_open_handles_witness :
  NoDup (_all_handles Examples.s_writer_closed)
  ∧ ∀ h, h ∈ _all_handles Examples.s_writer_closed ↔
         ∃ hd, heap Examples.s_writer_closed !! h = Some hd
             ∧ _closed hd = false.
Proof.
  apply (registry_lists_open_handles (Obj := bytes) Examples.s_writer_closed).
  exact (reachable_step (Close 1) Examples.s_pair s_pair_reachable).
Defined.

Lemma semaphore_binary_witness :
  _lock (mkHandle (Some 0) O_RDONLY 100 0 false) ≤ 1.
Proof.
  apply (semaphore_binary (Obj := bytes) Examples.s_get_suspended 0
           (mkHandle (Some 0) O_RDONLY 100 0 false)).
  - exact (reachable_step (Get 0) Examples.s_pair s_pair_reachable).
  - reflexivity.
Defined.

Lemma other_handles_untouched_witness :
  endpoint 2 O_RDONLY 1 (exec (Obj := bytes) (Close 1) Examples.s_two_pipes).
Proof.
  apply (other_handles_untouched (Obj := bytes) (Close 1) 2 O_RDONLY 1
           Examples.s_two_pipes).
  - exact s_two_pipes_reachable.
  - exists (mkHandle (Some 2) O_RDONLY 100 1 false), 2. done.
  - simpl. lia.
Defined.

Lemma start_process_returns_witness :
  ∃ s', start_process (Several [0; 3]) Examples.s_two_pipes = (Ret tt, s').
Proof.
  apply (start_process_returns (Obj := bytes) (Several [0; 3])
           Examples.s_two_pipes).
  - exact s_two_pipes_reachable.
  - apply NoDup_cons. split; [|apply NoDup_singleton].
    intros Hin. apply list_elem_of_singleton in Hin. discriminate Hin.
  - intros h Hin. simpl in Hin.
    apply elem_of_cons in Hin as [->|Hin];
      [|apply list_elem_of_singleton in Hin as ->].
    + exists (mkHandle (Some 0) O_RDONLY 100 1 false). done.
    + exists (mkHandle (Some 3) O_WRONLY 100 1 false). done.
Defined.

Lemma handoff_keeps_pipe_open_witness :
  ∃ s1,
    start_process (Single 1) Examples.s_pair = (Ret tt, s1)
    ∧ closed_in 1 s1
    ∧ (get (Obj := bytes) 0 s1).1 = Blocked.
Proof.
  apply (handoff_keeps_pipe_open (Obj := bytes) 0 1 0 (mkPipe [] 1 1)
           Examples.s_pair).
  - exact s_pair_reader.
  - exact s_pair_writer.
  - reflexivity.
  - simpl. lia.
  - simpl. lia.
Defined.

Lemma length_bulky_payload :
  Z.of_nat (length Examples.bulky_payload) = 70000%Z.
Proof.
  unfold Examples.bulky_payload. rewrite length_replicate.
  apply Z2Nat.id. lia.
Qed.

Lemma put_waits_for_room_witness :
  ∃ s' hdr k,
    put 1 Examples.bulky_payload Examples.s_pair = (Blocked, s')
    ∧ io_in_flight 1 s'
    ∧ struct.pack_i (Z.of_nat (length (dumps Examples.bulky_payload)))
      = Some hdr
    ∧ k < length (hdr ++ dumps Examples.bulky_payload)
    ∧ kpipes s' !! 0
      = Some (kp_append (take k (hdr ++ dumps Examples.bulky_payload))
                (mkPipe [] 1 1)).
Proof.
  apply (put_waits_for_room (Obj := bytes) 1 0 (mkPipe [] 1 1)
           Examples.s_pair Examples.bulky_payload).
  - exact s_pair_writer.
  - reflexivity.
  - simpl. lia.
  - rewrite length_dumps_bytes, length_bulky_payload. lia.
  - rewrite length_dumps_bytes, length_bulky_payload.
    unfold room, PIPE_CAPACITY. simpl. lia.
Defined.

Lemma s_pair_free h hd :
  h ∈ _all_handles Examples.s_pair →
  heap Examples.s_pair !! h = Some hd → _lock hd ≠ 0.
Proof.
  intros Hin Hh.
  change (_all_handles Examples.s_pair) with [0; 1] in Hin.
  repeat (apply elem_of_cons in Hin as [->|Hin]);
    [vm_compute in Hh; injection Hh as <-; simpl; lia..|].
  by apply elem_of_nil in Hin.
Qed.

Lemma s_pair_one_reader h hd fd :
  heap Examples.s_pair !! h = Some hd → _fd hd = Some fd →
  fdtab Examples.s_pair !! fd = Some (mkFdesc 0 O_RDONLY) → h = 0.
Proof.
  intros Hh Hfd Hd.
  change (fdtab Examples.s_pair)
    with (<[1 := mkFdesc 0 O_WRONLY]> (<[0 := mkFdesc 0 O_RDONLY]> ∅)
            : gmap nat fdesc) in Hd.
  apply lookup_insert_Some in Hd as [[_ Hd]|[_ Hd]]; [done|].
  apply lookup_insert_Some in Hd as [[<- _]|[_ Hd]]; [|done].
  apply (wf_fd_inj _ (reachable_wf (Obj := bytes) _ s_pair_reachable)
           h 0 hd (mkHandle (Some 0) O_RDONLY 100 1 false) 0); done.
Qed.

Lemma parent_puts_child_gets_witness :
  ∃ sP sC sP' sC',
    start_process (Single 0) Examples.s_pair = (Ret tt, sP)
    ∧ _child Examples.idle [0] (_all_handles Examples.s_pair)
        (after_peer sP (forked_child 200 Examples.s_pair))
      = Examples.idle [0] sC
    ∧ put 1 Examples.hello (after_peer sC sP) = (Ret tt, sP')
    ∧ get 0 (after_peer sP' sC) = (Ret Examples.hello, sC').
Proof.
  apply (parent_puts_child_gets (Obj := bytes) Examples.idle 200 0 1 0
           (mkPipe [] 1 1) Examples.s_pair Examples.hello).
  - exact s_pair_reachable.
  - exact s_pair_free.
  - exact s_pair_reader.
  - exact s_pair_writer.
  - reflexivity.
  - reflexivity.
  - simpl. lia.
  - exact s_pair_one_reader.
  - unfold PIPE_CAPACITY. simpl. lia.
Defined.
